(** * scraper_app/views.py: a shallow embedding and its verified properties

    The development follows the layout of [views.py]:

    - text helpers ([str.strip], [str.lower], the [in] operator) and the
      regular expressions of [parse_address];
    - insertion-ordered dictionaries, [parse_address], [save_to_db];
    - the cache-backed CAPTCHA relay ([get_status], [_wait_for_captcha_value]);
    - [_screenshot_element];
    - the orchestration run [trigger_scrape], driven by the observations the
      browser returns.

    Python [str] values are modelled as [string], one character per code
    point, which covers text whose code points lie below 256 (ASCII and
    Latin-1).  The regular expressions of [parse_address] look at the
    character database beyond that range, so [parse_address] is modelled a
    second time on lists of code points (modules [Unicode], [UnicodeRe],
    [UnicodeAddress]), and the 8-bit model is shown to be the restriction
    of that one (module [BridgeFacts]).  The numbers the browser hands to
    [_screenshot_element] are Python [int]s and [float]s (module
    [Pynum]).  *)

From Stdlib Require Import ZArith List String Ascii Bool Lia DecimalString
  DecimalFacts DecimalNat SpecFloat.
From stdpp Require Import gmap strings.
Import ListNotations.

Local Open Scope string_scope.

(* stdpp blocks [simpl] on string concatenation; the proofs below compute
   with it. *)
#[local] Arguments String.append !s1 s2.

(* ===================================================================== *)
(** * Text helpers *)
(* ===================================================================== *)

Module Text.

(** Code point of a character. *)
Definition ord (c : ascii) : nat := nat_of_ascii c.

(** Characters [str.lower] changes: A..Z and the Latin-1 capitals
    (U+00C0..U+00DE without the multiplication sign). *)
Definition is_upper (c : ascii) : bool :=
  (Nat.leb 65 (ord c) && Nat.leb (ord c) 90) ||
  (Nat.leb 192 (ord c) && Nat.leb (ord c) 222 && negb (Nat.eqb (ord c) 215)).

(** [\d] on code points below 256: the digits 0 to 9, the only decimal
    digits of that range ([Unicode.is_digit] is the full class). *)
Definition is_digit (c : ascii) : bool := Nat.leb 48 (ord c) && Nat.leb (ord c) 57.

(** [str.isspace] on one character, also the class [\s]: TAB..CR, FS..US,
    SPACE, NEL and the no-break space. *)
Definition is_space (c : ascii) : bool :=
  (Nat.leb 9 (ord c) && Nat.leb (ord c) 13) || (Nat.leb 28 (ord c) && Nat.leb (ord c) 32) ||
  Nat.eqb (ord c) 133 || Nat.eqb (ord c) 160.

(** [str.lower] on one character. *)
Definition lower_ascii (c : ascii) : ascii :=
  if is_upper c then ascii_of_nat (ord c + 32) else c.

(** [s.lower()] *)
Fixpoint lower (s : string) : string :=
  match s with
  | EmptyString => EmptyString
  | String c s' => String (lower_ascii c) (lower s')
  end.

(** [needle in hay] *)
Fixpoint contains (needle hay : string) : bool :=
  String.prefix needle hay ||
  match hay with
  | EmptyString => false
  | String _ hay' => contains needle hay'
  end.

(** [s.lstrip()] *)
Fixpoint lstrip (s : string) : string :=
  match s with
  | EmptyString => EmptyString
  | String c s' => if is_space c then lstrip s' else s
  end.

(** [s.rstrip()] *)
Fixpoint rstrip (s : string) : string :=
  match s with
  | EmptyString => EmptyString
  | String c s' =>
      match rstrip s' with
      | EmptyString => if is_space c then EmptyString else String c EmptyString
      | t => String c t
      end
  end.

(** [s.strip()] *)
Definition strip (s : string) : string := rstrip (lstrip s).

(** Python truthiness of a [str]. *)
Definition truthy (s : string) : bool :=
  match s with EmptyString => false | _ => true end.

(** [str(n)] for a non-negative integer. *)
Definition str_of_nat (n : nat) : string := NilZero.string_of_uint (Nat.to_uint n).

Fixpoint all_chars (p : ascii -> bool) (s : string) : bool :=
  match s with
  | EmptyString => true
  | String c s' => p c && all_chars p s'
  end.

Definition first_char (s : string) : option ascii :=
  match s with EmptyString => None | String c _ => Some c end.

Fixpoint last_char (s : string) : option ascii :=
  match s with
  | EmptyString => None
  | String c EmptyString => Some c
  | String _ s' => last_char s'
  end.

End Text.

(* ===================================================================== *)
(** * Regular expressions used by [parse_address] *)
(* ===================================================================== *)

(** Every pattern of [parse_address] is a sequence of single-character
    atoms, each possibly under a greedy quantifier, with one capturing
    group.  [re.search] with [re.IGNORECASE] is modelled by a backtracking
    matcher over such sequences. *)

Module Re.
Import Text.

Inductive item : Type :=
| Lit (c : ascii)                                   (* a literal, compared ignoring case *)
| Rep (cls : ascii -> bool) (lo : nat) (hi : option nat)  (* greedy [cls{lo,hi}] *)
| GroupOpen
| GroupClose.

Definition pattern := list item.

(** The match object: only group 1 is ever inspected. *)
Record re_match : Type := MkMatch { group1 : option string }.

(** [match.lastindex] *)
Definition lastindex (m : re_match) : option nat :=
  match group1 m with Some _ => Some 1%nat | None => None end.

(** [match.group(1)] (the patterns' group always takes part in a match). *)
Definition group (m : re_match) : string :=
  match group1 m with Some g => g | None => EmptyString end.

Definition hi_allows (hi : option nat) : bool :=
  match hi with Some O => false | _ => true end.

Definition hi_pred (hi : option nat) : option nat :=
  match hi with Some n => Some (Nat.pred n) | None => None end.

Section Greedy.
Context {R : Type} (cls : ascii -> bool) (k : string -> option R).

(** Greedy repetition: take one more character when allowed and try the
    rest; on failure give the character back. *)
Fixpoint rep_greedy (lo : nat) (hi : option nat) (s : string) : option R :=
  let stop := match lo with O => k s | S _ => None end in
  match s with
  | String c s' =>
      if cls c && hi_allows hi then
        match rep_greedy (Nat.pred lo) (hi_pred hi) s' with
        | Some r => Some r
        | None => stop
        end
      else stop
  | EmptyString => stop
  end.
End Greedy.

(** Case-insensitive comparison of a pattern literal with an input
    character, both below 256 ([UnicodeRe.lit_match] is the comparison on
    any code point). *)
Definition ci_eqb (c d : ascii) : bool :=
  Ascii.eqb (lower_ascii c) (lower_ascii d).

(** Match [pat] at the start of [s].  [opened] is the input as it was at
    the group's opening parenthesis, [g] the text captured so far. *)
Fixpoint match_here (pat : pattern) (s opened : string) (g : option string)
  : option re_match :=
  match pat with
  | [] => Some (MkMatch g)
  | Lit c :: pat' =>
      match s with
      | String d s' => if ci_eqb c d then match_here pat' s' opened g else None
      | EmptyString => None
      end
  | Rep cls lo hi :: pat' =>
      rep_greedy cls (fun s' => match_here pat' s' opened g) lo hi s
  | GroupOpen :: pat' => match_here pat' s s g
  | GroupClose :: pat' =>
      match_here pat' s opened
        (Some (substring 0 (String.length opened - String.length s) opened))
  end.

Definition match_at (pat : pattern) (s : string) : option re_match :=
  match_here pat s s None.

(** [re.search(pat, s, re.IGNORECASE)]: the leftmost start position wins. *)
Fixpoint search (pat : pattern) (s : string) : option re_match :=
  match match_at pat s with
  | Some m => Some m
  | None =>
      match s with
      | EmptyString => None
      | String _ s' => search pat s'
      end
  end.

(** Pattern syntax. *)
Fixpoint lits (s : string) : pattern :=
  match s with
  | EmptyString => []
  | String c s' => Lit c :: lits s'
  end.

Definition is_char (c : ascii) : ascii -> bool := fun d => Ascii.eqb c d.
Definition opt (c : ascii) : item := Rep (is_char c) 0 (Some 1%nat).   (* c? *)
Definition star (cls : ascii -> bool) : item := Rep cls 0 None.        (* cls* *)
Definition plus (cls : ascii -> bool) : item := Rep cls 1 None.        (* cls+ *)
Definition exactly (n : nat) (cls : ascii -> bool) : item := Rep cls n (Some n).

(** [[^,\.]] *)
Definition not_comma_dot (c : ascii) : bool :=
  negb (Ascii.eqb c ",") && negb (Ascii.eqb c ".").

(** [[^p]] under [re.IGNORECASE]: neither [p] nor [P]. *)
Definition not_p (c : ascii) : bool := negb (Ascii.eqb (lower_ascii c) "p").

(** The shared tail [([^,\.]+)]. *)
Definition value_group : pattern := [GroupOpen; plus not_comma_dot; GroupClose].

End Re.

(* ===================================================================== *)
(** * Insertion-ordered dictionaries *)
(* ===================================================================== *)

(** A Python [dict] keeps its keys in insertion order and [items()] is
    iterated in [trigger_scrape], so a dictionary is an association list
    without duplicate keys, kept in insertion order. *)

Module Dict.

Definition dict (V : Type) : Type := list (string * V).

(** [d[k] = v]: overwrite in place, or append a new key. *)
Fixpoint set {V} (k : string) (v : V) (d : dict V) : dict V :=
  match d with
  | [] => [(k, v)]
  | (k', v') :: d' =>
      if String.eqb k' k then (k, v) :: d' else (k', v') :: set k v d'
  end.

(** [d.get(k)] *)
Fixpoint get {V} (k : string) (d : dict V) : option V :=
  match d with
  | [] => None
  | (k', v') :: d' => if String.eqb k' k then Some v' else get k d'
  end.

(** [list(d.keys())], [d.items()] *)
Definition keys {V} (d : dict V) : list string := map fst d.
Definition items {V} (d : dict V) : list (string * V) := d.

(** [dict(pairs)]: later pairs overwrite earlier ones with the same key. *)
Definition of_pairs {V} (pairs : list (string * V)) : dict V :=
  fold_left (fun d kv => set (fst kv) (snd kv) d) pairs [].

(** [zip(xs, ys)] stops at the shorter argument. *)
Definition zip {A B} (xs : list A) (ys : list B) : list (A * B) := combine xs ys.

End Dict.

(* ===================================================================== *)
(** * [parse_address] *)
(* ===================================================================== *)

Module Address.
Import Text Re.

(** The regular expressions of the [patterns] dictionary. *)

(** [r"Ward Colony\s*-\s*([^,\.]+)"] *)
Definition ward_colony_re : pattern :=
  (lits "Ward Colony" ++ [star is_space; Lit "-"; star is_space] ++ value_group)%list.
(** [r"Distirct:?\s*([^,\.]+)"] *)
Definition district_re : pattern :=
  (lits "Distirct" ++ [opt ":"; star is_space] ++ value_group)%list.
(** [r"Village:?\s*([^,\.]+)"] *)
Definition village_re : pattern :=
  (lits "Village" ++ [opt ":"; star is_space] ++ value_group)%list.
(** [r"Sub-Area\s*:?\s*([^,\.]+)"] *)
Definition sub_area_re : pattern :=
  (lits "Sub-Area" ++ [star is_space; opt ":"; star is_space] ++ value_group)%list.
(** [r"Tehsil:?\s*([^,\.]+)"] *)
Definition tehsil_re : pattern :=
  (lits "Tehsil" ++ [opt ":"; star is_space] ++ value_group)%list.
(** [r"pin-?(\d{6})"] *)
Definition pin_re : pattern :=
  (lits "pin" ++ [opt "-"; GroupOpen; exactly 6 is_digit; GroupClose])%list.
(** [r"(\d+\s*m\s+from\s+[^p]+)"] *)
Definition landmark_re : pattern :=
  ([GroupOpen; plus is_digit; star is_space; Lit "m"; plus is_space]
     ++ lits "from" ++ [plus is_space; plus not_p; GroupClose])%list.

(** The [patterns] dictionary, in source order. *)
Definition patterns : list (string * pattern) :=
  [ ("Ward/Colony", ward_colony_re);
    ("District", district_re);
    ("Village", village_re);
    ("Sub-Area/Road", sub_area_re);
    ("Tehsil/Locality", tehsil_re);
    ("PIN Code", pin_re);
    ("Landmark", landmark_re) ].

(** The value one pattern contributes (lines 93-97). *)
Definition field_value (pat : pattern) (addr : string) : string :=
  match search pat addr with
  | Some m =>
      match lastindex m with
      | Some n => if Nat.leb 1 n then group m else EmptyString
      | None => EmptyString
      end
  | None => EmptyString
  end.

Definition parse_address (addr : string) : Dict.dict string :=
  let parsed :=
    fold_left (fun parsed kp => Dict.set (fst kp) (field_value (snd kp) addr) parsed)
              patterns [] in
  let parsed :=
    Dict.set "State" (if contains "Madhya Pradesh" addr then "Madhya Pradesh" else "") parsed in
  let parsed :=
    Dict.set "Country" (if contains "India" addr then "India" else "") parsed in
  parsed.

(** The nine keys of the spec, in the order the code inserts them. *)
Definition address_keys : list string :=
  [ "Ward/Colony"; "District"; "Village"; "Sub-Area/Road"; "Tehsil/Locality";
    "PIN Code"; "Landmark"; "State"; "Country" ].

End Address.

(* ===================================================================== *)
(** * [parse_address] on text of any code point *)
(* ===================================================================== *)

(** A Python [str] holds code points up to U+10FFFF, and the regular
    expressions of [parse_address] look at them through the character
    database: [\d] takes the decimal digits of every script, [\s] every
    white-space character, and [re.IGNORECASE] compares a letter through
    the simple lower-case mapping.  This part models [parse_address] on
    such text, a list of code points, with the character data of CPython
    3.11 (Unicode 14.0); the matcher is the one above. *)

Module Unicode.
Local Open Scope list_scope.
Local Open Scope N_scope.

Definition text : Type := list N.

(** The code point of an 8-bit character, and the text of a literal of
    the source. *)
Definition cp (a : ascii) : N := N_of_ascii a.
Definition u (s : string) : text := map cp (list_ascii_of_string s).

Definition in_range (r : N * N) (c : N) : bool := (fst r <=? c) && (c <=? snd r).

(** [Py_UNICODE_ISSPACE]: the characters [str.isspace] and [\s] accept,
    as inclusive ranges of code points. *)
Definition space_ranges : list (N * N) :=
  [ (9, 13); (28, 32); (133, 133); (160, 160); (5760, 5760);
    (8192, 8202); (8232, 8233); (8239, 8239); (8287, 8287); (12288, 12288) ].

(** [Py_UNICODE_ISDECIMAL]: the digit zero of every run of ten decimal
    digits (general category Nd). *)
Definition digit_zeros : list N :=
  [ 48; 1632; 1776; 1984; 2406; 2534; 2662; 2790; 2918; 3046;
    3174; 3302; 3430; 3558; 3664; 3792; 3872; 4160; 4240; 6112;
    6160; 6470; 6608; 6784; 6800; 6992; 7088; 7232; 7248; 42528;
    43216; 43264; 43472; 43504; 43600; 44016; 65296; 66720; 68912; 69734;
    69872; 69942; 70096; 70384; 70736; 70864; 71248; 71360; 71472; 71904;
    72016; 72784; 73040; 73120; 92768; 92864; 93008; 120782; 120792; 120802;
    120812; 120822; 123200; 123632; 125264; 130032 ].

(** The simple lower-case mapping [_sre.unicode_tolower], as ranges
    [(first, last, step, target)]: a code point [c] of the range with
    [(c - first) mod step = 0] maps to [target + (c - first)]; every other
    code point maps to itself. *)
Definition lower_table : list (N * N * N * N) :=
  [ (65, 90, 1, 97); (192, 214, 1, 224); (216, 222, 1, 248);
    (256, 302, 2, 257); (304, 304, 1, 105); (306, 310, 2, 307);
    (313, 327, 2, 314); (330, 374, 2, 331); (376, 376, 1, 255);
    (377, 381, 2, 378); (385, 385, 1, 595); (386, 388, 2, 387);
    (390, 390, 1, 596); (391, 391, 1, 392); (393, 394, 1, 598);
    (395, 395, 1, 396); (398, 398, 1, 477); (399, 399, 1, 601);
    (400, 400, 1, 603); (401, 401, 1, 402); (403, 403, 1, 608);
    (404, 404, 1, 611); (406, 406, 1, 617); (407, 407, 1, 616);
    (408, 408, 1, 409); (412, 412, 1, 623); (413, 413, 1, 626);
    (415, 415, 1, 629); (416, 420, 2, 417); (422, 422, 1, 640);
    (423, 423, 1, 424); (425, 425, 1, 643); (428, 428, 1, 429);
    (430, 430, 1, 648); (431, 431, 1, 432); (433, 434, 1, 650);
    (435, 437, 2, 436); (439, 439, 1, 658); (440, 440, 1, 441);
    (444, 444, 1, 445); (452, 452, 1, 454); (453, 453, 1, 454);
    (455, 455, 1, 457); (456, 456, 1, 457); (458, 458, 1, 460);
    (459, 475, 2, 460); (478, 494, 2, 479); (497, 497, 1, 499);
    (498, 500, 2, 499); (502, 502, 1, 405); (503, 503, 1, 447);
    (504, 542, 2, 505); (544, 544, 1, 414); (546, 562, 2, 547);
    (570, 570, 1, 11365); (571, 571, 1, 572); (573, 573, 1, 410);
    (574, 574, 1, 11366); (577, 577, 1, 578); (579, 579, 1, 384);
    (580, 580, 1, 649); (581, 581, 1, 652); (582, 590, 2, 583);
    (880, 882, 2, 881); (886, 886, 1, 887); (895, 895, 1, 1011);
    (902, 902, 1, 940); (904, 906, 1, 941); (908, 908, 1, 972);
    (910, 911, 1, 973); (913, 929, 1, 945); (931, 939, 1, 963);
    (975, 975, 1, 983); (984, 1006, 2, 985); (1012, 1012, 1, 952);
    (1015, 1015, 1, 1016); (1017, 1017, 1, 1010); (1018, 1018, 1, 1019);
    (1021, 1023, 1, 891); (1024, 1039, 1, 1104); (1040, 1071, 1, 1072);
    (1120, 1152, 2, 1121); (1162, 1214, 2, 1163); (1216, 1216, 1, 1231);
    (1217, 1229, 2, 1218); (1232, 1326, 2, 1233); (1329, 1366, 1, 1377);
    (4256, 4293, 1, 11520); (4295, 4295, 1, 11559); (4301, 4301, 1, 11565);
    (5024, 5103, 1, 43888); (5104, 5109, 1, 5112); (7312, 7354, 1, 4304);
    (7357, 7359, 1, 4349); (7680, 7828, 2, 7681); (7838, 7838, 1, 223);
    (7840, 7934, 2, 7841); (7944, 7951, 1, 7936); (7960, 7965, 1, 7952);
    (7976, 7983, 1, 7968); (7992, 7999, 1, 7984); (8008, 8013, 1, 8000);
    (8025, 8031, 2, 8017); (8040, 8047, 1, 8032); (8072, 8079, 1, 8064);
    (8088, 8095, 1, 8080); (8104, 8111, 1, 8096); (8120, 8121, 1, 8112);
    (8122, 8123, 1, 8048); (8124, 8124, 1, 8115); (8136, 8139, 1, 8050);
    (8140, 8140, 1, 8131); (8152, 8153, 1, 8144); (8154, 8155, 1, 8054);
    (8168, 8169, 1, 8160); (8170, 8171, 1, 8058); (8172, 8172, 1, 8165);
    (8184, 8185, 1, 8056); (8186, 8187, 1, 8060); (8188, 8188, 1, 8179);
    (8486, 8486, 1, 969); (8490, 8490, 1, 107); (8491, 8491, 1, 229);
    (8498, 8498, 1, 8526); (8544, 8559, 1, 8560); (8579, 8579, 1, 8580);
    (9398, 9423, 1, 9424); (11264, 11311, 1, 11312); (11360, 11360, 1, 11361);
    (11362, 11362, 1, 619); (11363, 11363, 1, 7549); (11364, 11364, 1, 637);
    (11367, 11371, 2, 11368); (11373, 11373, 1, 593); (11374, 11374, 1, 625);
    (11375, 11375, 1, 592); (11376, 11376, 1, 594); (11378, 11378, 1, 11379);
    (11381, 11381, 1, 11382); (11390, 11391, 1, 575); (11392, 11490, 2, 11393);
    (11499, 11501, 2, 11500); (11506, 11506, 1, 11507); (42560, 42604, 2, 42561);
    (42624, 42650, 2, 42625); (42786, 42798, 2, 42787); (42802, 42862, 2, 42803);
    (42873, 42875, 2, 42874); (42877, 42877, 1, 7545); (42878, 42886, 2, 42879);
    (42891, 42891, 1, 42892); (42893, 42893, 1, 613); (42896, 42898, 2, 42897);
    (42902, 42920, 2, 42903); (42922, 42922, 1, 614); (42923, 42923, 1, 604);
    (42924, 42924, 1, 609); (42925, 42925, 1, 620); (42926, 42926, 1, 618);
    (42928, 42928, 1, 670); (42929, 42929, 1, 647); (42930, 42930, 1, 669);
    (42931, 42931, 1, 43859); (42932, 42946, 2, 42933); (42948, 42948, 1, 42900);
    (42949, 42949, 1, 642); (42950, 42950, 1, 7566); (42951, 42953, 2, 42952);
    (42960, 42960, 1, 42961); (42966, 42968, 2, 42967); (42997, 42997, 1, 42998);
    (65313, 65338, 1, 65345); (66560, 66599, 1, 66600); (66736, 66771, 1, 66776);
    (66928, 66938, 1, 66967); (66940, 66954, 1, 66979); (66956, 66962, 1, 66995);
    (66964, 66965, 1, 67003); (68736, 68786, 1, 68800); (71840, 71871, 1, 71872);
    (93760, 93791, 1, 93792); (125184, 125217, 1, 125218) ].

(** [_sre.unicode_iscased]: the code points that differ from their
    lower-case or from their upper-case form, as inclusive ranges. *)
Definition cased_ranges : list (N * N) :=
  [ (65, 90); (97, 122); (181, 181); (192, 214); (216, 246);
    (248, 311); (313, 396); (398, 410); (412, 425); (428, 441);
    (444, 445); (447, 447); (452, 544); (546, 563); (570, 596);
    (598, 599); (601, 601); (603, 604); (608, 609); (611, 611);
    (613, 614); (616, 620); (623, 623); (625, 626); (629, 629);
    (637, 637); (640, 640); (642, 643); (647, 652); (658, 658);
    (669, 670); (837, 837); (880, 883); (886, 887); (891, 893);
    (895, 895); (902, 902); (904, 906); (908, 908); (910, 929);
    (931, 977); (981, 1013); (1015, 1019); (1021, 1153); (1162, 1327);
    (1329, 1366); (1377, 1415); (4256, 4293); (4295, 4295); (4301, 4301);
    (4304, 4346); (4349, 4351); (5024, 5109); (5112, 5117); (7296, 7304);
    (7312, 7354); (7357, 7359); (7545, 7545); (7549, 7549); (7566, 7566);
    (7680, 7835); (7838, 7838); (7840, 7957); (7960, 7965); (7968, 8005);
    (8008, 8013); (8016, 8023); (8025, 8025); (8027, 8027); (8029, 8029);
    (8031, 8061); (8064, 8116); (8118, 8124); (8126, 8126); (8130, 8132);
    (8134, 8140); (8144, 8147); (8150, 8155); (8160, 8172); (8178, 8180);
    (8182, 8188); (8486, 8486); (8490, 8491); (8498, 8498); (8526, 8526);
    (8544, 8575); (8579, 8580); (9398, 9449); (11264, 11376); (11378, 11379);
    (11381, 11382); (11390, 11491); (11499, 11502); (11506, 11507); (11520, 11557);
    (11559, 11559); (11565, 11565); (42560, 42605); (42624, 42651); (42786, 42799);
    (42802, 42863); (42873, 42887); (42891, 42893); (42896, 42900); (42902, 42926);
    (42928, 42954); (42960, 42961); (42966, 42969); (42997, 42998); (43859, 43859);
    (43888, 43967); (64256, 64262); (64275, 64279); (65313, 65338); (65345, 65370);
    (66560, 66639); (66736, 66771); (66776, 66811); (66928, 66938); (66940, 66954);
    (66956, 66962); (66964, 66965); (66967, 66977); (66979, 66993); (66995, 67001);
    (67003, 67004); (68736, 68786); (68800, 68850); (71840, 71903); (93760, 93823);
    (125184, 125251) ].

(** [re._casefix._EXTRA_CASES]: lower-case characters with the same
    upper-case form as another lower-case character. *)
Definition extra_cases_table : list (N * list N) :=
  [ (105, [305]); (115, [383]); (181, [956]); (305, [105]);
    (383, [115]); (837, [953; 8126]); (912, [8147]); (944, [8163]);
    (946, [976]); (949, [1013]); (952, [977]); (953, [837; 8126]);
    (954, [1008]); (956, [181]); (960, [982]); (961, [1009]);
    (962, [963]); (963, [962]); (966, [981]); (976, [946]);
    (977, [952]); (981, [966]); (982, [960]); (1008, [954]);
    (1009, [961]); (1013, [949]); (1074, [7296]); (1076, [7297]);
    (1086, [7298]); (1089, [7299]); (1090, [7300; 7301]); (1098, [7302]);
    (1123, [7303]); (7296, [1074]); (7297, [1076]); (7298, [1086]);
    (7299, [1089]); (7300, [1090; 7301]); (7301, [1090; 7300]); (7302, [1098]);
    (7303, [1123]); (7304, [42571]); (7777, [7835]); (7835, [7777]);
    (8126, [837; 953]); (8147, [912]); (8163, [944]); (42571, [7304]);
    (64261, [64262]); (64262, [64261]) ].

(** [\s] and [str.isspace] *)
Definition is_space (c : N) : bool := existsb (fun r => in_range r c) space_ranges.

(** [\d] *)
Definition is_digit (c : N) : bool :=
  existsb (fun z => in_range (z, z + 9) c) digit_zeros.

Fixpoint lower_in (table : list (N * N * N * N)) (c : N) : N :=
  match table with
  | [] => c
  | (first, last, step, target) :: table' =>
      if (first <=? c) && (c <=? last) && ((c - first) mod step =? 0)
      then target + (c - first)
      else lower_in table' c
  end.

(** [_sre.unicode_tolower] *)
Definition tolower (c : N) : N := lower_in lower_table c.

(** [_sre.unicode_iscased] *)
Definition iscased (c : N) : bool := existsb (fun r => in_range r c) cased_ranges.

(** [_EXTRA_CASES.get(lo, ())] *)
Definition extra_cases (lo : N) : list N :=
  match find (fun e => fst e =? lo) extra_cases_table with
  | Some e => snd e
  | None => []
  end.

(** [hay.startswith(needle)] *)
Fixpoint starts_with (needle hay : text) : bool :=
  match needle, hay with
  | [], _ => true
  | c :: needle', d :: hay' => (c =? d) && starts_with needle' hay'
  | _ :: _, [] => false
  end.

(** [needle in hay] *)
Fixpoint contains (needle hay : text) : bool :=
  starts_with needle hay ||
  match hay with
  | [] => false
  | _ :: hay' => contains needle hay'
  end.

End Unicode.

Module UnicodeRe.
Import Unicode.
Local Open Scope list_scope.
Local Open Scope N_scope.

Inductive item : Type :=
| Lit (c : N)                                        (* a literal, compared ignoring case *)
| Rep (cls : N -> bool) (lo : nat) (hi : option nat) (* greedy [cls{lo,hi}] *)
| GroupOpen
| GroupClose.

Definition pattern := list item.

(** The match object: only group 1 is ever inspected. *)
Record re_match : Type := MkMatch { group1 : option text }.

(** [match.lastindex] *)
Definition lastindex (m : re_match) : option nat :=
  match group1 m with Some _ => Some 1%nat | None => None end.

(** [match.group(1)] *)
Definition group (m : re_match) : text :=
  match group1 m with Some g => g | None => [] end.

Section Greedy.
Context {R : Type} (cls : N -> bool) (k : text -> option R).

(** Greedy repetition: take one more character when allowed and try the
    rest; on failure give the character back. *)
Fixpoint rep_greedy (lo : nat) (hi : option nat) (s : text) : option R :=
  let stop := match lo with O => k s | S _ => None end in
  match s with
  | c :: s' =>
      if cls c && Re.hi_allows hi then
        match rep_greedy (Nat.pred lo) (Re.hi_pred hi) s' with
        | Some r => Some r
        | None => stop
        end
      else stop
  | [] => stop
  end.
End Greedy.

(** A pattern literal [c] against the input character [d] under
    [re.IGNORECASE]: a literal that has no case is compared as it is; a
    cased one is compiled to its lower-case form together with the
    characters listed as its equivalents, and the input character is
    lowered before it is compared. *)
Definition lit_match (c d : N) : bool :=
  if iscased c then
    let lo := tolower c in
    existsb (N.eqb (tolower d)) (lo :: extra_cases lo)
  else c =? d.

(** Match [pat] at the start of [s].  [opened] is the input as it was at
    the group's opening parenthesis, [g] the text captured so far. *)
Fixpoint match_here (pat : pattern) (s opened : text) (g : option text)
  : option re_match :=
  match pat with
  | [] => Some (MkMatch g)
  | Lit c :: pat' =>
      match s with
      | d :: s' => if lit_match c d then match_here pat' s' opened g else None
      | [] => None
      end
  | Rep cls lo hi :: pat' =>
      rep_greedy cls (fun s' => match_here pat' s' opened g) lo hi s
  | GroupOpen :: pat' => match_here pat' s s g
  | GroupClose :: pat' =>
      match_here pat' s opened (Some (firstn (length opened - length s) opened))
  end.

Definition match_at (pat : pattern) (s : text) : option re_match :=
  match_here pat s s None.

(** [re.search(pat, s, re.IGNORECASE)]: the leftmost start position wins. *)
Fixpoint search (pat : pattern) (s : text) : option re_match :=
  match match_at pat s with
  | Some m => Some m
  | None =>
      match s with
      | [] => None
      | _ :: s' => search pat s'
      end
  end.

(** Pattern syntax. *)
Definition lits (s : string) : pattern := map Lit (u s).

Definition is_char (c : N) : N -> bool := fun d => c =? d.
Definition opt (c : ascii) : item := Rep (is_char (cp c)) 0 (Some 1%nat).   (* c? *)
Definition star (cls : N -> bool) : item := Rep cls 0 None.                (* cls* *)
Definition plus (cls : N -> bool) : item := Rep cls 1 None.                (* cls+ *)
Definition exactly (n : nat) (cls : N -> bool) : item := Rep cls n (Some n).

(** [[^,\.]]: neither character has a case, the class is taken as it is. *)
Definition not_comma_dot (c : N) : bool :=
  negb (c =? cp ",") && negb (c =? cp ".").

(** [[^p]] under [re.IGNORECASE]: the set holds the lower-case form of the
    cased literal and the input character is lowered before the test. *)
Definition not_p (c : N) : bool :=
  negb (existsb (N.eqb (tolower c)) (tolower (cp "p") :: extra_cases (tolower (cp "p")))).

(** The shared tail [([^,\.]+)]. *)
Definition value_group : pattern := [GroupOpen; plus not_comma_dot; GroupClose].

End UnicodeRe.

Module UnicodeAddress.
Import Unicode UnicodeRe.
Local Open Scope list_scope.

(** [r"Ward Colony\s*-\s*([^,\.]+)"] *)
Definition ward_colony_re : pattern :=
  lits "Ward Colony" ++ [star is_space; Lit (cp "-"); star is_space] ++ value_group.
(** [r"Distirct:?\s*([^,\.]+)"] *)
Definition district_re : pattern :=
  lits "Distirct" ++ [opt ":"; star is_space] ++ value_group.
(** [r"Village:?\s*([^,\.]+)"] *)
Definition village_re : pattern :=
  lits "Village" ++ [opt ":"; star is_space] ++ value_group.
(** [r"Sub-Area\s*:?\s*([^,\.]+)"] *)
Definition sub_area_re : pattern :=
  lits "Sub-Area" ++ [star is_space; opt ":"; star is_space] ++ value_group.
(** [r"Tehsil:?\s*([^,\.]+)"] *)
Definition tehsil_re : pattern :=
  lits "Tehsil" ++ [opt ":"; star is_space] ++ value_group.
(** [r"pin-?(\d{6})"] *)
Definition pin_re : pattern :=
  lits "pin" ++ [opt "-"; GroupOpen; exactly 6 is_digit; GroupClose].
(** [r"(\d+\s*m\s+from\s+[^p]+)"] *)
Definition landmark_re : pattern :=
  [GroupOpen; plus is_digit; star is_space; Lit (cp "m"); plus is_space]
    ++ lits "from" ++ [plus is_space; plus not_p; GroupClose].

(** The [patterns] dictionary, in source order; its keys are literals of
    the source. *)
Definition patterns : list (string * pattern) :=
  [ ("Ward/Colony", ward_colony_re);
    ("District", district_re);
    ("Village", village_re);
    ("Sub-Area/Road", sub_area_re);
    ("Tehsil/Locality", tehsil_re);
    ("PIN Code", pin_re);
    ("Landmark", landmark_re) ].

(** The value one pattern contributes (lines 93-97). *)
Definition field_value (pat : pattern) (addr : text) : text :=
  match search pat addr with
  | Some m =>
      match lastindex m with
      | Some n => if Nat.leb 1 n then group m else []
      | None => []
      end
  | None => []
  end.

Definition parse_address (addr : text) : Dict.dict text :=
  let parsed :=
    fold_left (fun parsed kp => Dict.set (fst kp) (field_value (snd kp) addr) parsed)
              patterns [] in
  let parsed :=
    Dict.set "State"
      (if contains (u "Madhya Pradesh") addr then u "Madhya Pradesh" else []) parsed in
  let parsed :=
    Dict.set "Country" (if contains (u "India") addr then u "India" else []) parsed in
  parsed.

End UnicodeAddress.

(* ===================================================================== *)
(** * Effects: exceptions, the database, the cache and the clock *)
(* ===================================================================== *)

Module Eff.
Import Text.

(** Python exceptions that reach the code under study. *)
Inductive exn : Type :=
| WebDriverException (msg : string)   (* selenium: timeouts, missing or stale elements *)
| RuntimeError (msg : string)
| ValueError (msg : string)
| IndexError (msg : string)
| DatabaseError (msg : string)
| UnboundLocalError (msg : string)
| OverflowError (msg : string).

(** [str(e)] *)
Definition exn_str (e : exn) : string :=
  match e with
  | WebDriverException m | RuntimeError m | ValueError m
  | IndexError m | DatabaseError m | UnboundLocalError m | OverflowError m => m
  end.

(** How a computation ends.  [OutOfFuel] stands for a loop that was cut
    off by the model's iteration bound: the Python code is still running. *)
Inductive outcome (A : Type) : Type :=
| Ok (a : A)
| Raise (e : exn)
| OutOfFuel.
Arguments Ok {A} a.
Arguments Raise {A} e.
Arguments OutOfFuel {A}.

(** What an external collaborator (browser, database) answers to one
    interaction: a value, or an exception. *)
Inductive reply (T : Type) : Type :=
| Got (t : T)
| Throws (e : exn).
Arguments Got {T} t.
Arguments Throws {T} e.

(** A PIL image, reduced to its pixel dimensions. *)
Record image : Type := MkImage { width : Z; height : Z }.

(** [ScrapingStatus] rows. *)
Record status_row : Type := MkStatus {
  st_run : nat;
  st_message : string;
  st_image : option image
}.

(** [ScrapedRecord] rows. *)
Record scraped_record : Type := MkRecord {
  registration_details : Dict.dict string;
  seller_details : Dict.dict string;
  buyer_details : Dict.dict string;
  property_details : Dict.dict string;
  khasra_details : Dict.dict string
}.

(** Ghost journal of the results phase: which pages were loaded and which
    row bodies were entered. *)
Inductive event : Type :=
| PageVisited (page : nat)
| RowAttempted (page row : nat).

Record state : Type := MkState {
  runs : list nat;                       (* ScrapingRun ids, newest first *)
  statuses : list status_row;            (* ScrapingStatus rows, oldest first *)
  records : list scraped_record;         (* ScrapedRecord rows, oldest first *)
  cache : gmap string (string * Z);      (* django cache: key -> (value, expiry) *)
  now : Z;                               (* the clock, in seconds; it advances with
                                            the relay's sleeps, the time browser calls
                                            and settle delays take is not modelled *)
  naps : nat;                            (* completed [time.sleep] calls of the relay *)
  quits : nat;                           (* [driver.quit()] calls *)
  journal : list event
}.

Definition M (A : Type) : Type := state -> outcome A * state.

Definition ret {A} (a : A) : M A := fun s => (Ok a, s).
Definition raise {A} (e : exn) : M A := fun s => (Raise e, s).
Definition out_of_fuel {A} : M A := fun s => (OutOfFuel, s).

Definition bind {A B} (m : M A) (f : A -> M B) : M B :=
  fun s =>
    match m s with
    | (Ok a, s') => f a s'
    | (Raise e, s') => (Raise e, s')
    | (OutOfFuel, s') => (OutOfFuel, s')
    end.

(** [try: m except Exception as e: h e] *)
Definition try_except {A} (m : M A) (h : exn -> M A) : M A :=
  fun s =>
    match m s with
    | (Raise e, s') => h e s'
    | r => r
    end.

(** [try: m finally: f]; an exception of [f] replaces the result of [m]. *)
Definition try_finally {A} (m : M A) (f : M unit) : M A :=
  fun s =>
    match m s with
    | (OutOfFuel, s') => (OutOfFuel, s')
    | (r, s') =>
        match f s' with
        | (Ok _, s'') => (r, s'')
        | (Raise e, s'') => (Raise e, s'')
        | (OutOfFuel, s'') => (OutOfFuel, s'')
        end
    end.

(** One interaction with a collaborator. *)
Definition ask {T} (r : reply T) : M T :=
  match r with
  | Got t => ret t
  | Throws e => raise e
  end.

Definition get_state : M state := fun s => (Ok s, s).
Definition modify (f : state -> state) : M unit := fun s => (Ok tt, f s).

Declare Scope eff_scope.
Delimit Scope eff_scope with eff.
Notation "'let!' x ':=' m 'in' k" := (bind m (fun x => k))
  (at level 10, x name, m at level 100, k at level 200) : eff_scope.
Notation "m '>>>' k" := (bind m (fun _ => k))
  (at level 90, right associativity) : eff_scope.
Local Open Scope eff_scope.

(** Loop control of a [for] body. *)
Inductive flow (R : Type) : Type :=
| Next                (* fall through or [continue] *)
| Break
| Return (r : R).
Arguments Next {R}.
Arguments Break {R}.
Arguments Return {R} r.

(** [for x in xs: body], with the local variables the body assigns
    threaded as [l].  The result tells whether the function returned from
    inside the loop. *)
Fixpoint for_each {X L R} (body : X -> L -> M (L * flow R)) (xs : list X) (l : L)
  : M (L * option R) :=
  match xs with
  | [] => ret (l, None)
  | x :: xs' =>
      let! lf := body x l in
      match snd lf with
      | Next => for_each body xs' (fst lf)
      | Break => ret (fst lf, None)
      | Return r => ret (fst lf, Some r)
      end
  end.

(** [range(n)] *)
Definition range (n : nat) : list nat := seq 0 n.

(** ** State updates *)

Definition set_runs (v : list nat) (s : state) : state :=
  MkState v (statuses s) (records s) (cache s) (now s) (naps s) (quits s) (journal s).
Definition set_statuses (v : list status_row) (s : state) : state :=
  MkState (runs s) v (records s) (cache s) (now s) (naps s) (quits s) (journal s).
Definition set_records (v : list scraped_record) (s : state) : state :=
  MkState (runs s) (statuses s) v (cache s) (now s) (naps s) (quits s) (journal s).
Definition set_cache (v : gmap string (string * Z)) (s : state) : state :=
  MkState (runs s) (statuses s) (records s) v (now s) (naps s) (quits s) (journal s).
Definition set_clock (t : Z) (n : nat) (s : state) : state :=
  MkState (runs s) (statuses s) (records s) (cache s) t n (quits s) (journal s).
Definition set_quits (v : nat) (s : state) : state :=
  MkState (runs s) (statuses s) (records s) (cache s) (now s) (naps s) v (journal s).
Definition set_journal (v : list event) (s : state) : state :=
  MkState (runs s) (statuses s) (records s) (cache s) (now s) (naps s) (quits s) v.

(** [driver.quit()] *)
Definition driver_quit : M unit := modify (fun s => set_quits (S (quits s)) s).

Definition note (e : event) : M unit :=
  modify (fun s => set_journal (journal s ++ [e]) s).

(** [ScrapingRun.objects.create()] *)
Definition create_run : M nat :=
  fun s => let id := S (List.length (runs s)) in (Ok id, set_runs (id :: runs s) s).

(** [ScrapingRun.objects.order_by("-started_at").first()] *)
Definition latest_run : M (option nat) := fun s => (Ok (head (runs s)), s).

(** [_create_status(run, message, pil_image)] *)
Definition _create_status (run : nat) (message : string) (pil_image : option image)
  : M unit :=
  modify (fun s => set_statuses (statuses s ++ [MkStatus run message pil_image]) s).

(** ** The django cache *)

(** [cache.get(key)]: an expired entry reads as absent. *)
Definition cache_get (key : string) : M (option string) :=
  fun s =>
    match cache s !! key with
    | Some (v, expires) => if (now s <? expires)%Z then (Ok (Some v), s) else (Ok None, s)
    | None => (Ok None, s)
    end.

(** [cache.set(key, value, timeout=ttl)] *)
Definition cache_set (key value : string) (ttl : Z) : M unit :=
  modify (fun s => set_cache (<[key := (value, (now s + ttl)%Z)]> (cache s)) s).

(** [cache.delete(key)] *)
Definition cache_delete (key : string) : M unit :=
  modify (fun s => set_cache (delete key (cache s)) s).

End Eff.

(* ===================================================================== *)
(** * The CAPTCHA relay: [get_status] and [_wait_for_captcha_value] *)
(* ===================================================================== *)

Module Relay.
Import Text Eff.
Local Open Scope eff_scope.

(** Configurable constants (lines 37-40); the settings module is not part
    of the sources, so the two numbers are taken with their defaults. *)
Definition DEFAULT_WAIT : Z := 30.
Definition CAPTCHA_WAIT_SECONDS : Z := 180.

(** [CAPTCHA_CACHE_KEY.format(run_id=run_id)] *)
Definition CAPTCHA_CACHE_KEY (run_id : nat) : string :=
  "captcha:run:" ++ str_of_nat run_id.

(** An HTTP request: its method and its form fields. *)
Record request : Type := MkRequest {
  method : string;
  POST : Dict.dict string
}.

(** [x or ""] *)
Definition or_empty (x : option string) : string :=
  match x with
  | Some v => v
  | None => EmptyString
  end.

(** The template context [get_status] renders. *)
Record status_page : Type := MkPage {
  pg_statuses : list status_row;
  pg_status : option status_row;
  pg_captcha_value : option string;
  pg_timestamp : Z
}.

(** [get_status(request)] *)
Definition get_status (req : request) : M status_page :=
  let! latest := latest_run in
  let! s0 := get_state in
  let shown :=
    match latest with
    | Some r => filter (fun st => Nat.eqb (st_run st) r) (statuses s0)
    | None => []
    end in
  let latest_status := last (statuses s0) in
  let! captcha_value :=
    if String.eqb (method req) "POST" then
      let captcha_value := strip (or_empty (Dict.get "captcha_value" (POST req))) in
      match truthy captcha_value, latest with
      | true, Some r =>
          cache_set (CAPTCHA_CACHE_KEY r) captcha_value 300 >>>
          ret (Some captcha_value)
      | _, _ => ret (Some captcha_value)      (* only logging *)
      end
    else ret None in
  let! s1 := get_state in
  ret (MkPage shown latest_status captcha_value (now s1)).

Section Await.
(** The intake side runs as a separate actor.  Its requests are handled
    while the orchestration thread sleeps: [intake n] lists the requests
    served during the [n]-th sleep. *)
Variable intake : nat -> list request.

Fixpoint serve (reqs : list request) : M unit :=
  match reqs with
  | [] => ret tt
  | r :: reqs' => get_status r >>> serve reqs'
  end.

(** [time.sleep(d)] *)
Definition sleep (d : Z) : M unit :=
  let! s := get_state in
  modify (set_clock (now s + d)%Z (S (naps s))) >>>
  serve (intake (naps s)).

(** The [while waited < timeout] loop of [_wait_for_captcha_value];
    [fuel] bounds the number of iterations. *)
Fixpoint poll (fuel : nat) (key : string) (timeout poll_interval waited : Z)
  : M (option string) :=
  if (waited <? timeout)%Z then
    match fuel with
    | O => out_of_fuel
    | S fuel' =>
        let! value := cache_get key in
        match value with
        | Some v =>
            if truthy v then
              (* Clear it so subsequent steps don't reuse stale values *)
              cache_delete key >>> ret (Some v)
            else
              sleep poll_interval >>>
              poll fuel' key timeout poll_interval (waited + poll_interval)%Z
        | None =>
            sleep poll_interval >>>
            poll fuel' key timeout poll_interval (waited + poll_interval)%Z
        end
    end
  else ret None.

(** [_wait_for_captcha_value(run_id, timeout, poll_interval)] *)
Definition _wait_for_captcha_value (fuel : nat) (run_id : nat)
    (timeout poll_interval : Z) : M (option string) :=
  let key := CAPTCHA_CACHE_KEY run_id in
  poll fuel key timeout poll_interval 0.

End Await.

End Relay.

(* ===================================================================== *)
(** * [save_to_db] *)
(* ===================================================================== *)

Module Store.
Import Eff.
Local Open Scope eff_scope.

(** One extracted section: its labels and its values. *)
Definition section : Type := (list string * list string)%type.

(** [all_sections[i]] *)
Definition section_at (all_sections : list section) (i : nat) : M section :=
  match nth_error all_sections i with
  | Some sec => ret sec
  | None => raise (IndexError "list index out of range")
  end.

(** [dict(zip(sec[0], sec[1]))] *)
Definition section_dict (sec : section) : Dict.dict string :=
  Dict.of_pairs (Dict.zip (fst sec) (snd sec)).

(** [save_to_db(all_sections)].  [db] is the database's answer to the
    insert; inside [transaction.atomic()] a failure stores nothing. *)
Definition save_to_db (db : reply unit) (all_sections : list section) : M unit :=
  try_except
    (let! s0 := section_at all_sections 0 in
     let! s1 := section_at all_sections 1 in
     let! s2 := section_at all_sections 2 in
     let! s3 := section_at all_sections 3 in
     let! s4 := section_at all_sections 4 in
     ask db >>>
     modify (fun s =>
       set_records
         (records s ++
            [MkRecord (section_dict s0) (section_dict s1) (section_dict s2)
                      (section_dict s3) (section_dict s4)]) s))
    (fun e => raise e).   (* logger.exception(...); raise *)

End Store.

(* ===================================================================== *)
(** * Python numbers *)
(* ===================================================================== *)

Module Pynum.
Import Eff.

(** The numbers the WebDriver's JSON decoder hands to Python: an [int]
    of arbitrary size or a [float], an IEEE 754 binary64 value. *)
Inductive number : Type :=
| PyInt (z : Z)
| PyFloat (f : spec_float).

Definition prec : Z := 53.
Definition emax : Z := 1024.

(** A step that may raise, followed by another. *)
Definition and_then {A B} (o : outcome A) (k : A -> outcome B) : outcome B :=
  match o with
  | Ok a => k a
  | Raise e => Raise e
  | OutOfFuel => OutOfFuel
  end.

(** The conversion of an [int] operand in mixed arithmetic: rounded to
    the nearest double, ties to even; an [int] beyond the doubles raises. *)
Definition float_of_int (z : Z) : outcome spec_float :=
  match binary_normalize prec emax z 0 false with
  | S754_infinity _ => Raise (OverflowError "int too large to convert to float")
  | f => Ok f
  end.

Definition as_float (n : number) : outcome spec_float :=
  match n with
  | PyInt z => float_of_int z
  | PyFloat f => Ok f
  end.

(** A binary operator: exact on two [int]s, on doubles otherwise. *)
Definition arith (on_int : Z -> Z -> Z) (on_float : spec_float -> spec_float -> spec_float)
    (a b : number) : outcome number :=
  match a, b with
  | PyInt x, PyInt y => Ok (PyInt (on_int x y))
  | _, _ =>
      and_then (as_float a) (fun x =>
      and_then (as_float b) (fun y =>
      Ok (PyFloat (on_float x y))))
  end.

(** [a + b], [a * b] *)
Definition add : number -> number -> outcome number := arith Z.add (SFadd prec emax).
Definition mul : number -> number -> outcome number := arith Z.mul (SFmul prec emax).

(** [int(f)] on a [float]: truncation towards zero. *)
Definition trunc (f : spec_float) : outcome Z :=
  match f with
  | S754_zero _ => Ok 0%Z
  | S754_infinity _ => Raise (OverflowError "cannot convert float infinity to integer")
  | S754_nan => Raise (ValueError "cannot convert float NaN to integer")
  | S754_finite s m e =>
      let magnitude :=
        match e with
        | Z0 => Z.pos m
        | Z.pos p => (Z.pos m * 2 ^ Z.pos p)%Z
        | Z.neg p => (Z.pos m / 2 ^ Z.pos p)%Z
        end in
      Ok (if s then (- magnitude)%Z else magnitude)
  end.

(** [int(n)] *)
Definition int_of (n : number) : outcome Z :=
  match n with
  | PyInt z => Ok z
  | PyFloat f => trunc f
  end.

(** Truthiness of a number: zero of either kind is falsy, NaN is not. *)
Definition nonzero (n : number) : bool :=
  match n with
  | PyInt z => negb (Z.eqb z 0)
  | PyFloat (S754_zero _) => false
  | PyFloat _ => true
  end.

End Pynum.

(* ===================================================================== *)
(** * [_screenshot_element] *)
(* ===================================================================== *)

Module Capture.
Import Eff Pynum.

(** What the browser reports during one capture: the device pixel ratio
    ([None] for a null script result), the size of the full-page
    screenshot, and the element's position and size. *)
Record capture_obs : Type := MkCapture {
  co_dpr : option number;
  co_png : Z * Z;                  (* image.size *)
  co_location : number * number;   (* location["x"], location["y"] *)
  co_size : number * number        (* size["width"], size["height"] *)
}.

(** [driver.execute_script(...) or 1] *)
Definition dpr_or_1 (d : option number) : number :=
  match d with
  | Some n => if nonzero n then n else PyInt 1
  | None => PyInt 1
  end.

(** [Image.crop(box)]: Pillow refuses a box whose right edge is left of
    its left edge (or bottom above top) and otherwise returns an image of
    the box's size, which may be empty. *)
Definition crop (box : Z * Z * Z * Z) : outcome image :=
  let '(x0, y0, x1, y1) := box in
  if (x1 <? x0)%Z then Raise (ValueError "Coordinate 'right' is less than 'left'")
  else if (y1 <? y0)%Z then Raise (ValueError "Coordinate 'lower' is less than 'upper'")
  else Ok (MkImage (x1 - x0) (y1 - y0)).

(** The crop rectangle of lines 146-149, edge by edge in source order. *)
Definition crop_box (o : capture_obs) : outcome (Z * Z * Z * Z) :=
  let dpr := dpr_or_1 (co_dpr o) in
  let '(img_width, img_height) := co_png o in
  let '(x, y) := co_location o in
  let '(w, h) := co_size o in
  and_then (and_then (mul x dpr) int_of) (fun l =>
  let left_ := Z.max 0 l in
  and_then (and_then (mul y dpr) int_of) (fun t =>
  let top_ := Z.max 0 t in
  and_then (and_then (and_then (add x w) (fun xw => mul xw dpr)) int_of) (fun r =>
  let right_ := Z.min img_width r in
  and_then (and_then (and_then (add y h) (fun yh => mul yh dpr)) int_of) (fun b =>
  let bottom_ := Z.min img_height b in
  Ok (left_, top_, right_, bottom_))))).

(** [_screenshot_element(driver, element)] *)
Definition _screenshot_element (o : capture_obs) : outcome image :=
  and_then (crop_box o) crop.

End Capture.

(* ===================================================================== *)
(** * [trigger_scrape] *)
(* ===================================================================== *)

Module Scrape.
Import Text Eff Relay Store Capture Address.
Local Open Scope eff_scope.

Inductive http_response : Type :=
| Render (template : string)
| JsonResponse (message : string) (status : nat).

Definition response_status (r : http_response) : nat :=
  match r with
  | Render _ => 200
  | JsonResponse _ st => st
  end.

(** ** What the browser and the database answer

    The run is a deterministic function of the answers it receives.  They
    are grouped by the place in [trigger_scrape] that asks for them; a
    group of consecutive driver calls with no effect of the run's own in
    between is one answer, [Throws] when any call of the group raises.
    What the run types into the page (credentials, dates, district, deed
    type, the CAPTCHA answer) is not observable here: the answers do not
    depend on it. *)

(** Login attempt (lines 233-279). *)
Record login_obs : Type := MkLogin {
  lo_form : reply unit;              (* 233-249 refresh, fill the form, find the CAPTCHA image *)
  lo_capture : reply capture_obs;    (* 252 the driver calls of [_screenshot_element] *)
  lo_captcha_inputs : reply nat;     (* 260 len(captcha_inputs) *)
  lo_fill_captcha : reply unit;      (* 264-266 *)
  lo_login_buttons : reply nat;      (* 269-270 len(login_button), current_url *)
  lo_click_login : reply unit;       (* 272 *)
  lo_url_wait : reply unit;          (* 276 *)
  lo_url_changed : reply bool        (* 278-279 after_url != before_url *)
}.

(** Filter attempt (lines 311-386). *)
Record filter_obs : Type := MkFilter {
  fo_refresh : reply unit;           (* 311-314 *)
  fo_other_details : reply nat;      (* 316 len(other_details) *)
  fo_click_other : reply unit;       (* 318 *)
  fo_form_wait : reply unit;         (* 324 *)
  fo_fill : reply unit;              (* 330-352 dates, district, deed type *)
  fo_captcha_imgs : reply nat;       (* 355 len(captcha_imgs) *)
  fo_capture : reply capture_obs;    (* 360 the driver calls of [_screenshot_element] *)
  fo_captcha_inputs : reply nat;     (* 368 len(captcha_inputs) *)
  fo_fill_captcha : reply unit;      (* 372-374 *)
  fo_search_buttons : reply nat;     (* 377 len(search_button) *)
  fo_click_search : reply unit;      (* 379 *)
  fo_results_wait : reply unit       (* 384 *)
}.

(** The texts of the five detail tables, before [strip]:
    (th texts, td texts) for each. *)
Record raw_sections : Type := MkRaw {
  raw_registration : section;
  raw_seller : section;
  raw_buyer : section;
  raw_property : section;
  raw_khasra : section
}.

(** One result row (lines 412-519). *)
Record row_obs : Type := MkRow {
  ro_refresh : reply nat;            (* 412 len(data_elements_refresh) *)
  ro_open : reply unit;              (* 419-422 open the detail view *)
  ro_sections : reply raw_sections;  (* 427-474 *)
  ro_save : reply unit;              (* the database's answer inside [save_to_db] *)
  ro_close : reply unit;             (* 502-507 *)
  ro_recover : reply unit            (* 515-517 *)
}.

(** The pagination control (lines 524-531). *)
Record next_obs : Type := MkNext {
  nx_find : reply unit;                  (* 524 *)
  nx_classes : reply (option string);    (* 525 get_attribute("class") *)
  nx_click : reply unit;                 (* 528 *)
  nx_wait : reply unit                   (* 529 *)
}.

(** One results page. *)
Record page_obs : Type := MkPageObs {
  po_rows : reply nat;               (* 406 len(data_elements) *)
  po_row : nat -> row_obs;
  po_next : next_obs
}.

Record env : Type := MkEnv {
  (** [datetime.strptime(d, "%Y-%m-%d").strftime("%d-%m-%Y")] *)
  format_date : option string -> reply string;
  timestamp_2 : string;                  (* line 42 *)
  intake : nat -> list request;          (* the operator's submissions *)
  driver_start : reply unit;             (* 214 *)
  open_site : reply unit;                (* 215 *)
  english_links : reply nat;             (* 219 len(english_links) *)
  english_click : reply unit;            (* 223 *)
  login : nat -> login_obs;              (* by attempt *)
  nav_wait : reply unit;                 (* 294 *)
  nav_links : reply nat;                 (* 295 len(search_certified) *)
  nav_click : reply unit;                (* 297 *)
  nav_ready : reply unit;                (* 303 *)
  filters : nat -> filter_obs;           (* by attempt *)
  results_ready : reply unit;            (* 401 *)
  pages : nat -> page_obs                (* by number of "next" clicks *)
}.

Definition lift {A} (o : outcome A) : M A := fun s => (o, s).

(** [if not captcha_value] on a [str | None]. *)
Definition falsy (v : option string) : bool :=
  match v with
  | Some t => negb (truthy t)
  | None => true
  end.

Section Run.
Variable e : env.
Variable new_run : nat.

Definition await_captcha : M (option string) :=
  _wait_for_captcha_value (intake e) (Z.to_nat CAPTCHA_WAIT_SECONDS)
                          new_run CAPTCHA_WAIT_SECONDS 1.

(** Body of the login loop (lines 232-285). *)
Definition login_attempt (attempt : nat) (login_success : bool)
  : M (bool * flow http_response) :=
  let o := login e attempt in
  try_except
    (ask (lo_form o) >>>
     let! cap := ask (lo_capture o) in
     let! captcha_img_1 := lift (_screenshot_element cap) in
     _create_status new_run "Please solve CAPTCHA #1 in the UI" (Some captcha_img_1) >>>
     let! captcha_value := await_captcha in
     if falsy captcha_value then
       _create_status new_run "CAPTCHA #1 timed out waiting for input. Retrying..." None >>>
       ret (login_success, Next)
     else
       let! captcha_inputs := ask (lo_captcha_inputs o) in
       if Nat.ltb captcha_inputs 3 then
         raise (RuntimeError "CAPTCHA input box not found for login form.")
       else
         ask (lo_fill_captcha o) >>>
         let! login_button := ask (lo_login_buttons o) in
         (if Nat.leb 2 login_button then ask (lo_click_login o)
          else raise (RuntimeError "Login button not found.")) >>>
         ask (lo_url_wait o) >>>
         let! changed := ask (lo_url_changed o) in
         if changed then
           _create_status new_run "Captcha #1 solved successfully; logged in." None >>>
           ret (true, Break)
         else ret (login_success, Next))
    (fun _ => ret (login_success, Next)).

(** Body of the filter loop (lines 310-392). *)
Definition filter_attempt (retry : nat) (captcha2_success : bool)
  : M (bool * flow http_response) :=
  let o := filters e retry in
  try_except
    (ask (fo_refresh o) >>>
     let! other_details := ask (fo_other_details o) in
     if Nat.ltb 2 other_details then
       ask (fo_click_other o) >>>
       ask (fo_form_wait o) >>>
       _create_status new_run "Filling District, Date, and Deed Type" None >>>
       ask (fo_fill o) >>>
       let! captcha_imgs := ask (fo_captcha_imgs o) in
       if Nat.ltb captcha_imgs 2 then raise (RuntimeError "CAPTCHA #2 image not found.")
       else
         let! cap := ask (fo_capture o) in
         let! captcha_img_2 := lift (_screenshot_element cap) in
         _create_status new_run "Please solve CAPTCHA #2 in the UI" (Some captcha_img_2) >>>
         let! captcha_value_2 := await_captcha in
         if falsy captcha_value_2 then
           _create_status new_run "CAPTCHA #2 timed out waiting for input. Retrying..." None >>>
           ret (captcha2_success, Next)
         else
           let! captcha_inputs := ask (fo_captcha_inputs o) in
           if Nat.ltb captcha_inputs 2 then raise (RuntimeError "CAPTCHA #2 input not found.")
           else
             ask (fo_fill_captcha o) >>>
             let! search_button := ask (fo_search_buttons o) in
             (if Nat.leb 5 search_button then ask (fo_click_search o)
              else raise (RuntimeError "Search button not found.")) >>>
             ask (fo_results_wait o) >>>
             _create_status new_run "CAPTCHA #2 solved successfully." None >>>
             ret (true, Break)
     else
       driver_quit >>>
       ret (captcha2_success,
            Return (JsonResponse "Scraping failed: Other details elements not found." 500)))
    (fun _ => ret (captcha2_success, Next)).

(** [[t.text.strip() for t in ...]] on both halves of a table. *)
Definition stripped (sec : section) : section :=
  (map strip (fst sec), map strip (snd sec)).

(** Lines 477-487: an address field is replaced by its parsed parts. *)
Definition expand_address (headings_4 data_texts_4 : list string) : section :=
  let final_data_texts_4 :=
    flat_map (fun hv =>
                if contains "address" (lower (fst hv))
                then Dict.items (parse_address (snd hv))
                else [hv])
             (Dict.zip headings_4 data_texts_4) in
  (map fst final_data_texts_4, map snd final_data_texts_4).

(** Lines 427-495. *)
Definition all_sections_of (raw : raw_sections) : list section :=
  let s4 := stripped (raw_property raw) in
  [ stripped (raw_registration raw);
    stripped (raw_seller raw);
    stripped (raw_buyer raw);
    expand_address (fst s4) (snd s4);
    stripped (raw_khasra raw) ].

(** Body of the row loop (lines 411-520). *)
Definition process_row (page : nat) (i : nat) (_ : unit)
  : M (unit * flow http_response) :=
  let o := po_row (pages e page) i in
  note (RowAttempted page i) >>>
  try_except
    (let! refreshed := ask (ro_refresh o) in
     if Nat.leb refreshed i then ret (tt, Break)
     else
       ask (ro_open o) >>>
       _create_status new_run ("Fetching data of record index " ++ str_of_nat i) None >>>
       let! raw := ask (ro_sections o) in
       save_to_db (ro_save o) (all_sections_of raw) >>>
       try_except (ask (ro_close o)) (fun _ => ret tt) >>>
       ret (tt, Next))
    (fun _ =>
       try_except (ask (ro_recover o)) (fun _ => ret tt) >>>
       ret (tt, Next)).

(** Lines 410-520 for one page with [k] rows. *)
Definition process_rows (page k : nat) : M unit :=
  for_each (process_row page) (range k) tt >>> ret tt.

(** Lines 523-533; [true] when the loop goes on to the next page. *)
Definition paginate (page : nat) : M bool :=
  let o := po_next (pages e page) in
  try_except
    (ask (nx_find o) >>>
     let! classes := ask (nx_classes o) in
     if contains "disabled" (or_empty classes) then ret false
     else ask (nx_click o) >>> ask (nx_wait o) >>> ret true)
    (fun _ => ret false).

(** The [while True] loop (lines 405-533), from page [page] on. *)
Fixpoint results_loop (fuel : nat) (page : nat) : M unit :=
  match fuel with
  | O => out_of_fuel
  | S fuel' =>
      let! k := ask (po_rows (pages e page)) in
      note (PageVisited page) >>>
      process_rows page k >>>
      let! more := paginate page in
      if more then results_loop fuel' (S page) else ret tt
  end.

(** Lines 405-539: walk the result pages, then report completion. *)
Definition report_results (fuel : nat) : M http_response :=
  results_loop fuel 0 >>>
  _create_status new_run
    "Scraping completed successfully! Go to /get-status/ to review and download from /download-excel/"
    None >>>
  ret (JsonResponse ("Scraping completed successfully! " ++ timestamp_2 e) 200).

(** Lines 294-539: after a successful login. *)
Definition after_login (fuel : nat) : M http_response :=
  let max_attempts := 10%nat in
  ask (nav_wait e) >>>
  let! search_certified := ask (nav_links e) in
  if Nat.ltb 2 search_certified then
    ask (nav_click e) >>>
    ask (nav_ready e) >>>
    let! fr := for_each filter_attempt (range max_attempts) false in
    match snd fr with
    | Some response => ret response
    | None =>
        if negb (fst fr) then
          _create_status new_run
            "CAPTCHA #2 solving failed after multiple attempts. Try again." None >>>
          driver_quit >>>
          ret (JsonResponse "CAPTCHA #2 solving failed after multiple attempts." 500)
        else
          ask (results_ready e) >>>
          report_results fuel
    end
  else
    driver_quit >>>
    ret (JsonResponse "Scraping failed: Initial elements not found." 500).

(** Lines 215-539: the [try] body once the driver exists. *)
Definition session (fuel : nat) : M http_response :=
  let max_attempts := 10%nat in
  ask (open_site e) >>>
  try_except
    (let! links := ask (english_links e) in
     if Nat.leb 3 links then ask (english_click e) else ret tt)
    (fun _ => ret tt) >>>
  _create_status new_run "Filling Username And Password To login" None >>>
  let! lr := for_each login_attempt (range max_attempts) false in
  if negb (fst lr) then
    _create_status new_run
      "Login CAPTCHA solving failed after multiple attempts. Try again." None >>>
    driver_quit >>>
    ret (JsonResponse "Login CAPTCHA solving failed after multiple attempts." 500)
  else after_login fuel.

(** Lines 541-544. *)
Definition on_error (ex : exn) : M http_response :=
  _create_status new_run
    "Scraping failed due to an error. Please check logs and try again." None >>>
  ret (JsonResponse ("Scraping failed: " ++ exn_str ex) 500).

(** Lines 213-547.  When [_driver_from_config()] raises, [driver] is
    never bound and the [finally] block's [if driver] raises. *)
Definition guarded_session (fuel : nat) : M http_response :=
  match driver_start e with
  | Throws ex =>
      try_finally (on_error ex)
        (raise (UnboundLocalError "local variable 'driver' referenced before assignment"))
  | Got _ =>
      try_finally (try_except (session fuel) on_error) driver_quit
  end.

End Run.

(** [trigger_scrape(request)]; [fuel] bounds the number of result pages. *)
Definition trigger_scrape (e : env) (fuel : nat) (req : request) : M http_response :=
  let! new_run := create_run in
  if negb (String.eqb (method req) "POST") then
    ret (Render "scraper_app/scrape_form.html")
  else
    let date_too := Dict.get "date_to" (POST req) in
    let date_from := Dict.get "date_from" (POST req) in
    let! dates :=
      try_except
        (let! date_from_fmt := ask (format_date e date_from) in
         let! date_to_fmt := ask (format_date e date_too) in
         ret (Some (date_from_fmt, date_to_fmt)))
        (fun _ => ret None) in
    match dates with
    | None =>
        _create_status new_run "Invalid date format. Expected YYYY-MM-DD." None >>>
        ret (JsonResponse "Invalid date format. Expected YYYY-MM-DD." 400)
    | Some _ => guarded_session e new_run fuel
    end.

End Scrape.

(* ===================================================================== *)
(** * Vocabulary of the statements *)
(* ===================================================================== *)

(** Predicates in which the properties below are phrased, and the concrete
    inputs on which they are exercised. *)

Module Props.
Import Text Re Address.

(** ** Addresses *)

(** "pin" or "pin-", in any letter case. *)
Definition pin_prefix (p : string) : Prop :=
  lower p = "pin" \/ lower p = "pin-".

Definition six_digits (d : string) : Prop :=
  String.length d = 6%nat /\ all_chars is_digit d = true.

(** [addr] holds, from offset [i] on, "pin" or "pin-" followed by the six
    digits [d]. *)
Definition pin_occurrence (addr : string) (i : nat) (d : string) : Prop :=
  exists pre p post,
    addr = pre ++ p ++ d ++ post /\ String.length pre = i /\
    pin_prefix p /\ six_digits d.

(** The value a parsed address has under a key. *)
Definition field (key addr : string) : option string :=
  Dict.get key (parse_address addr).

(** The capturing tail [(\d{6})] of the PIN pattern. *)
Definition pin_tail : pattern := [GroupOpen; exactly 6 is_digit; GroupClose].

(** ** Persisted sections *)

(** [d] pairs label [i] with value [i] for the positions below the shorter
    length and for no others: the excess of the longer list plays no part,
    nothing is padded, and when a label repeats its last value stands. *)
Definition paired_up_to_shorter (labels values : list string) (d : Dict.dict string)
  : Prop :=
  let m := Nat.min (length labels) (length values) in
  d = Dict.of_pairs (Dict.zip (firstn m labels) (firstn m values)) /\
  (length d <= m)%nat /\
  forall k v,
    Dict.get k d = Some v <->
    exists i, (i < m)%nat /\ labels !! i = Some k /\ values !! i = Some v /\
              forall j, (i < j < m)%nat -> labels !! j <> Some k.

(** ** The relay *)

Import Eff Relay.

(** The captcha text a request carries (line 60). *)
Definition submitted_text (req : request) : string :=
  strip (or_empty (Dict.get "captcha_value" (POST req))).

(** A request that supplies a captcha answer. *)
Definition submits (req : request) : bool :=
  String.eqb (method req) "POST" && truthy (submitted_text req).

(** No answer is supplied from the state [s] on. *)
Definition no_submission (intake : nat -> list request) (s : state) : Prop :=
  forall n, (naps s <= n)%nat -> forallb (fun r => negb (submits r)) (intake n) = true.

(** The slot of [run_id] reads as present with value [v]. *)
Definition slot_holds (run_id : nat) (v : string) (s : state) : Prop :=
  exists expires,
    cache s !! CAPTCHA_CACHE_KEY run_id = Some (v, expires) /\ (now s < expires)%Z.

Definition slot_empty (run_id : nat) (s : state) : Prop :=
  cache s !! CAPTCHA_CACHE_KEY run_id = None.

(** Neither end of [v] is white space. *)
Definition trimmed (v : string) : Prop :=
  (forall c, first_char v = Some c -> is_space c = false) /\
  (forall c, last_char v = Some c -> is_space c = false).

(** The state after [n] sleeps of length [d] during which nothing was
    stored. *)
Definition slept (n : nat) (d : Z) (s : state) : state :=
  set_clock (now s + Z.of_nat n * d)%Z (naps s + n)%nat s.

(** What [cache.get] reads is falsy now and stays so while time passes. *)
Definition idle (key : string) (s : state) : Prop :=
  match cache s !! key with
  | Some (v, expires) => v = "" \/ (expires <= now s)%Z
  | None => True
  end.

(** A run whose slot holds the answer ["X7K2"], valid until time 300. *)
Definition answered_state : state :=
  MkState [1%nat] [] [] {[ CAPTCHA_CACHE_KEY 1 := ("X7K2", 300%Z) ]} 0 0 0 [].

(** A run whose slot holds an empty value. *)
Definition blank_state : state :=
  MkState [1%nat] [] [] {[ CAPTCHA_CACHE_KEY 1 := ("", 300%Z) ]} 0 0 0 [].

(** An operator who never answers. *)
Definition silent : nat -> list request := fun _ => [].

(** ** The results phase *)

Import Store Capture Scrape.

(** Every step of the row succeeds: the row is still there after the
    refresh, its detail view opens, its tables are read and the record is
    stored. *)
Definition row_succeeds (i : nat) (o : row_obs) : Prop :=
  (exists n, ro_refresh o = Got n /\ (i < n)%nat) /\
  ro_open o = Got tt /\
  (exists raw, ro_sections o = Got raw) /\
  ro_save o = Got tt.

(** Processing the row raises: at the refresh (stale page), on opening the
    detail view, during extraction, or in [save_to_db]. *)
Definition row_throws (i : nat) (o : row_obs) : Prop :=
  (exists ex, ro_refresh o = Throws ex) \/
  (exists n, ro_refresh o = Got n /\ (i < n)%nat /\
     ((exists ex, ro_open o = Throws ex) \/
      (ro_open o = Got tt /\
         ((exists ex, ro_sections o = Throws ex) \/
          (exists raw ex, ro_sections o = Got raw /\ ro_save o = Throws ex))))).

(** The row list of the page loads (line 406). *)
Definition page_loads (p : page_obs) : Prop := exists k, po_rows p = Got k.

(** The "next" control is there, is not disabled, and clicking it brings up
    the next page. *)
Definition next_enabled (o : next_obs) : Prop :=
  nx_find o = Got tt /\
  (exists c, nx_classes o = Got c /\ contains "disabled" (or_empty c) = false) /\
  nx_click o = Got tt /\ nx_wait o = Got tt.

(** The "next" control carries the disabled indicator. *)
Definition next_disabled (o : next_obs) : Prop :=
  nx_find o = Got tt /\
  exists c, nx_classes o = Got c /\ contains "disabled" (or_empty c) = true.

(** The "next" control is absent, or one of the pagination steps raises. *)
Definition next_fails (o : next_obs) : Prop :=
  (exists ex, nx_find o = Throws ex) \/
  (nx_find o = Got tt /\
     ((exists ex, nx_classes o = Throws ex) \/
      (exists c, nx_classes o = Got c /\ contains "disabled" (or_empty c) = false /\
         ((exists ex, nx_click o = Throws ex) \/
          (nx_click o = Got tt /\ exists ex, nx_wait o = Throws ex))))).

(** The pages the journal records as visited, in order. *)
Definition visited_pages (j : list event) : list nat :=
  flat_map (fun ev => match ev with PageVisited p => [p] | RowAttempted _ _ => [] end) j.

(** ** A sample site

    Two result pages of three rows each; on both pages the middle row goes
    stale during extraction.  The operator answers every CAPTCHA prompt
    during the first sleep of the relay. *)

Definition sample_raw : raw_sections :=
  MkRaw (["Reg No "; "Date"], [" 101"; "01-01-2023 "])
        (["Seller"], ["A"])
        (["Buyer"], ["B"])
        (["Property Address"; "Area"],
         ["Ward Colony - Arera, Distirct: Bhopal, pin-462001, Madhya Pradesh, India"; "100"])
        (["Khasra"], ["12/3"]).

Definition good_row : row_obs :=
  MkRow (Got 3%nat) (Got tt) (Got sample_raw) (Got tt) (Got tt) (Got tt).

Definition stale_row : row_obs :=
  MkRow (Got 3%nat) (Got tt) (Throws (WebDriverException "stale element reference"))
        (Got tt) (Got tt) (Got tt).

Definition next_on : next_obs :=
  MkNext (Got tt) (Got (Some "mat-paginator-navigation-next")) (Got tt) (Got tt).

Definition next_off : next_obs :=
  MkNext (Got tt) (Got (Some "mat-paginator-navigation-next mat-button-disabled"))
         (Got tt) (Got tt).

Definition sample_page (is_last : bool) : page_obs :=
  MkPageObs (Got 3%nat)
            (fun i => if Nat.eqb i 1 then stale_row else good_row)
            (if is_last then next_off else next_on).

(** The pixel on which a page coordinate lands: [int(p * ratio)]. *)
Definition pixel_of (p ratio : Pynum.number) : outcome Z :=
  Pynum.and_then (Pynum.mul p ratio) Pynum.int_of.

(** The pixel on which the far edge of an extent lands:
    [int((p + size) * ratio)]. *)
Definition far_pixel_of (p size ratio : Pynum.number) : outcome Z :=
  Pynum.and_then (Pynum.and_then (Pynum.add p size) (fun q => Pynum.mul q ratio))
                 Pynum.int_of.

(** The exceptions the capture can end in: those of the arithmetic (an
    [int] too large for a double, an infinite product, a NaN) and
    Pillow's refusal of an inverted box. *)
Definition arithmetic_error (e : exn) : Prop :=
  (exists msg, e = OverflowError msg) \/ (exists msg, e = ValueError msg).

(** The doubles 0.5 and 1.15 (0x1.2666666666666p+0). *)
Definition half : spec_float := S754_finite false 4503599627370496 (-53).
Definition ratio_1_15 : spec_float := S754_finite false 5179139571476070 (-52).

Definition sample_capture : capture_obs :=
  MkCapture (Some (Pynum.PyInt 2)) (1600, 1200)%Z
            (Pynum.PyInt 100, Pynum.PyInt 200) (Pynum.PyInt 120, Pynum.PyInt 40).

Definition login_passes : login_obs :=
  MkLogin (Got tt) (Got sample_capture) (Got 3%nat) (Got tt) (Got 2%nat) (Got tt)
          (Got tt) (Got true).

Definition login_blocked : login_obs :=
  MkLogin (Got tt) (Got sample_capture) (Got 3%nat) (Got tt) (Got 2%nat) (Got tt)
          (Throws (WebDriverException "timeout waiting for the url to change")) (Got false).

Definition filter_passes : filter_obs :=
  MkFilter (Got tt) (Got 3%nat) (Got tt) (Got tt) (Got tt) (Got 2%nat)
           (Got sample_capture) (Got 2%nat) (Got tt) (Got 5%nat) (Got tt) (Got tt).

Definition operator : nat -> list request :=
  fun _ => [MkRequest "POST" [("captcha_value", " X7K2 ")]].

(** A stand-in for the date conversion that accepts every field that is
    present and leaves its text as it is. *)
Definition plain_dates (d : option string) : reply string :=
  match d with
  | Some t => Got t
  | None => Throws (ValueError "strptime() argument 1 must be str, not None")
  end.

Definition sample_site : env :=
  MkEnv plain_dates "20230131_120000" operator
        (Got tt) (Got tt) (Got 3%nat) (Got tt)
        (fun _ => login_passes)
        (Got tt) (Got 3%nat) (Got tt) (Got tt)
        (fun _ => filter_passes)
        (Got tt)
        (fun p => sample_page (Nat.leb 1 p)).

(** The same site when the login never goes through. *)
Definition locked_site : env :=
  MkEnv plain_dates "20230131_120000" operator
        (Got tt) (Got tt) (Got 3%nat) (Got tt)
        (fun _ => login_blocked)
        (Got tt) (Got 3%nat) (Got tt) (Got tt)
        (fun _ => filter_passes)
        (Got tt)
        (fun p => sample_page (Nat.leb 1 p)).

Definition scrape_request : request :=
  MkRequest "POST"
    [("username", "clerk"); ("password", "secret"); ("district", "Bhopal");
     ("deed_type", "Sale"); ("date_from", "2023-01-01"); ("date_to", "2023-01-31")].

Definition fresh : state := MkState [] [] [] ∅ 0 0 0 [].

(** ** Exit paths of a run *)

(** Line 539. *)
Definition finished (e : env) : http_response :=
  JsonResponse ("Scraping completed successfully! " ++ timestamp_2 e) 200.

(** The responses of the four early returns (lines 291, 301, 322, 398). *)
Definition login_exhausted : http_response :=
  JsonResponse "Login CAPTCHA solving failed after multiple attempts." 500.
Definition filters_exhausted : http_response :=
  JsonResponse "CAPTCHA #2 solving failed after multiple attempts." 500.
Definition initial_missing : http_response :=
  JsonResponse "Scraping failed: Initial elements not found." 500.
Definition other_details_missing : http_response :=
  JsonResponse "Scraping failed: Other details elements not found." 500.

Definition early_returns : list http_response :=
  [login_exhausted; initial_missing; other_details_missing; filters_exhausted].

(** Line 544. *)
Definition failed_with (ex : exn) : http_response :=
  JsonResponse ("Scraping failed: " ++ exn_str ex) 500.

(** How often a piece of the [try] body has closed the driver when it
    ends: once if it leaves the function early, not at all otherwise. *)
Definition body_post (allowed : list http_response) (q0 : nat)
    (r : outcome (bool * flow http_response) * state) : Prop :=
  match r with
  | (Ok (_, Return resp), s') => In resp allowed /\ quits s' = S q0
  | (_, s') => quits s' = q0
  end.

Definition loop_post (allowed : list http_response) (q0 : nat)
    (r : outcome (bool * option http_response) * state) : Prop :=
  match r with
  | (Ok (_, Some resp), s') => In resp allowed /\ quits s' = S q0
  | (_, s') => quits s' = q0
  end.

Definition session_post (e : env) (q0 : nat) (r : outcome http_response * state) : Prop :=
  match r with
  | (Ok resp, s') =>
      (resp = finished e /\ quits s' = q0) \/
      (In resp early_returns /\ quits s' = S q0)
  | (_, s') => quits s' = q0
  end.

(** The date fields of the request are well formed. *)
Definition dates_parse (e : env) (req : request) : Prop :=
  exists f t,
    format_date e (Dict.get "date_from" (POST req)) = Got f /\
    format_date e (Dict.get "date_to" (POST req)) = Got t.

(** The state once the run has been created (line 194). *)
Definition started (s : state) : state :=
  set_runs (S (length (runs s)) :: runs s) s.

End Props.

(* ===================================================================== *)
(** * [clear_logs] and [download_excel] *)
(* ===================================================================== *)

Module Sheets.
Import Eff Scrape.
Local Open Scope eff_scope.

(** [clear_logs(request)] *)
Definition clear_logs : M http_response :=
  modify (set_statuses []) >>>
  ret (JsonResponse "Logs cleared" 200).

(** A worksheet: its rows, in the order they were appended. *)
Definition worksheet : Type := list (list string).

(** [list(d.values())] *)
Definition values {V} (d : Dict.dict V) : list V := map snd d.

(** The header cells a record gives (line 571). *)
Definition record_keys (r : scraped_record) : list string :=
  (Dict.keys (registration_details r) ++ Dict.keys (seller_details r) ++
   Dict.keys (buyer_details r) ++ Dict.keys (property_details r) ++
   Dict.keys (khasra_details r))%list.

(** The cells of a record's row (lines 575-579). *)
Definition record_values (r : scraped_record) : list string :=
  (values (registration_details r) ++ values (seller_details r) ++
   values (buyer_details r) ++ values (property_details r) ++
   values (khasra_details r))%list.

(** [download_excel(request)]: the rows written to the workbook. *)
Definition download_excel : M worksheet :=
  let! s := get_state in
  match records s with
  | first :: _ => ret (record_keys first :: map record_values (records s))
  | [] => ret [["No data"]]
  end.

End Sheets.

(* ===================================================================== *)
(** * Further vocabulary *)
(* ===================================================================== *)

Module Shapes.
Import Text Re Address Eff Relay Store Capture Scrape Props Sheets.

(** [t] occurs in [s]. *)
Definition occurs_in (t s : string) : Prop :=
  exists before after, s = before ++ t ++ after.

(** [s] is empty or starts with a character outside [cls]. *)
Definition stops_at (cls : ascii -> bool) (s : string) : Prop :=
  match s with
  | EmptyString => True
  | String c _ => cls c = false
  end.

(** An item that consumes characters of the class [P] only (and is not a
    group marker). *)
Definition item_in (P : ascii -> bool) (it : item) : Prop :=
  match it with
  | Lit c => forall d, ci_eqb c d = true -> P d = true
  | Rep cls _ _ => forall d, cls d = true -> P d = true
  | GroupOpen | GroupClose => False
  end.

(** The least number of characters an item consumes. *)
Definition item_min (it : item) : nat :=
  match it with
  | Lit _ => 1
  | Rep _ lo _ => lo
  | GroupOpen | GroupClose => 0
  end.

Definition items_min (body : pattern) : nat := list_sum (map item_min body).

Definition any_char : ascii -> bool := fun _ => true.

(** A pattern made of a group-free prefix and one group that closes the
    pattern and whose body takes characters of [P] only. *)
Definition shaped (P : ascii -> bool) (prefix body : pattern) (pat : pattern) : Prop :=
  pat = (prefix ++ GroupOpen :: body ++ [GroupClose])%list /\
  Forall (item_in any_char) prefix /\ Forall (item_in P) body.

(** The five fields whose pattern ends in [([^,\.]+)]. *)
Definition labelled_patterns : list (string * pattern) :=
  [ ("Ward/Colony", ward_colony_re); ("District", district_re);
    ("Village", village_re); ("Sub-Area/Road", sub_area_re);
    ("Tehsil/Locality", tehsil_re) ].

(** ** Records and sheets *)

(** The five sections have the same labels in both records. *)
Definition same_keys (r1 r2 : scraped_record) : Prop :=
  Dict.keys (registration_details r1) = Dict.keys (registration_details r2) /\
  Dict.keys (seller_details r1) = Dict.keys (seller_details r2) /\
  Dict.keys (buyer_details r1) = Dict.keys (buyer_details r2) /\
  Dict.keys (property_details r1) = Dict.keys (property_details r2) /\
  Dict.keys (khasra_details r1) = Dict.keys (khasra_details r2).

(** A section whose labels are distinct and as many as its values. *)
Definition well_formed (sec : section) : Prop :=
  NoDup (fst sec) /\ length (fst sec) = length (snd sec).

(** ** Sample data *)

Definition deed_sections : list section :=
  [ (["Reg No"; "Date"], ["101"; "01-01-2023"]);
    (["Seller"], ["A"]);
    (["Buyer"], ["B"]);
    (["Area"; "Use"], ["100"; "Plot"]);
    (["Khasra"], ["12/3"]) ].

(** ** The relay, continued *)

(** None of the requests supplies an answer. *)
Definition quiet (reqs : list request) : Prop :=
  forallb (fun r => negb (submits r)) reqs = true.

(** No answer is supplied during the next [k] sleeps. *)
Definition quiet_for (intake : nat -> list request) (s : state) (k : nat) : Prop :=
  forall n, (naps s <= n < naps s + k)%nat -> quiet (intake n).

(** An operator who answers once, during sleep number [k]. *)
Definition answers_at (k : nat) (text : string) : nat -> list request :=
  fun n => if Nat.eqb n k then [MkRequest "POST" [("captcha_value", text)]] else [].

(** Run 1 exists and its slot is empty. *)
Definition waiting_state : state := MkState [1%nat] [] [] ∅ 0 0 0 [].

(** Run 1 exists and its slot holds an answer that expired at time 300;
    it is now time 400. *)
Definition stale_state : state :=
  MkState [1%nat] [] [] {[ CAPTCHA_CACHE_KEY 1 := ("X7K2", 300%Z) ]} 400 0 0 [].

(** ** Runs, continued *)

(** Both date fields fail to convert, or one of them does. *)
Definition dates_rejected (e : env) (req : request) : Prop :=
  (exists ex, format_date e (Dict.get "date_from" (POST req)) = Throws ex) \/
  (exists f ex, format_date e (Dict.get "date_from" (POST req)) = Got f /\
                format_date e (Dict.get "date_to" (POST req)) = Throws ex).

(** The login form loads and the CAPTCHA image is captured. *)
Definition prompt_shown (o : login_obs) (img : image) : Prop :=
  lo_form o = Got tt /\
  exists cap, lo_capture o = Got cap /\ _screenshot_element cap = Ok img.

Definition prompt_1 : string := "Please solve CAPTCHA #1 in the UI".
Definition timed_out_1 : string := "CAPTCHA #1 timed out waiting for input. Retrying...".

(** The refreshed row list no longer reaches row [i]. *)
Definition row_gone (i : nat) (o : row_obs) : Prop :=
  exists n, ro_refresh o = Got n /\ (n <= i)%nat.

(** The sample site with an operator who never answers. *)
Definition silent_site : env :=
  MkEnv plain_dates "20230131_120000" silent
        (Got tt) (Got tt) (Got 3%nat) (Got tt)
        (fun _ => login_passes)
        (Got tt) (Got 3%nat) (Got tt) (Got tt)
        (fun _ => filter_passes)
        (Got tt)
        (fun p => sample_page (Nat.leb 1 p)).

(** The sample site when the browser cannot be started. *)
Definition no_driver_site : env :=
  MkEnv plain_dates "20230131_120000" operator
        (Throws (WebDriverException "chromedriver not found"))
        (Got tt) (Got 3%nat) (Got tt)
        (fun _ => login_passes)
        (Got tt) (Got 3%nat) (Got tt) (Got tt)
        (fun _ => filter_passes)
        (Got tt)
        (fun p => sample_page (Nat.leb 1 p)).

(** A site whose "next" control never gets disabled. *)
Definition endless_site : env :=
  MkEnv plain_dates "20230131_120000" operator
        (Got tt) (Got tt) (Got 3%nat) (Got tt)
        (fun _ => login_passes)
        (Got tt) (Got 3%nat) (Got tt) (Got tt)
        (fun _ => filter_passes)
        (Got tt)
        (fun _ => sample_page false).

(** A site whose second page does not load its rows. *)
Definition torn_site : env :=
  MkEnv plain_dates "20230131_120000" operator
        (Got tt) (Got tt) (Got 3%nat) (Got tt)
        (fun _ => login_passes)
        (Got tt) (Got 3%nat) (Got tt) (Got tt)
        (fun _ => filter_passes)
        (Got tt)
        (fun p => if Nat.eqb p 0 then sample_page false
                  else MkPageObs (Throws (WebDriverException "timeout")) (fun _ => good_row)
                                 next_off).

(** A page of three rows whose list has shrunk to two rows when row 2 is
    reached. *)
Definition shrinking_site : env :=
  MkEnv plain_dates "20230131_120000" operator
        (Got tt) (Got tt) (Got 3%nat) (Got tt)
        (fun _ => login_passes)
        (Got tt) (Got 3%nat) (Got tt) (Got tt)
        (fun _ => filter_passes)
        (Got tt)
        (fun _ => MkPageObs (Got 3%nat)
                    (fun i => if Nat.eqb i 2
                              then MkRow (Got 2%nat) (Got tt) (Got sample_raw) (Got tt)
                                         (Got tt) (Got tt)
                              else good_row)
                    next_off).

Definition form_request : request := MkRequest "GET" [].
Definition undated_request : request := MkRequest "POST" [("username", "clerk")].

(** The two status rows of a login attempt that timed out. *)
Definition timed_out_rows (run : nat) (img : nat -> image) (attempt : nat)
  : list status_row :=
  [MkStatus run prompt_1 (Some (img attempt)); MkStatus run timed_out_1 None].

(** A stored deed, and a store that holds it alone. *)
Definition deed_record : scraped_record :=
  MkRecord [("Reg No", "101"); ("Date", "01-01-2023")] [("Seller", "A")]
           [("Buyer", "B")] [("Area", "100"); ("Use", "Plot")] [("Khasra", "12/3")].

Definition one_deed_state : state := set_records [deed_record] fresh.

(** Every row of page [p] can be processed; the page lists [k] rows. *)
Definition clean_page (k : nat) (p : page_obs) : Prop :=
  po_rows p = Got k /\ forall i, (i < k)%nat -> row_succeeds i (po_row p i).

(** A site of two result pages, three readable rows each. *)
Definition tidy_site : env :=
  MkEnv plain_dates "20230131_120000" operator
        (Got tt) (Got tt) (Got 3%nat) (Got tt)
        (fun _ => login_passes)
        (Got tt) (Got 3%nat) (Got tt) (Got tt)
        (fun _ => filter_passes)
        (Got tt)
        (fun p => MkPageObs (Got 3%nat) (fun _ => good_row)
                            (if Nat.leb 1 p then next_off else next_on)).

(** From [s] to [s'] nothing was taken away: the runs are the same, status
    rows were only appended, all of them for [run], records were only
    appended, and neither the count of sleeps nor that of closed drivers
    went down. *)
Definition extends (run : nat) (s s' : state) : Prop :=
  runs s' = runs s /\
  (exists rows, statuses s' = (statuses s ++ rows)%list /\
                Forall (fun st => st_run st = run) rows) /\
  (exists recs, records s' = (records s ++ recs)%list) /\
  (naps s <= naps s')%nat /\ (quits s <= quits s')%nat.

(** A computation that only adds, whatever its outcome. *)
Definition only_adds {A} (run : nat) (m : M A) : Prop :=
  forall s, extends run s (snd (m s)).

(** Every status row belongs to a run that exists: run ids are handed out
    as 1, 2, ... in the order of creation. *)
Definition rows_of_known_runs (s : state) : Prop :=
  forall st, In st (statuses s) -> (st_run st <= length (runs s))%nat.

(** Run 1 has prompted the operator. *)
Definition prompting_state : state :=
  MkState [1%nat] [MkStatus 1 prompt_1 None] [] ∅ 0 0 0 [].

End Shapes.

(* ===================================================================== *)
(** * Vocabulary for addresses of any code point *)
(* ===================================================================== *)

Module Reading.
Import Unicode UnicodeRe UnicodeAddress.
Local Open Scope list_scope.
Local Open Scope N_scope.

(** The value a parsed address has under a key. *)
Definition field (key : string) (addr : text) : option text :=
  Dict.get key (parse_address addr).

(** The characters [re.IGNORECASE] takes for the letters of "pin": both
    cases of the letter, and for "i" also the dotted capital U+0130 and
    the dotless small U+0131. *)
Definition like_p : list N := u "pP".
Definition like_i : list N := u "iI" ++ [304; 305].
Definition like_n : list N := u "nN".

(** "pin" or "pin-" as [re.IGNORECASE] reads it. *)
Definition pin_prefix (p : text) : Prop :=
  exists c1 c2 c3,
    In c1 like_p /\ In c2 like_i /\ In c3 like_n /\
    (p = [c1; c2; c3] \/ p = [c1; c2; c3; cp "-"]).

(** Six decimal digits, of any script. *)
Definition six_digits (d : text) : Prop :=
  length d = 6%nat /\ forallb is_digit d = true.

(** [addr] holds, from offset [i] on, "pin" or "pin-" followed by the six
    digits [d]. *)
Definition pin_occurrence (addr : text) (i : nat) (d : text) : Prop :=
  exists pre p post,
    addr = pre ++ p ++ d ++ post /\ length pre = i /\
    pin_prefix p /\ six_digits d.

(** The same in the letters and digits of ASCII alone: "pin" or "pin-" in
    upper or lower case, followed by six of the digits 0 to 9. *)
Definition ascii_pin_prefix (p : text) : Prop :=
  exists c1 c2 c3,
    In c1 (u "pP") /\ In c2 (u "iI") /\ In c3 (u "nN") /\
    (p = [c1; c2; c3] \/ p = [c1; c2; c3; cp "-"]).

Definition ascii_digit (c : N) : bool := (cp "0" <=? c) && (c <=? cp "9").

Definition six_ascii_digits (d : text) : Prop :=
  length d = 6%nat /\ forallb ascii_digit d = true.

Definition ascii_pin_occurrence (addr : text) (i : nat) (d : text) : Prop :=
  exists pre p post,
    addr = pre ++ p ++ d ++ post /\ length pre = i /\
    ascii_pin_prefix p /\ six_ascii_digits d.

(** Text of ASCII characters only. *)
Definition is_ascii (addr : text) : Prop := Forall (fun c => c < 128) addr.

(** The capturing tail [(\d{6})] of the PIN pattern. *)
Definition pin_tail : pattern := [GroupOpen; exactly 6 is_digit; GroupClose].

(** The code points that may have [y] as their lower-case form, read off
    the table: [y] itself and, of every range, the one code point that
    would be mapped to [y]. *)
Definition candidates (table : list (N * N * N * N)) (y : N) : list N :=
  flat_map (fun r => let '(first, _, _, target) := r in
                     if target <=? y then [first + (y - target)] else [])
           table.

(** ** The 8-bit text as a part of the text of any code point *)

(** The match object of the 8-bit matcher, read as one on code points. *)
Definition wide_match (m : Re.re_match) : re_match :=
  MkMatch (option_map u (Re.group1 m)).

(** An item of an 8-bit pattern and the item that stands for the same
    piece of the regular expression on code points. *)
Inductive same_item : Re.item -> item -> Prop :=
| same_lit (c : ascii) : same_item (Re.Lit c) (Lit (cp c))
| same_rep (cls : ascii -> bool) (cls' : N -> bool) (lo : nat) (hi : option nat) :
    (forall d, cls' (cp d) = cls d) -> same_item (Re.Rep cls lo hi) (Rep cls' lo hi)
| same_open : same_item Re.GroupOpen GroupOpen
| same_close : same_item Re.GroupClose GroupClose.

(** The 256 characters of the 8-bit text. *)
Definition all_ascii : list ascii := map ascii_of_nat (seq 0 256).

(** "pın462001" with the dotless i, and "pin" followed by the Devanagari
    digits one to six. *)
Definition dotless_pin : text := u "p" ++ [305] ++ u "n462001".
Definition devanagari_pin : text := u "pin" ++ [2407; 2408; 2409; 2410; 2411; 2412].

End Reading.

(* ===================================================================== *)
(** * Proof automation *)
(* ===================================================================== *)

(** Symbolic execution of one step of a monadic body: case analysis on the
    next answer of a collaborator, on the outcome of a CAPTCHA wait
    ([keeps] states what the wait preserves), on a capture, or on a test. *)
Ltac exec_step keeps :=
  match goal with
  | |- context [match ?r with Eff.Got _ => _ | Eff.Throws _ => _ end] =>
      destruct r as [?|?]; simpl
  | |- context [Scrape.await_captcha ?e ?r ?s] =>
      let H := fresh "Hawait" in
      pose proof (keeps s) as H;
      destruct (Scrape.await_captcha e r s) as [[?|?|] ?]; simpl in H |- *
  | |- context [Capture._screenshot_element ?c] =>
      destruct (Capture._screenshot_element c) as [?|?|]; simpl
  | |- context [if ?b then _ else _] => destruct b; simpl
  end.

(** Steps that only add to the state. *)
Create HintDb adds.

(* ===================================================================== *)
(** * Properties of the text helpers *)
(* ===================================================================== *)

Module TextFacts.
Import Text.

Lemma append_nil_r (s : string) : s ++ "" = s.
Proof. induction s as [|c s IH]; simpl; [reflexivity | now rewrite IH]. Qed.

Lemma append_assoc (a b c : string) : (a ++ b) ++ c = a ++ (b ++ c).
Proof. induction a as [|x a IH]; simpl; [reflexivity | now rewrite IH]. Qed.

Lemma length_append (a b : string) :
  String.length (a ++ b) = (String.length a + String.length b)%nat.
Proof. induction a as [|x a IH]; simpl; [reflexivity | now rewrite IH]. Qed.

Lemma substring_prefix (a b : string) : substring 0 (String.length a) (a ++ b) = a.
Proof.
  induction a as [|x a IH]; simpl.
  - destruct b; reflexivity.
  - now rewrite IH.
Qed.

(** The text consumed between two points of the input. *)
Lemma consumed_prefix (a b : string) :
  substring 0 (String.length (a ++ b) - String.length b) (a ++ b) = a.
Proof.
  rewrite length_append.
  replace (String.length a + String.length b - String.length b)%nat
    with (String.length a) by lia.
  apply substring_prefix.
Qed.

Lemma length_lower (s : string) : String.length (lower s) = String.length s.
Proof. induction s as [|c s IH]; simpl; [reflexivity | now rewrite IH]. Qed.

Lemma length_zero (s : string) : String.length s = 0%nat -> s = "".
Proof. destruct s; simpl; [reflexivity | discriminate]. Qed.

Lemma append_same_length (a b a' b' : string) :
  a ++ b = a' ++ b' -> String.length a = String.length a' -> a = a' /\ b = b'.
Proof.
  revert a'. induction a as [|x a IH]; intros [|x' a']; simpl; try discriminate.
  - auto.
  - intros [= -> H] [= Hl]. destruct (IH a' H Hl) as [-> ->]. auto.
Qed.

Lemma all_chars_append (p : ascii -> bool) (a b : string) :
  all_chars p (a ++ b) = all_chars p a && all_chars p b.
Proof.
  induction a as [|x a IH]; simpl; [reflexivity |].
  rewrite IH. now rewrite andb_assoc.
Qed.

(** A character whose lower-case form is not a letter is unchanged. *)
Lemma lower_ascii_dash (c : ascii) : lower_ascii c = "-"%char -> c = "-"%char.
Proof.
  destruct c as [[] [] [] [] [] [] [] []]; vm_compute; intros H;
    first [reflexivity | discriminate H].
Qed.

Lemma digit_not_dash (c : ascii) : is_digit c = true -> Ascii.eqb "-" c = false.
Proof.
  destruct c as [[] [] [] [] [] [] [] []]; vm_compute; intros H;
    first [reflexivity | discriminate H].
Qed.

Lemma truthy_nonempty (s : string) : truthy s = true <-> s <> "".
Proof. destruct s; simpl; split; intros; congruence. Qed.

(** ** [strip] leaves no white space at either end *)

Lemma lstrip_first (s : string) (c : ascii) :
  first_char (lstrip s) = Some c -> is_space c = false.
Proof.
  induction s as [|x s IH]; simpl; [discriminate |].
  destruct (is_space x) eqn:Hx; [exact IH |].
  simpl. intros [= <-]. exact Hx.
Qed.

Lemma rstrip_last (s : string) (c : ascii) :
  last_char (rstrip s) = Some c -> is_space c = false.
Proof.
  revert c. induction s as [|x s IH]; intros c; simpl; [discriminate |].
  destruct (rstrip s) as [|y t] eqn:Hr.
  - destruct (is_space x) eqn:Hx; simpl; [discriminate |].
    intros [= <-]. exact Hx.
  - intros H. apply IH. exact H.
Qed.

Lemma rstrip_first (s : string) (c : ascii) :
  first_char s = Some c -> is_space c = false -> first_char (rstrip s) = Some c.
Proof.
  destruct s as [|x s]; simpl; [discriminate |].
  intros [= ->] Hc. destruct (rstrip s); [rewrite Hc |]; reflexivity.
Qed.

Lemma rstrip_first_inv (s : string) (c : ascii) :
  first_char (rstrip s) = Some c -> first_char s = Some c.
Proof.
  destruct s as [|x s]; simpl; [discriminate |].
  destruct (rstrip s); [destruct (is_space x) |]; simpl; congruence.
Qed.

Lemma strip_first (s : string) (c : ascii) :
  first_char (strip s) = Some c -> is_space c = false.
Proof.
  unfold strip. intros H. apply (lstrip_first s). now apply rstrip_first_inv.
Qed.

Lemma strip_last (s : string) (c : ascii) :
  last_char (strip s) = Some c -> is_space c = false.
Proof. unfold strip. apply rstrip_last. Qed.

End TextFacts.

(* ===================================================================== *)
(** * Properties of the matcher *)
(* ===================================================================== *)

Module ReFacts.
Import Text Re TextFacts.

Section Greedy.
Context {R : Type} (cls : ascii -> bool) (k : string -> option R).

(** A repetition that may take nothing more hands over to the rest. *)
Lemma rep_done (s : string) : rep_greedy cls k 0 (Some 0%nat) s = k s.
Proof. destruct s; simpl; [reflexivity |]. now rewrite andb_false_r. Qed.

(** [cls{n}] succeeds exactly on [n] characters of the class followed by
    an input on which the rest of the pattern succeeds. *)
Lemma rep_exact (n : nat) (s : string) (r : R) :
  rep_greedy cls k n (Some n) s = Some r <->
  exists w rest, s = w ++ rest /\ String.length w = n /\
                 all_chars cls w = true /\ k rest = Some r.
Proof.
  revert s. induction n as [|n IH]; intros s.
  - rewrite rep_done. split.
    + intros H. exists "", s. auto.
    + intros (w & rest & -> & Hl & _ & Hk).
      apply length_zero in Hl. subst w. exact Hk.
  - destruct s as [|c s]; simpl.
    + split; [discriminate |].
      intros (w & rest & Hs & Hl & _). destruct w; simpl in *; discriminate.
    + rewrite andb_true_r. destruct (cls c) eqn:Hc.
      * split.
        -- destruct (rep_greedy cls k n (Some n) s) eqn:Hr; [| discriminate].
           intros [= ->]. apply IH in Hr as (w & rest & -> & Hl & Hw & Hk).
           exists (String c w), rest. simpl. rewrite Hc, Hw, Hl. auto.
        -- intros (w & rest & Hs & Hl & Hw & Hk).
           destruct w as [|c' w]; simpl in *; [discriminate |].
           injection Hs as <- ->. injection Hl as Hl.
           apply andb_true_iff in Hw as [_ Hw].
           assert (Hr : rep_greedy cls k n (Some n) (w ++ rest) = Some r)
             by (apply IH; eauto 6).
           now rewrite Hr.
      * split; [discriminate |].
        intros (w & rest & Hs & Hl & Hw & _).
        destruct w as [|c' w]; simpl in *; [discriminate |].
        injection Hs as <- ->. rewrite Hc in Hw. discriminate.
Qed.
End Greedy.

Lemma match_lit (c d : ascii) (pat : pattern) (s opened : string) (g : option string) :
  match_here (Lit c :: pat) (String d s) opened g =
    if ci_eqb c d then match_here pat s opened g else None.
Proof. reflexivity. Qed.

(** [c?] *)
Lemma match_opt (c : ascii) (pat : pattern) (s opened : string) (g : option string) :
  match_here (opt c :: pat) s opened g =
    match s with
    | String d s' =>
        if Ascii.eqb c d then
          match match_here pat s' opened g with
          | Some m => Some m
          | None => match_here pat s opened g
          end
        else match_here pat s opened g
    | EmptyString => match_here pat s opened g
    end.
Proof.
  simpl. destruct s as [|d s']; [reflexivity |].
  unfold is_char. simpl. rewrite andb_true_r, rep_done. reflexivity.
Qed.

(** Suffixes of the input are the start positions [search] tries. *)
Lemma search_none (pat : pattern) (s : string) :
  search pat s = None <->
  forall pre suf, s = pre ++ suf -> match_at pat suf = None.
Proof.
  induction s as [|c s IH]; simpl.
  - destruct (match_at pat "") eqn:H0; split; try discriminate; try reflexivity.
    + intros H. specialize (H "" "" eq_refl). congruence.
    + intros _ pre suf Hs. destruct pre; simpl in Hs; [subst; exact H0 | discriminate].
  - destruct (match_at pat (String c s)) eqn:H0; split; try discriminate.
    + intros H. specialize (H "" (String c s) eq_refl). congruence.
    + intros Hs pre suf Heq. destruct pre as [|x pre]; simpl in Heq.
      * subst suf. exact H0.
      * injection Heq as <- ->. apply (proj1 IH Hs pre). reflexivity.
    + intros H. apply IH. intros pre suf ->. apply (H (String c pre)). reflexivity.
Qed.

Lemma search_some (pat : pattern) (s : string) (m : re_match) :
  search pat s = Some m ->
  exists pre suf, s = pre ++ suf /\ match_at pat suf = Some m /\
    forall pre' suf', s = pre' ++ suf' ->
                      (String.length pre' < String.length pre)%nat ->
                      match_at pat suf' = None.
Proof.
  induction s as [|c s IH]; simpl.
  - destruct (match_at pat "") eqn:H0; [| discriminate].
    intros [= ->]. exists "", "". repeat split; [exact H0 |].
    intros pre' suf' _ Hlt. simpl in Hlt. lia.
  - destruct (match_at pat (String c s)) eqn:H0.
    + intros [= ->]. exists "", (String c s). repeat split; [exact H0 |].
      intros pre' suf' _ Hlt. simpl in Hlt. lia.
    + intros H. apply IH in H as (pre & suf & -> & Hm & Hleft).
      exists (String c pre), suf. repeat split; [exact Hm |].
      intros pre' suf' Heq Hlt. destruct pre' as [|x pre']; simpl in Heq.
      * subst suf'. exact H0.
      * injection Heq as <- Heq. apply (Hleft pre' suf' Heq). simpl in Hlt. lia.
Qed.

End ReFacts.

(* ===================================================================== *)
(** * [parse_address]: shape of the result, PIN code, district *)
(* ===================================================================== *)

Module AddressFacts.
Import Text Re Address TextFacts ReFacts Props.

(** The dictionary [parse_address] builds, entry by entry. *)
Lemma parse_address_items (addr : string) :
  parse_address addr =
    [ ("Ward/Colony", field_value ward_colony_re addr);
      ("District", field_value district_re addr);
      ("Village", field_value village_re addr);
      ("Sub-Area/Road", field_value sub_area_re addr);
      ("Tehsil/Locality", field_value tehsil_re addr);
      ("PIN Code", field_value pin_re addr);
      ("Landmark", field_value landmark_re addr);
      ("State", if contains "Madhya Pradesh" addr then "Madhya Pradesh" else "");
      ("Country", if contains "India" addr then "India" else "") ].
Proof. reflexivity. Qed.

Lemma field_pin (addr : string) : field "PIN Code" addr = Some (field_value pin_re addr).
Proof. unfold field. rewrite parse_address_items. reflexivity. Qed.

Lemma field_value_none (pat : pattern) (addr : string) :
  search pat addr = None -> field_value pat addr = "".
Proof. unfold field_value. now intros ->. Qed.

Lemma field_value_group (pat : pattern) (addr g : string) :
  search pat addr = Some (MkMatch (Some g)) -> field_value pat addr = g.
Proof. unfold field_value. now intros ->. Qed.

(** ** The PIN pattern at one start position *)

Lemma pin_tail_iff (s opened : string) (g : option string) (m : re_match) :
  match_here pin_tail s opened g = Some m <->
  exists d rest, s = d ++ rest /\ six_digits d /\ m = MkMatch (Some d).
Proof.
  unfold pin_tail, exactly. simpl match_here. rewrite rep_exact. split.
  - intros (w & rest & -> & Hl & Hw & Hk). exists w, rest.
    rewrite consumed_prefix in Hk. injection Hk as <-.
    repeat split; assumption.
  - intros (d & rest & -> & [Hl Hw] & ->). exists d, rest.
    rewrite consumed_prefix. repeat split; assumption.
Qed.

Lemma ci_eqb_lower (c d : ascii) :
  ci_eqb c d = true <-> lower_ascii d = lower_ascii c.
Proof.
  unfold ci_eqb. rewrite Ascii.eqb_eq. split; congruence.
Qed.

Lemma pin_at_iff (s : string) (m : re_match) :
  match_at pin_re s = Some m <->
  exists p d rest, s = p ++ d ++ rest /\ pin_prefix p /\ six_digits d /\
                   m = MkMatch (Some d).
Proof.
  unfold match_at. change pin_re with (Lit "p" :: Lit "i" :: Lit "n" :: opt "-" :: pin_tail).
  split.
  - destruct s as [|c1 [|c2 [|c3 s3]]]; simpl; try discriminate;
      try (destruct (ci_eqb _ _); discriminate);
      try (destruct (ci_eqb _ _); [destruct (ci_eqb _ _) |]; discriminate).
    destruct (ci_eqb "p" c1) eqn:H1; [| discriminate].
    destruct (ci_eqb "i" c2) eqn:H2; [| discriminate].
    destruct (ci_eqb "n" c3) eqn:H3; [| discriminate].
    apply ci_eqb_lower in H1, H2, H3.
    change (rep_greedy (is_char "-") ?k 0 (Some 1%nat) s3)
      with (match_here (opt "-" :: pin_tail) s3 (String c1 (String c2 (String c3 s3))) None).
    rewrite match_opt.
    assert (Hplain : forall o g,
               match_here pin_tail s3 o g = Some m ->
               exists p d rest,
                 String c1 (String c2 (String c3 s3)) = p ++ d ++ rest /\
                 pin_prefix p /\ six_digits d /\ m = MkMatch (Some d)).
    { intros o g H. apply pin_tail_iff in H as (d & rest & -> & Hd & ->).
      exists (String c1 (String c2 (String c3 ""))), d, rest.
      repeat split; try apply Hd. left. simpl. now rewrite H1, H2, H3. }
    destruct s3 as [|c4 s4]; [apply Hplain |].
    destruct (Ascii.eqb "-" c4) eqn:H4; [| apply Hplain].
    apply Ascii.eqb_eq in H4. subst c4.
    destruct (match_here pin_tail s4 _ _) eqn:Ht; [| apply Hplain].
    intros [= ->]. apply pin_tail_iff in Ht as (d & rest & -> & Hd & ->).
    exists (String c1 (String c2 (String c3 "-"))), d, rest.
    repeat split; try apply Hd. right. simpl. now rewrite H1, H2, H3.
  - intros (p & d & rest & -> & Hp & Hd & ->).
    assert (Ht : forall o g, match_here pin_tail (d ++ rest) o g = Some (MkMatch (Some d)))
      by (intros o g; apply pin_tail_iff; eauto).
    destruct Hp as [Hp | Hp].
    + destruct p as [|c1 [|c2 [|c3 [|c4 p]]]]; simpl in Hp; try discriminate.
      injection Hp as H1 H2 H3.
      assert (E1 : ci_eqb "p" c1 = true) by (apply ci_eqb_lower; now rewrite H1).
      assert (E2 : ci_eqb "i" c2 = true) by (apply ci_eqb_lower; now rewrite H2).
      assert (E3 : ci_eqb "n" c3 = true) by (apply ci_eqb_lower; now rewrite H3).
      simpl String.append. rewrite !match_lit, E1, E2, E3, match_opt.
      destruct Hd as [Hl Hdig].
      destruct d as [|d1 d]; [discriminate |].
      simpl in Hdig. apply andb_true_iff in Hdig as [Hd1 Hdig].
      simpl String.append. cbv iota. rewrite (digit_not_dash d1 Hd1).
      apply (Ht _ _).
    + destruct p as [|c1 [|c2 [|c3 [|c4 [|c5 p]]]]]; simpl in Hp; try discriminate.
      injection Hp as H1 H2 H3 H4. apply lower_ascii_dash in H4. subst c4.
      assert (E1 : ci_eqb "p" c1 = true) by (apply ci_eqb_lower; now rewrite H1).
      assert (E2 : ci_eqb "i" c2 = true) by (apply ci_eqb_lower; now rewrite H2).
      assert (E3 : ci_eqb "n" c3 = true) by (apply ci_eqb_lower; now rewrite H3).
      simpl String.append. rewrite !match_lit, E1, E2, E3, match_opt.
      rewrite Ascii.eqb_refl. now rewrite Ht.
Qed.

Lemma occurrence_matches (addr : string) (i : nat) (d : string) :
  pin_occurrence addr i d <->
  exists pre suf, addr = pre ++ suf /\ String.length pre = i /\
                  match_at pin_re suf = Some (MkMatch (Some d)).
Proof.
  split.
  - intros (pre & p & post & -> & Hl & Hp & Hd).
    exists pre, (p ++ d ++ post). repeat split; [exact Hl |].
    apply pin_at_iff. eauto 8.
  - intros (pre & suf & -> & Hl & Hm).
    apply pin_at_iff in Hm as (p & d' & rest & -> & Hp & Hd & [= <-]).
    exists pre, p, rest. auto.
Qed.

Lemma field_value_some (pat : pattern) (addr : string) (m : re_match) :
  search pat addr = Some m -> field_value pat addr = group m.
Proof.
  unfold field_value, lastindex, group. intros ->.
  destruct (group1 m); reflexivity.
Qed.

(** C3: for every input string, the empty one included, [parse_address]
    returns exactly the nine fixed keys (in this order), each mapped to a
    string; a pattern that does not match contributes the empty string,
    and so do State and Country when their literal is absent. *)
Theorem parse_address_nine_keys (addr : string) :
  Dict.keys (parse_address addr) = address_keys /\
  Forall (fun k => exists v, field k addr = Some v) address_keys /\
  Forall (fun kp =>
            field (fst kp) addr =
              Some (match search (snd kp) addr with
                    | Some m => group m
                    | None => ""
                    end)) patterns /\
  field "State" addr =
    Some (if contains "Madhya Pradesh" addr then "Madhya Pradesh" else "") /\
  field "Country" addr = Some (if contains "India" addr then "India" else "") /\
  parse_address "" = map (fun k => (k, "")) address_keys.
Proof.
  repeat split.
  - unfold address_keys, field; rewrite parse_address_items;
      repeat constructor; eexists; reflexivity.
  - assert (Hv : forall pat, field_value pat addr =
                   match search pat addr with Some m => group m | None => "" end).
    { intros pat. destruct (search pat addr) eqn:Hs.
      - now apply field_value_some.
      - now apply field_value_none. }
    unfold patterns, field; rewrite parse_address_items.
    repeat constructor; simpl; now rewrite <- Hv.
Qed.

(** On text of code points below 256: when the address holds "pin" or
    "pin-" (in any letter case) followed by six digits, the "PIN Code"
    field is that digit sequence, taken at the leftmost such place (which
    exists whenever there is one at all); when the address holds no such
    place, the field is the empty string. *)
Lemma pin_code_on_latin1 (addr : string) :
  (forall i d,
      pin_occurrence addr i d ->
      (forall j d', pin_occurrence addr j d' -> (i <= j)%nat) ->
      field "PIN Code" addr = Some d) /\
  ((exists i d, pin_occurrence addr i d) ->
   exists i d, pin_occurrence addr i d /\
               (forall j d', pin_occurrence addr j d' -> (i <= j)%nat)) /\
  ((forall i d, ~ pin_occurrence addr i d) -> field "PIN Code" addr = Some "").
Proof.
  rewrite field_pin. split; [| split].
  - intros i d Hocc Hleft.
    apply occurrence_matches in Hocc as (pre & suf & Haddr & Hl & Hm).
    destruct (search pin_re addr) as [m|] eqn:Hs.
    + destruct (search_some _ _ _ Hs) as (pre0 & suf0 & Haddr0 & Hm0 & Hmin).
      destruct (proj1 (pin_at_iff suf0 m) Hm0) as (p0 & d0 & rest0 & Hsuf0 & Hp0 & Hd0 & Hm').
      assert (Hocc0 : pin_occurrence addr (String.length pre0) d0)
        by (apply occurrence_matches; exists pre0, suf0; subst m; auto).
      apply Hleft in Hocc0.
      assert (Hge : (String.length pre0 <= String.length pre)%nat).
      { destruct (Nat.le_gt_cases (String.length pre0) (String.length pre)) as [H | H];
          [exact H |].
        rewrite (Hmin pre suf Haddr H) in Hm. discriminate. }
      assert (Hlen : String.length pre = String.length pre0) by lia.
      rewrite Haddr in Haddr0.
      destruct (append_same_length _ _ _ _ Haddr0 Hlen) as [_ ->].
      rewrite Hm in Hm0. injection Hm0 as <-.
      erewrite field_value_group; [reflexivity | exact Hs].
    + rewrite (proj1 (search_none _ _) Hs pre suf Haddr) in Hm. discriminate.
  - intros (i & d & Hocc).
    apply occurrence_matches in Hocc as (pre & suf & Haddr & Hl & Hm).
    destruct (search pin_re addr) as [m|] eqn:Hs.
    + destruct (search_some _ _ _ Hs) as (pre0 & suf0 & Haddr0 & Hm0 & Hmin).
      destruct (proj1 (pin_at_iff suf0 m) Hm0) as (p0 & d0 & rest0 & Hsuf0 & Hp0 & Hd0 & Hm').
      exists (String.length pre0), d0. split.
      * apply occurrence_matches. exists pre0, suf0. subst m. auto.
      * intros j d' Hj.
        apply occurrence_matches in Hj as (pre' & suf' & Haddr' & Hl' & Hm'').
        destruct (Nat.le_gt_cases (String.length pre0) j) as [H | H]; [exact H |].
        rewrite <- Hl' in H. rewrite (Hmin pre' suf' Haddr' H) in Hm''. discriminate.
    + rewrite (proj1 (search_none _ _) Hs pre suf Haddr) in Hm. discriminate.
  - intros Hnone. rewrite field_value_none; [reflexivity |].
    apply search_none. intros pre suf Haddr.
    destruct (match_at pin_re suf) as [m|] eqn:Hm; [| reflexivity].
    exfalso.
    destruct (proj1 (pin_at_iff suf m) Hm) as (p & d & rest & Hsuf & Hp & Hd & ->).
    apply (Hnone (String.length pre) d).
    apply occurrence_matches. exists pre, suf. auto.
Qed.

(** On ["PIN-462001, Bhopal"] and on ["Bhopal"]. *)
Lemma pin_code_on_latin1_witness :
  field "PIN Code" "PIN-462001, Bhopal" = Some "462001" /\
  field "PIN Code" "Bhopal" = Some "".
Proof.
  split.
  - apply (proj1 (pin_code_on_latin1 "PIN-462001, Bhopal") 0%nat "462001").
    + exists "", "PIN-", ", Bhopal". repeat split; right; reflexivity.
    + intros j d' _. lia.
  - apply (proj2 (proj2 (pin_code_on_latin1 "Bhopal"))).
    intros i d (pre & p & post & Haddr & _ & Hp & [Hl _]).
    apply (f_equal String.length) in Haddr.
    rewrite !length_append, Hl in Haddr. simpl in Haddr.
    assert (3 <= String.length p)%nat
      by (rewrite <- length_lower; destruct Hp as [-> | ->]; simpl; lia).
    lia.
Defined.

(** C5: the district pattern is spelled "Distirct", so an address that
    spells the word correctly does not match it and "District" comes out
    empty, while the misspelled form is picked up. *)
Theorem parse_address_district_misspelled :
  field "District" "Ward Colony - Arera, District: Bhopal, Tehsil: Huzur." = Some "" /\
  field "District" "Ward Colony - Arera, Distirct: Bhopal, Tehsil: Huzur." = Some "Bhopal" /\
  field "Tehsil/Locality" "Ward Colony - Arera, District: Bhopal, Tehsil: Huzur."
    = Some "Huzur".
Proof. repeat split; vm_compute; reflexivity. Qed.

End AddressFacts.

(* ===================================================================== *)
(** * The PIN code on text of any code point *)
(* ===================================================================== *)

Module UnicodeFacts.
Import Unicode UnicodeRe UnicodeAddress Reading.
Local Open Scope list_scope.

(** ** Lists of code points *)

Lemma wide_consumed_prefix (a b : text) :
  firstn (length (a ++ b) - length b) (a ++ b) = a.
Proof.
  rewrite length_app.
  replace (length a + length b - length b)%nat with (length a + 0)%nat by lia.
  rewrite firstn_app_2. simpl. apply app_nil_r.
Qed.

Lemma app_same_length (a b a' b' : text) :
  a ++ b = a' ++ b' -> length a = length a' -> a = a' /\ b = b'.
Proof.
  revert a'. induction a as [|x a IH]; intros [|x' a']; simpl; try discriminate.
  - auto.
  - intros [= -> H] [= Hl]. destruct (IH a' H Hl) as [-> ->]. auto.
Qed.

(** ** The character data *)

Lemma in_range_iff (r : N * N) (c : N) :
  in_range r c = true <-> (fst r <= c <= snd r)%N.
Proof. unfold in_range. rewrite andb_true_iff, !N.leb_le. reflexivity. Qed.

(** Samples of the character data: decimal digits of six scripts, and six
    characters that are no decimal digit (among them the superscript two,
    the circled one and the ideograph for one); the lower-case forms and
    the cased characters the comparison of letters rests on. *)
Lemma character_data_samples :
  forallb is_digit [48; 57; 1632; 2415; 65296; 120831; 2406; 125273]%N = true /\
  existsb is_digit [47; 58; 178; 9312; 19968; 305]%N = false /\
  map tolower [304; 305; 8490; 383; 931; 7838; 66560; 223]%N
    = [105; 305; 107; 383; 963; 223; 66600; 223]%N /\
  forallb iscased [304; 305; 8490; 383; 223; 112]%N = true /\
  existsb iscased [45; 58; 32; 48; 2406]%N = false /\
  extra_cases 105 = [305%N] /\ extra_cases 115 = [383%N] /\ extra_cases 112 = [].
Proof. vm_compute. repeat split. Qed.

(** Below 128 the decimal digits are 0 to 9. *)
Lemma digit_zeros_ascii : Forall (fun z => z = 48 \/ 128 <= z)%N digit_zeros.
Proof.
  apply List.Forall_forall. intros z Hz.
  assert (H : forallb (fun z => (z =? 48) || (128 <=? z))%N digit_zeros = true)
    by (vm_compute; reflexivity).
  rewrite forallb_forall in H. specialize (H z Hz).
  apply orb_true_iff in H as [H | H]; [left; now apply N.eqb_eq | right; now apply N.leb_le].
Qed.

Lemma is_digit_ascii (c : N) :
  (c < 128)%N -> is_digit c = ascii_digit c.
Proof.
  intros Hc. unfold is_digit, ascii_digit.
  destruct (existsb _ digit_zeros) eqn:He.
  - apply existsb_exists in He as (z & Hz & Hr). apply in_range_iff in Hr. simpl in Hr.
    pose proof (proj1 (List.Forall_forall _ _) digit_zeros_ascii z Hz) as [-> | Hbig]; [| lia].
    symmetry. apply andb_true_iff. rewrite !N.leb_le. change (cp "0") with 48%N.
    change (cp "9") with 57%N. lia.
  - symmetry. apply not_true_is_false. intros H.
    apply andb_true_iff in H. rewrite !N.leb_le in H.
    change (cp "0") with 48%N in H. change (cp "9") with 57%N in H.
    assert (Hex : existsb (fun z => in_range (z, z + 9)%N c) digit_zeros = true).
    { apply existsb_exists. exists 48%N. split; [left; reflexivity |].
      apply in_range_iff. simpl. lia. }
    congruence.
Qed.

Lemma wide_digit_not_dash (c : N) : is_digit c = true -> is_char (cp "-") c = false.
Proof.
  intros Hd. unfold is_char. apply N.eqb_neq. intros <-.
  rewrite is_digit_ascii in Hd by (vm_compute; reflexivity). discriminate Hd.
Qed.

(** Who is mapped to [y]: [y] itself, or the one candidate of a range. *)
Lemma lower_in_preimage (table : list (N * N * N * N)) (c y : N) :
  lower_in table c = y -> c = y \/ In c (candidates table y).
Proof.
  induction table as [|[[[first last] step] target] table IH]; simpl; [auto |].
  destruct ((first <=? c)%N && (c <=? last)%N && ((c - first) mod step =? 0)%N) eqn:Hin.
  - intros <-. right. apply in_or_app. left.
    apply andb_true_iff in Hin as [Hin _]. apply andb_true_iff in Hin as [Hlo _].
    apply N.leb_le in Hlo.
    assert (Hle : (target <=? target + (c - first))%N = true) by (apply N.leb_le; lia).
    rewrite Hle. left. lia.
  - intros H. destruct (IH H) as [-> | Hc]; [auto |]. right. apply in_or_app. auto.
Qed.

Lemma tolower_preimage (c y : N) :
  tolower c = y -> In c (y :: candidates lower_table y).
Proof. intros H. apply lower_in_preimage in H as [-> | H]; [now left | now right]. Qed.

(** The characters whose lower-case form is p, i, dotless i, or n. *)
Lemma tolower_p (c : N) : tolower c = cp "p" <-> In c like_p.
Proof.
  split.
  - intros H. pose proof (tolower_preimage c _ H) as Hin. vm_compute in Hin.
    repeat (destruct Hin as [<- | Hin]);
      first [ now (vm_compute; auto) | vm_compute in H; discriminate H | contradiction ].
  - intros Hin. vm_compute in Hin.
    repeat (destruct Hin as [<- | Hin]); first [ reflexivity | contradiction ].
Qed.

Lemma tolower_n (c : N) : tolower c = cp "n" <-> In c like_n.
Proof.
  split.
  - intros H. pose proof (tolower_preimage c _ H) as Hin. vm_compute in Hin.
    repeat (destruct Hin as [<- | Hin]);
      first [ now (vm_compute; auto) | vm_compute in H; discriminate H | contradiction ].
  - intros Hin. vm_compute in Hin.
    repeat (destruct Hin as [<- | Hin]); first [ reflexivity | contradiction ].
Qed.

Lemma tolower_i (c : N) : tolower c = cp "i" \/ tolower c = 305%N <-> In c like_i.
Proof.
  split.
  - intros [H | H]; pose proof (tolower_preimage c _ H) as Hin; vm_compute in Hin;
      repeat (destruct Hin as [<- | Hin]);
      first [ now (vm_compute; auto 6) | vm_compute in H; discriminate H | contradiction ].
  - intros Hin. vm_compute in Hin.
    repeat (destruct Hin as [<- | Hin]);
      first [ now (left; reflexivity) | now (right; reflexivity) | contradiction ].
Qed.

(** ** The three letters under [re.IGNORECASE] *)

Lemma lit_match_p (d : N) : lit_match (cp "p") d = true <-> In d like_p.
Proof.
  rewrite <- tolower_p. unfold lit_match.
  change (iscased (cp "p")) with true. cbv iota zeta.
  change (tolower (cp "p")) with (cp "p"). change (extra_cases (cp "p")) with (@nil N).
  simpl existsb. rewrite orb_false_r. apply N.eqb_eq.
Qed.

Lemma lit_match_n (d : N) : lit_match (cp "n") d = true <-> In d like_n.
Proof.
  rewrite <- tolower_n. unfold lit_match.
  change (iscased (cp "n")) with true. cbv iota zeta.
  change (tolower (cp "n")) with (cp "n"). change (extra_cases (cp "n")) with (@nil N).
  simpl existsb. rewrite orb_false_r. apply N.eqb_eq.
Qed.

Lemma lit_match_i (d : N) : lit_match (cp "i") d = true <-> In d like_i.
Proof.
  rewrite <- tolower_i. unfold lit_match.
  change (iscased (cp "i")) with true. cbv iota zeta.
  change (tolower (cp "i")) with (cp "i"). change (extra_cases (cp "i")) with [305%N].
  simpl existsb. rewrite orb_false_r, orb_true_iff, !N.eqb_eq. reflexivity.
Qed.

(** ** The matcher *)

Section Greedy.
Context {R : Type} (cls : N -> bool) (k : text -> option R).

Lemma wide_rep_done (s : text) : rep_greedy cls k 0 (Some 0%nat) s = k s.
Proof. destruct s; simpl; [reflexivity |]. now rewrite andb_false_r. Qed.

(** [cls{n}] succeeds exactly on [n] characters of the class followed by
    an input on which the rest of the pattern succeeds. *)
Lemma wide_rep_exact (n : nat) (s : text) (r : R) :
  rep_greedy cls k n (Some n) s = Some r <->
  exists w rest, s = w ++ rest /\ length w = n /\
                 forallb cls w = true /\ k rest = Some r.
Proof.
  revert s. induction n as [|n IH]; intros s.
  - rewrite wide_rep_done. split.
    + intros H. exists [], s. auto.
    + intros (w & rest & -> & Hl & _ & Hk).
      apply length_zero_iff_nil in Hl. subst w. exact Hk.
  - destruct s as [|c s]; simpl.
    + split; [discriminate |].
      intros (w & rest & Hs & Hl & _). destruct w; simpl in *; discriminate.
    + rewrite andb_true_r. destruct (cls c) eqn:Hc.
      * split.
        -- destruct (rep_greedy cls k n (Some n) s) eqn:Hr; [| discriminate].
           intros [= ->]. apply IH in Hr as (w & rest & -> & Hl & Hw & Hk).
           exists (c :: w), rest. simpl. rewrite Hc, Hw, Hl. auto.
        -- intros (w & rest & Hs & Hl & Hw & Hk).
           destruct w as [|c' w]; simpl in *; [discriminate |].
           injection Hs as <- ->. injection Hl as Hl.
           apply andb_true_iff in Hw as [_ Hw].
           assert (Hr : rep_greedy cls k n (Some n) (w ++ rest) = Some r)
             by (apply IH; eauto 6).
           now rewrite Hr.
      * split; [discriminate |].
        intros (w & rest & Hs & Hl & Hw & _).
        destruct w as [|c' w]; simpl in *; [discriminate |].
        injection Hs as <- ->. rewrite Hc in Hw. discriminate.
Qed.
End Greedy.

Lemma wide_match_lit (c d : N) (pat : pattern) (s opened : text) (g : option text) :
  match_here (Lit c :: pat) (d :: s) opened g =
    if lit_match c d then match_here pat s opened g else None.
Proof. reflexivity. Qed.

Lemma match_lit_nil (c : N) (pat : pattern) (opened : text) (g : option text) :
  match_here (Lit c :: pat) [] opened g = None.
Proof. reflexivity. Qed.

(** [c?] *)
Lemma wide_match_opt (c : ascii) (pat : pattern) (s opened : text) (g : option text) :
  match_here (opt c :: pat) s opened g =
    match s with
    | d :: s' =>
        if is_char (cp c) d then
          match match_here pat s' opened g with
          | Some m => Some m
          | None => match_here pat s opened g
          end
        else match_here pat s opened g
    | [] => match_here pat s opened g
    end.
Proof.
  simpl. destruct s as [|d s']; [reflexivity |].
  cbn [rep_greedy Re.hi_allows Re.hi_pred Nat.pred].
  rewrite andb_true_r, wide_rep_done. reflexivity.
Qed.

(** Suffixes of the input are the start positions [search] tries. *)
Lemma wide_search_none (pat : pattern) (s : text) :
  search pat s = None <->
  forall pre suf, s = pre ++ suf -> match_at pat suf = None.
Proof.
  induction s as [|c s IH]; simpl.
  - destruct (match_at pat []) eqn:H0; split; try discriminate; try reflexivity.
    + intros H. specialize (H [] [] eq_refl). congruence.
    + intros _ pre suf Hs. symmetry in Hs. apply app_eq_nil in Hs as [_ ->]. exact H0.
  - destruct (match_at pat (c :: s)) eqn:H0; split; try discriminate.
    + intros H. specialize (H [] (c :: s) eq_refl). congruence.
    + intros Hs pre suf Heq. destruct pre as [|x pre]; simpl in Heq.
      * subst suf. exact H0.
      * injection Heq as <- ->. apply (proj1 IH Hs pre). reflexivity.
    + intros H. apply IH. intros pre suf ->. apply (H (c :: pre)). reflexivity.
Qed.

Lemma wide_search_some (pat : pattern) (s : text) (m : re_match) :
  search pat s = Some m ->
  exists pre suf, s = pre ++ suf /\ match_at pat suf = Some m /\
    forall pre' suf', s = pre' ++ suf' -> (length pre' < length pre)%nat ->
                      match_at pat suf' = None.
Proof.
  induction s as [|c s IH]; simpl.
  - destruct (match_at pat []) eqn:H0; [| discriminate].
    intros [= ->]. exists [], []. repeat split; [exact H0 |].
    intros pre' suf' _ Hlt. simpl in Hlt. lia.
  - destruct (match_at pat (c :: s)) eqn:H0.
    + intros [= ->]. exists [], (c :: s). repeat split; [exact H0 |].
      intros pre' suf' _ Hlt. simpl in Hlt. lia.
    + intros H. apply IH in H as (pre & suf & -> & Hm & Hleft).
      exists (c :: pre), suf. repeat split; [exact Hm |].
      intros pre' suf' Heq Hlt. destruct pre' as [|x pre']; simpl in Heq.
      * subst suf'. exact H0.
      * injection Heq as <- Heq. apply (Hleft pre' suf' Heq). simpl in Hlt. lia.
Qed.

(** ** The address, entry by entry *)

Lemma wide_parse_address_items (addr : text) :
  parse_address addr =
    [ ("Ward/Colony", field_value ward_colony_re addr);
      ("District", field_value district_re addr);
      ("Village", field_value village_re addr);
      ("Sub-Area/Road", field_value sub_area_re addr);
      ("Tehsil/Locality", field_value tehsil_re addr);
      ("PIN Code", field_value pin_re addr);
      ("Landmark", field_value landmark_re addr);
      ("State", if contains (u "Madhya Pradesh") addr then u "Madhya Pradesh" else []);
      ("Country", if contains (u "India") addr then u "India" else []) ].
Proof. reflexivity. Qed.

Lemma wide_field_pin (addr : text) : field "PIN Code" addr = Some (field_value pin_re addr).
Proof. unfold field. rewrite wide_parse_address_items. reflexivity. Qed.

Lemma wide_field_value_none (pat : pattern) (addr : text) :
  search pat addr = None -> field_value pat addr = [].
Proof. unfold field_value. now intros ->. Qed.

Lemma wide_field_value_group (pat : pattern) (addr g : text) :
  search pat addr = Some (MkMatch (Some g)) -> field_value pat addr = g.
Proof. unfold field_value. now intros ->. Qed.

(** ** The PIN pattern at one start position *)

Lemma wide_pin_tail_iff (s opened : text) (g : option text) (m : re_match) :
  match_here pin_tail s opened g = Some m <->
  exists d rest, s = d ++ rest /\ six_digits d /\ m = MkMatch (Some d).
Proof.
  unfold pin_tail, exactly. simpl match_here. rewrite wide_rep_exact. split.
  - intros (w & rest & -> & Hl & Hw & Hk). exists w, rest.
    rewrite wide_consumed_prefix in Hk. injection Hk as <-.
    repeat split; assumption.
  - intros (d & rest & -> & [Hl Hw] & ->). exists d, rest.
    rewrite wide_consumed_prefix. repeat split; assumption.
Qed.

Lemma pin_re_items : pin_re = Lit (cp "p") :: Lit (cp "i") :: Lit (cp "n") :: opt "-" :: pin_tail.
Proof. reflexivity. Qed.

Lemma wide_pin_at_iff (s : text) (m : re_match) :
  match_at pin_re s = Some m <->
  exists p d rest, s = p ++ d ++ rest /\ pin_prefix p /\ six_digits d /\
                   m = MkMatch (Some d).
Proof.
  unfold match_at. rewrite pin_re_items. split.
  - destruct s as [|c1 s1]; [rewrite match_lit_nil; discriminate |].
    rewrite wide_match_lit. destruct (lit_match (cp "p") c1) eqn:H1; [| discriminate].
    destruct s1 as [|c2 s2]; [rewrite match_lit_nil; discriminate |].
    rewrite wide_match_lit. destruct (lit_match (cp "i") c2) eqn:H2; [| discriminate].
    destruct s2 as [|c3 s3]; [rewrite match_lit_nil; discriminate |].
    rewrite wide_match_lit. destruct (lit_match (cp "n") c3) eqn:H3; [| discriminate].
    apply lit_match_p in H1. apply lit_match_i in H2. apply lit_match_n in H3.
    rewrite wide_match_opt.
    assert (Hplain : forall o g,
               match_here pin_tail s3 o g = Some m ->
               exists p d rest,
                 c1 :: c2 :: c3 :: s3 = p ++ d ++ rest /\
                 pin_prefix p /\ six_digits d /\ m = MkMatch (Some d)).
    { intros o g H. apply wide_pin_tail_iff in H as (d & rest & -> & Hd & ->).
      exists [c1; c2; c3], d, rest.
      repeat split; try apply Hd. exists c1, c2, c3. auto 6. }
    destruct s3 as [|c4 s4]; [apply Hplain |].
    destruct (is_char (cp "-") c4) eqn:H4; [| apply Hplain].
    apply N.eqb_eq in H4. subst c4.
    destruct (match_here pin_tail s4 _ _) eqn:Ht; [| apply Hplain].
    intros [= ->]. apply wide_pin_tail_iff in Ht as (d & rest & -> & Hd & ->).
    exists [c1; c2; c3; cp "-"], d, rest.
    repeat split; try apply Hd. exists c1, c2, c3. auto 6.
  - intros (p & d & rest & -> & (c1 & c2 & c3 & H1 & H2 & H3 & Hp) & Hd & ->).
    assert (Ht : forall o g, match_here pin_tail (d ++ rest) o g = Some (MkMatch (Some d)))
      by (intros o g; apply wide_pin_tail_iff; eauto).
    apply lit_match_p in H1. apply lit_match_i in H2. apply lit_match_n in H3.
    destruct Hp as [-> | ->]; cbn [app]; rewrite !wide_match_lit, H1, H2, H3, wide_match_opt.
    + destruct Hd as [Hl Hdig].
      destruct d as [|d1 d]; [discriminate |].
      simpl in Hdig. apply andb_true_iff in Hdig as [Hd1 Hdig].
      cbn [app]. rewrite (wide_digit_not_dash d1 Hd1). apply (Ht _ _).
    + unfold is_char at 1. rewrite N.eqb_refl. now rewrite Ht.
Qed.

Lemma wide_occurrence_matches (addr : text) (i : nat) (d : text) :
  pin_occurrence addr i d <->
  exists pre suf, addr = pre ++ suf /\ length pre = i /\
                  match_at pin_re suf = Some (MkMatch (Some d)).
Proof.
  split.
  - intros (pre & p & post & -> & Hl & Hp & Hd).
    exists pre, (p ++ d ++ post). repeat split; [exact Hl |].
    apply wide_pin_at_iff. eauto 8.
  - intros (pre & suf & -> & Hl & Hm).
    apply wide_pin_at_iff in Hm as (p & d' & rest & -> & Hp & Hd & [= <-]).
    exists pre, p, rest. auto.
Qed.

(** ** ASCII text *)

Lemma is_ascii_app (a b : text) : is_ascii (a ++ b) <-> is_ascii a /\ is_ascii b.
Proof. apply Forall_app. Qed.

Lemma six_digits_ascii (d : text) : is_ascii d -> (six_digits d <-> six_ascii_digits d).
Proof.
  intros Ha. unfold six_digits, six_ascii_digits.
  assert (Heq : forallb is_digit d = forallb ascii_digit d).
  { induction Ha as [|c d Hc _ IH]; simpl; [reflexivity |].
    now rewrite IH, is_digit_ascii. }
  now rewrite Heq.
Qed.

Lemma six_ascii_digits_ascii (d : text) : six_ascii_digits d -> is_ascii d.
Proof.
  intros [_ Hd]. apply List.Forall_forall. intros c Hc.
  rewrite forallb_forall in Hd. specialize (Hd c Hc).
  apply andb_true_iff in Hd as [_ Hd]. apply N.leb_le in Hd.
  change (cp "9") with 57%N in Hd. lia.
Qed.

Lemma pin_prefix_ascii (p : text) : is_ascii p -> (pin_prefix p <-> ascii_pin_prefix p).
Proof.
  intros Ha. split.
  - intros (c1 & c2 & c3 & H1 & H2 & H3 & Hp). exists c1, c2, c3.
    repeat split; try assumption.
    assert (Hc2 : (c2 < 128)%N).
    { destruct Hp as [-> | ->]; inversion Ha as [|? ? _ Ha']; inversion Ha'; assumption. }
    vm_compute in H2. vm_compute.
    destruct H2 as [<- | [<- | [<- | [<- | []]]]]; auto; vm_compute in Hc2; discriminate.
  - intros (c1 & c2 & c3 & H1 & H2 & H3 & Hp). exists c1, c2, c3.
    repeat split; try assumption.
    vm_compute in H2. vm_compute. destruct H2 as [<- | [<- | []]]; auto.
Qed.

Lemma occurrence_ascii (addr : text) (i : nat) (d : text) :
  is_ascii addr -> (pin_occurrence addr i d <-> ascii_pin_occurrence addr i d).
Proof.
  intros Ha. split; intros (pre & p & post & -> & Hl & Hp & Hd);
    apply is_ascii_app in Ha as [_ Ha]; apply is_ascii_app in Ha as [Hap Ha];
    apply is_ascii_app in Ha as [Had _];
    exists pre, p, post; (split; [reflexivity |]); (split; [exact Hl |]); split;
    first [ now apply pin_prefix_ascii | now apply six_digits_ascii ].
Qed.

(** C4, as the code has it, on text of any code point: when the address
    holds "pin" or "pin-" followed by six decimal digits, the "PIN Code"
    field is that digit sequence, taken at the leftmost such place (which
    exists whenever there is one at all); when the address holds no such
    place, the field is the empty string.  Here the letters are read as
    [re.IGNORECASE] reads them (p or P; i, I, U+0130 or U+0131; n or N) and
    a digit is a decimal digit of any script, as [\d] has it.  On an
    address of ASCII characters these are "pin" or "pin-" in upper or
    lower case followed by six of the digits 0 to 9, the claim as it was
    written. *)
Theorem pin_code_of_any_text (addr : text) :
  (forall i d,
      pin_occurrence addr i d ->
      (forall j d', pin_occurrence addr j d' -> (i <= j)%nat) ->
      field "PIN Code" addr = Some d) /\
  ((exists i d, pin_occurrence addr i d) ->
   exists i d, pin_occurrence addr i d /\
               (forall j d', pin_occurrence addr j d' -> (i <= j)%nat)) /\
  ((forall i d, ~ pin_occurrence addr i d) -> field "PIN Code" addr = Some []) /\
  (is_ascii addr ->
   forall i d, pin_occurrence addr i d <-> ascii_pin_occurrence addr i d).
Proof.
  rewrite wide_field_pin. split; [| split; [| split]].
  - intros i d Hocc Hleft.
    apply wide_occurrence_matches in Hocc as (pre & suf & Haddr & Hl & Hm).
    destruct (search pin_re addr) as [m|] eqn:Hs.
    + destruct (wide_search_some _ _ _ Hs) as (pre0 & suf0 & Haddr0 & Hm0 & Hmin).
      destruct (proj1 (wide_pin_at_iff suf0 m) Hm0) as (p0 & d0 & rest0 & Hsuf0 & Hp0 & Hd0 & Hm').
      assert (Hocc0 : pin_occurrence addr (length pre0) d0)
        by (apply wide_occurrence_matches; exists pre0, suf0; subst m; auto).
      apply Hleft in Hocc0.
      assert (Hge : (length pre0 <= length pre)%nat).
      { destruct (Nat.le_gt_cases (length pre0) (length pre)) as [H | H]; [exact H |].
        rewrite (Hmin pre suf Haddr H) in Hm. discriminate. }
      assert (Hlen : length pre = length pre0) by lia.
      rewrite Haddr in Haddr0.
      destruct (app_same_length _ _ _ _ Haddr0 Hlen) as [_ ->].
      rewrite Hm in Hm0. injection Hm0 as <-.
      erewrite wide_field_value_group; [reflexivity | exact Hs].
    + rewrite (proj1 (wide_search_none _ _) Hs pre suf Haddr) in Hm. discriminate.
  - intros (i & d & Hocc).
    apply wide_occurrence_matches in Hocc as (pre & suf & Haddr & Hl & Hm).
    destruct (search pin_re addr) as [m|] eqn:Hs.
    + destruct (wide_search_some _ _ _ Hs) as (pre0 & suf0 & Haddr0 & Hm0 & Hmin).
      destruct (proj1 (wide_pin_at_iff suf0 m) Hm0) as (p0 & d0 & rest0 & Hsuf0 & Hp0 & Hd0 & Hm').
      exists (length pre0), d0. split.
      * apply wide_occurrence_matches. exists pre0, suf0. subst m. auto.
      * intros j d' Hj.
        apply wide_occurrence_matches in Hj as (pre' & suf' & Haddr' & Hl' & Hm'').
        destruct (Nat.le_gt_cases (length pre0) j) as [H | H]; [exact H |].
        rewrite <- Hl' in H. rewrite (Hmin pre' suf' Haddr' H) in Hm''. discriminate.
    + rewrite (proj1 (wide_search_none _ _) Hs pre suf Haddr) in Hm. discriminate.
  - intros Hnone. rewrite wide_field_value_none; [reflexivity |].
    apply wide_search_none. intros pre suf Haddr.
    destruct (match_at pin_re suf) as [m|] eqn:Hm; [| reflexivity].
    exfalso.
    destruct (proj1 (wide_pin_at_iff suf m) Hm) as (p & d & rest & Hsuf & Hp & Hd & ->).
    apply (Hnone (length pre) d).
    apply wide_occurrence_matches. exists pre, suf. auto.
  - intros Ha i d. now apply occurrence_ascii.
Qed.

(** Exercising C4 on ["PIN-462001, Bhopal"], on ["Bhopal"] and on the
    address with the dotless i. *)
Lemma pin_code_of_any_text_witness :
  field "PIN Code" (u "PIN-462001, Bhopal") = Some (u "462001") /\
  field "PIN Code" (u "Bhopal") = Some [] /\
  field "PIN Code" dotless_pin = Some (u "462001").
Proof.
  split; [| split].
  - apply (proj1 (pin_code_of_any_text (u "PIN-462001, Bhopal")) 0%nat (u "462001")).
    + exists [], (u "PIN-"), (u ", Bhopal"). repeat split.
      exists (cp "P"), (cp "I"), (cp "N"). vm_compute. auto 10.
    + intros j d' _. lia.
  - apply (proj1 (proj2 (proj2 (pin_code_of_any_text (u "Bhopal"))))).
    intros i d (pre & p & post & Haddr & _ & (c1 & c2 & c3 & _ & _ & _ & Hp) & [Hl _]).
    apply (f_equal (@length N)) in Haddr.
    rewrite !length_app, Hl in Haddr.
    destruct Hp as [-> | ->]; simpl in Haddr; lia.
  - apply (proj1 (pin_code_of_any_text dotless_pin) 0%nat (u "462001")).
    + exists [], (u "p" ++ [305%N] ++ u "n"), []. repeat split.
      exists (cp "p"), 305%N, (cp "n"). vm_compute. auto 10.
    + intros j d' _. lia.
Defined.

(** No place of an address of nine characters whose second one is not an
    i holds "pin" and six digits in ASCII. *)
Lemma no_ascii_pin (c1 c2 c3 : N) (d : text) (i : nat) (d' : text) :
  length d = 6%nat -> ~ In c2 (u "iI") ->
  ~ ascii_pin_occurrence ([c1; c2; c3] ++ d) i d'.
Proof.
  intros Hd Hc2 (pre & p & post & Haddr & _ & (x1 & x2 & x3 & _ & H2 & _ & Hp) & [Hl _]).
  assert (Hlen := f_equal (@length N) Haddr).
  rewrite !length_app, Hl, Hd in Hlen.
  destruct Hp as [-> | ->]; simpl in Hlen.
  - destruct pre as [|? pre]; [| simpl in Hlen; lia].
    simpl in Haddr. injection Haddr as _ <- _. contradiction.
  - lia.
Qed.

(** C4 as stated fails beyond ASCII: "pın462001", written with the
    dotless i, holds no "pin" in either letter case, yet its PIN code is
    462001; and "pin" followed by the Devanagari digits one to six holds
    none of the digits 0 to 9, yet those six characters are its PIN code. *)
Theorem pin_code_beyond_ascii :
  (field "PIN Code" dotless_pin = Some (u "462001") /\
   forall i d, ~ ascii_pin_occurrence dotless_pin i d) /\
  (field "PIN Code" devanagari_pin = Some [2407; 2408; 2409; 2410; 2411; 2412]%N /\
   forall i d, ~ ascii_pin_occurrence devanagari_pin i d).
Proof.
  split; split.
  - vm_compute. reflexivity.
  - intros i d. apply (no_ascii_pin (cp "p") 305%N (cp "n") (u "462001") i d).
    + reflexivity.
    + vm_compute. intros [H | [H | []]]; discriminate H.
  - vm_compute. reflexivity.
  - intros i d (pre & p & post & Haddr & _ & (x1 & x2 & x3 & _ & _ & _ & Hp) & [Hl Hdig]).
    assert (Hlen := f_equal (@length N) Haddr).
    rewrite !length_app, Hl in Hlen.
    destruct Hp as [-> | ->]; simpl in Hlen; [| lia].
    destruct pre as [|? pre]; [| simpl in Hlen; lia].
    destruct post as [|? post]; [| simpl in Hlen; lia].
    simpl in Haddr. rewrite app_nil_r in Haddr. injection Haddr as _ _ _ <-.
    vm_compute in Hdig. discriminate Hdig.
Qed.

End UnicodeFacts.

(* ===================================================================== *)
(** * The 8-bit model is the model on code points, restricted *)
(* ===================================================================== *)

Module BridgeFacts.
Import Unicode UnicodeRe UnicodeAddress Reading UnicodeFacts.
Local Open Scope list_scope.

(** ** Text *)

Lemma u_cons (c : ascii) (s : string) : u (String c s) = cp c :: u s.
Proof. reflexivity. Qed.

Lemma u_length (s : string) : length (u s) = String.length s.
Proof. induction s as [|c s IH]; [reflexivity |]. rewrite u_cons. simpl. now rewrite IH. Qed.

Lemma u_substring (n : nat) (s : string) : u (substring 0 n s) = firstn n (u s).
Proof.
  revert n. induction s as [|c s IH]; intros [|n]; try reflexivity.
  simpl substring. rewrite !u_cons. simpl. now rewrite IH.
Qed.

Lemma in_all_ascii (c : ascii) : In c all_ascii.
Proof.
  unfold all_ascii. rewrite <- (ascii_nat_embedding c).
  apply in_map, in_seq. pose proof (nat_ascii_bounded c). lia.
Qed.

Lemma for_all_ascii (p : ascii -> bool) :
  forallb p all_ascii = true -> forall c, p c = true.
Proof. intros H c. rewrite forallb_forall in H. apply H, in_all_ascii. Qed.

Lemma for_all_ascii2 (p : ascii -> ascii -> bool) :
  forallb (fun c => forallb (p c) all_ascii) all_ascii = true ->
  forall c d, p c d = true.
Proof.
  intros H c d. apply (for_all_ascii (p c)). apply (for_all_ascii _ H).
Qed.

(** ** The character data, below 256 *)

Lemma cp_eqb (c d : ascii) : N.eqb (cp c) (cp d) = Ascii.eqb c d.
Proof.
  apply eqb_true_iff.
  apply (for_all_ascii2 (fun c d => Bool.eqb (N.eqb (cp c) (cp d)) (Ascii.eqb c d))).
  vm_compute. reflexivity.
Qed.

Lemma is_space_same (d : ascii) : is_space (cp d) = Text.is_space d.
Proof.
  apply eqb_true_iff.
  apply (for_all_ascii (fun d => Bool.eqb (is_space (cp d)) (Text.is_space d))).
  vm_compute. reflexivity.
Qed.

Lemma is_digit_same (d : ascii) : is_digit (cp d) = Text.is_digit d.
Proof.
  apply eqb_true_iff.
  apply (for_all_ascii (fun d => Bool.eqb (is_digit (cp d)) (Text.is_digit d))).
  vm_compute. reflexivity.
Qed.

Lemma not_comma_dot_same (d : ascii) : not_comma_dot (cp d) = Re.not_comma_dot d.
Proof.
  apply eqb_true_iff.
  apply (for_all_ascii (fun d => Bool.eqb (not_comma_dot (cp d)) (Re.not_comma_dot d))).
  vm_compute. reflexivity.
Qed.

Lemma not_p_same (d : ascii) : not_p (cp d) = Re.not_p d.
Proof.
  apply eqb_true_iff.
  apply (for_all_ascii (fun d => Bool.eqb (not_p (cp d)) (Re.not_p d))).
  vm_compute. reflexivity.
Qed.

Lemma is_char_same (c d : ascii) : is_char (cp c) (cp d) = Re.is_char c d.
Proof. apply cp_eqb. Qed.

(** Every literal below 256 matches the same characters below 256 in
    both models. *)
Lemma lit_match_same (c d : ascii) : lit_match (cp c) (cp d) = Re.ci_eqb c d.
Proof.
  apply eqb_true_iff.
  apply (for_all_ascii2 (fun c d => Bool.eqb (lit_match (cp c) (cp d)) (Re.ci_eqb c d))).
  vm_compute. reflexivity.
Qed.

(** ** The matcher *)

Lemma rep_greedy_same (cls : ascii -> bool) (cls' : N -> bool)
      (k : string -> option Re.re_match) (k' : text -> option re_match) :
  (forall d, cls' (cp d) = cls d) ->
  (forall s, k' (u s) = option_map wide_match (k s)) ->
  forall s lo hi,
    rep_greedy cls' k' lo hi (u s) = option_map wide_match (Re.rep_greedy cls k lo hi s).
Proof.
  intros Hcls Hk. induction s as [|c s IH]; intros lo hi.
  - simpl. destruct lo; [apply (Hk "") | reflexivity].
  - rewrite u_cons. simpl. rewrite Hcls.
    destruct (cls c && Re.hi_allows hi).
    + rewrite IH. destruct (Re.rep_greedy cls k (Nat.pred lo) (Re.hi_pred hi) s); simpl;
        [reflexivity |].
      destruct lo; [apply (Hk (String c s)) | reflexivity].
    + destruct lo; [apply (Hk (String c s)) | reflexivity].
Qed.

Lemma match_here_same (pat : Re.pattern) (pat' : pattern) :
  Forall2 same_item pat pat' ->
  forall s opened g,
    match_here pat' (u s) (u opened) (option_map u g)
    = option_map wide_match (Re.match_here pat s opened g).
Proof.
  induction 1 as [|it it' pat pat' Hit _ IH]; intros s opened g; [reflexivity |].
  destruct Hit as [c | cls cls' lo hi Hcls | |].
  - destruct s as [|d s]; [reflexivity |].
    rewrite u_cons. simpl. rewrite lit_match_same.
    destruct (Re.ci_eqb c d); [apply IH | reflexivity].
  - simpl. apply rep_greedy_same; [exact Hcls |]. intros s'. apply IH.
  - simpl. apply IH.
  - simpl. rewrite !u_length, <- u_substring.
    apply (IH s opened (Some (substring 0 (String.length opened - String.length s) opened))).
Qed.

Lemma match_at_same (pat : Re.pattern) (pat' : pattern) (s : string) :
  Forall2 same_item pat pat' ->
  match_at pat' (u s) = option_map wide_match (Re.match_at pat s).
Proof. intros Hpat. exact (match_here_same pat pat' Hpat s s None). Qed.

Lemma search_same (pat : Re.pattern) (pat' : pattern) :
  Forall2 same_item pat pat' ->
  forall s, search pat' (u s) = option_map wide_match (Re.search pat s).
Proof.
  intros Hpat. induction s as [|c s IH].
  - change (u "") with (@nil N). cbn [search Re.search].
    change (@nil N) with (u ""). rewrite (match_at_same pat pat' "" Hpat).
    destruct (Re.match_at pat ""); reflexivity.
  - rewrite u_cons. cbn [search Re.search]. rewrite <- u_cons.
    rewrite (match_at_same pat pat' (String c s) Hpat).
    destruct (Re.match_at pat (String c s)); [reflexivity | exact IH].
Qed.

Lemma field_value_same (pat : Re.pattern) (pat' : pattern) (addr : string) :
  Forall2 same_item pat pat' ->
  field_value pat' (u addr) = u (Address.field_value pat addr).
Proof.
  intros Hpat. unfold field_value, Address.field_value.
  rewrite (search_same pat pat' Hpat).
  destruct (Re.search pat addr) as [[[g|]]|]; reflexivity.
Qed.

Lemma starts_with_same (a b : string) : starts_with (u a) (u b) = String.prefix a b.
Proof.
  revert b. induction a as [|x a IH]; intros b; [destruct b; reflexivity |].
  destruct b as [|y b]; [reflexivity |].
  rewrite !u_cons. simpl. rewrite cp_eqb, IH.
  destruct (ascii_dec x y) as [-> | Hne].
  - now rewrite Ascii.eqb_refl.
  - apply Ascii.eqb_neq in Hne. now rewrite Hne.
Qed.

Lemma contains_same (a b : string) : contains (u a) (u b) = Text.contains a b.
Proof.
  induction b as [|y b IH].
  - destruct a; reflexivity.
  - pose proof (starts_with_same a (String y b)) as H.
    rewrite u_cons in H |- *. cbn [contains Text.contains]. now rewrite H, IH.
Qed.

(** ** The patterns *)

Lemma lits_same (s : string) : Forall2 same_item (Re.lits s) (lits s).
Proof.
  unfold lits. induction s as [|c s IH]; [constructor |].
  rewrite u_cons. simpl. constructor; [constructor | exact IH].
Qed.

Lemma value_group_same : Forall2 same_item Re.value_group value_group.
Proof.
  repeat constructor. apply not_comma_dot_same.
Qed.

Lemma opt_same (c : ascii) : same_item (Re.opt c) (opt c).
Proof. constructor. intros d. apply is_char_same. Qed.

Lemma star_space_same : same_item (Re.star Text.is_space) (star is_space).
Proof. constructor. apply is_space_same. Qed.

Lemma patterns_same :
  Forall2 (fun kp kp' => fst kp = fst kp' /\ Forall2 same_item (snd kp) (snd kp'))
          Address.patterns patterns.
Proof.
  unfold Address.patterns, patterns.
  repeat (apply List.Forall2_cons; [split; [reflexivity |] |]); try apply List.Forall2_nil;
    cbn [snd];
    unfold Address.ward_colony_re, ward_colony_re, Address.district_re, district_re,
      Address.village_re, village_re, Address.sub_area_re, sub_area_re,
      Address.tehsil_re, tehsil_re, Address.pin_re, pin_re,
      Address.landmark_re, landmark_re;
    repeat first
      [ apply lits_same | apply value_group_same | apply opt_same | apply star_space_same
      | apply Forall2_app | apply List.Forall2_cons | apply List.Forall2_nil
      | apply same_lit | apply same_open | apply same_close
      | apply same_rep;
        first [ apply is_digit_same | apply is_space_same | apply not_p_same ] ].
Qed.

(** X29: on text whose code points lie below 256, the 8-bit model of
    [parse_address] used in the rest of the development and the model on
    code points give the same dictionary: the 8-bit model is the
    restriction of the other. *)
Theorem latin1_model_is_restriction (addr : string) :
  parse_address (u addr) =
    map (fun kv => (fst kv, u (snd kv))) (Address.parse_address addr).
Proof.
  rewrite wide_parse_address_items, AddressFacts.parse_address_items.
  pose proof patterns_same as Hp. unfold Address.patterns, patterns in Hp.
  repeat match type of Hp with
         | Forall2 _ (_ :: _) (_ :: _) =>
             let H := fresh "H" in
             apply Forall2_cons_iff in Hp as [[_ H] Hp]; simpl in H;
             apply (field_value_same _ _ addr) in H
         end.
  cbn [map fst snd].
  rewrite !(contains_same _ addr).
  repeat match goal with H : field_value _ _ = _ |- _ => rewrite H; clear H end.
  destruct (Text.contains "Madhya Pradesh" addr), (Text.contains "India" addr);
    reflexivity.
Qed.

(** X30: for every text of any code points, the empty one included,
    [parse_address] returns exactly the nine fixed keys in their order;
    the empty address maps each of them to the empty string. *)
Theorem nine_keys_on_any_text (addr : text) :
  Dict.keys (parse_address addr) = Address.address_keys /\
  parse_address [] = map (fun k => (k, [])) Address.address_keys.
Proof. split; [rewrite wide_parse_address_items |]; reflexivity. Qed.

End BridgeFacts.

(* ===================================================================== *)
(** * [save_to_db]: pairing labels with values *)
(* ===================================================================== *)

Module StoreFacts.
Import Eff Store Props.

Lemma get_set {V} (k k' : string) (v : V) (d : Dict.dict V) :
  Dict.get k (Dict.set k' v d) = if String.eqb k' k then Some v else Dict.get k d.
Proof.
  induction d as [|[k0 v0] d IH]; simpl.
  - reflexivity.
  - destruct (String.eqb k0 k') eqn:E0; simpl.
    + apply String.eqb_eq in E0. subst k0.
      destruct (String.eqb k' k); reflexivity.
    + rewrite IH. destruct (String.eqb k0 k) eqn:E1; [| reflexivity].
      apply String.eqb_eq in E1. subst k0. now rewrite String.eqb_sym, E0.
Qed.

Lemma length_set {V} (k : string) (v : V) (d : Dict.dict V) :
  (length (Dict.set k v d) <= S (length d))%nat.
Proof.
  induction d as [|[k0 v0] d IH]; simpl; [lia |].
  destruct (String.eqb k0 k); simpl; lia.
Qed.

Lemma of_pairs_snoc {V} (ps : list (string * V)) (k : string) (v : V) :
  Dict.of_pairs (ps ++ [(k, v)]) = Dict.set k v (Dict.of_pairs ps).
Proof. unfold Dict.of_pairs. now rewrite fold_left_app. Qed.

Lemma length_of_pairs {V} (ps : list (string * V)) :
  (length (Dict.of_pairs ps) <= length ps)%nat.
Proof.
  induction ps as [|[k v] ps IH] using rev_ind; [simpl; lia |].
  rewrite of_pairs_snoc, length_app. simpl.
  pose proof (length_set k v (Dict.of_pairs ps)). lia.
Qed.

(** A dictionary built from pairs maps a key to the value of its last pair. *)
Lemma get_of_pairs {V} (ps : list (string * V)) (k : string) (v : V) :
  Dict.get k (Dict.of_pairs ps) = Some v <->
  exists i, ps !! i = Some (k, v) /\
            forall j v', (i < j)%nat -> ps !! j <> Some (k, v').
Proof.
  revert v. induction ps as [|[k' v'] ps IH] using rev_ind; intros v.
  - simpl. split; [discriminate |]. intros (i & H & _). discriminate.
  - rewrite of_pairs_snoc, get_set. destruct (String.eqb k' k) eqn:E.
    + apply String.eqb_eq in E. subst k'. split.
      * intros [= ->]. exists (length ps). split.
        -- rewrite lookup_app_r, Nat.sub_diag by lia. reflexivity.
        -- intros j v0 Hj. rewrite lookup_ge_None_2; [discriminate |].
           rewrite length_app. simpl. lia.
      * intros (i & Hi & Hlast).
        destruct (Nat.lt_ge_cases i (length ps)) as [Hlt | Hge].
        -- exfalso. apply (Hlast (length ps) v' Hlt).
           rewrite lookup_app_r, Nat.sub_diag by lia. reflexivity.
        -- pose proof (lookup_lt_Some _ _ _ Hi) as Hb.
           rewrite length_app in Hb. simpl in Hb.
           assert (i = length ps) by lia. subst i.
           rewrite lookup_app_r, Nat.sub_diag in Hi by lia.
           simpl in Hi. congruence.
    + rewrite IH. apply String.eqb_neq in E. split.
      * intros (i & Hi & Hlast). exists i. split.
        -- rewrite lookup_app_l; [exact Hi |]. now apply lookup_lt_Some in Hi.
        -- intros j v0 Hj Hc.
           destruct (Nat.lt_ge_cases j (length ps)) as [Hlt | Hge].
           ++ rewrite lookup_app_l in Hc by exact Hlt. now apply (Hlast j v0).
           ++ rewrite lookup_app_r in Hc by exact Hge.
              destruct (j - length ps)%nat as [|[|n]]; simpl in Hc;
                [injection Hc as -> _; now apply E | discriminate | discriminate].
      * intros (i & Hi & Hlast).
        destruct (Nat.lt_ge_cases i (length ps)) as [Hlt | Hge].
        -- exists i. rewrite lookup_app_l in Hi by exact Hlt. split; [exact Hi |].
           intros j v0 Hj Hc. apply (Hlast j v0 Hj).
           rewrite lookup_app_l; [exact Hc |]. now apply lookup_lt_Some in Hc.
        -- rewrite lookup_app_r in Hi by exact Hge.
           destruct (i - length ps)%nat as [|[|n]]; simpl in Hi;
             [injection Hi as -> _; now destruct E | discriminate | discriminate].
  Qed.

Lemma zip_lookup {A B} (xs : list A) (ys : list B) (i : nat) (x : A) (y : B) :
  Dict.zip xs ys !! i = Some (x, y) <-> xs !! i = Some x /\ ys !! i = Some y.
Proof.
  unfold Dict.zip. revert ys i.
  induction xs as [|x0 xs IH]; intros [|y0 ys] [|i]; simpl;
    try (split; [discriminate | intros [? ?]; discriminate]).
  - split; [intros [= -> ->]; auto | intros [[= ->] [= ->]]; reflexivity].
  - apply IH.
Qed.

Lemma length_zip {A B} (xs : list A) (ys : list B) :
  length (Dict.zip xs ys) = Nat.min (length xs) (length ys).
Proof. apply length_combine. Qed.

Lemma zip_firstn {A B} (xs : list A) (ys : list B) :
  let m := Nat.min (length xs) (length ys) in
  Dict.zip (firstn m xs) (firstn m ys) = Dict.zip xs ys.
Proof.
  unfold Dict.zip. revert ys.
  induction xs as [|x xs IH]; intros [|y ys]; simpl; try reflexivity.
  f_equal. apply IH.
Qed.

Lemma section_dict_paired (sec : section) :
  paired_up_to_shorter (fst sec) (snd sec) (section_dict sec).
Proof.
  destruct sec as [labels values]. unfold paired_up_to_shorter, section_dict. simpl.
  split; [now rewrite zip_firstn | split].
  - rewrite <- length_zip. apply length_of_pairs.
  - intros k v. rewrite get_of_pairs. split.
    + intros (i & Hi & Hlast). exists i.
      apply zip_lookup in Hi as [Hk Hv].
      pose proof (lookup_lt_Some _ _ _ Hk). pose proof (lookup_lt_Some _ _ _ Hv).
      repeat split; [lia | exact Hk | exact Hv |].
      intros j [Hij Hjm] Hc.
      destruct (lookup_lt_is_Some_2 values j) as [v' Hv']; [lia |].
      apply (Hlast j v' Hij). apply zip_lookup. auto.
    + intros (i & Him & Hk & Hv & Hlast). exists i. split.
      * apply zip_lookup. auto.
      * intros j v' Hij Hc. apply zip_lookup in Hc as [Hk' Hv'].
        pose proof (lookup_lt_Some _ _ _ Hk'). pose proof (lookup_lt_Some _ _ _ Hv').
        apply (Hlast j); [lia | exact Hk'].
Qed.

(** Three labels against two values: the third label is dropped. *)
Example section_dict_drops_excess :
  section_dict (["Deed"; "Date"; "Fee"], ["Sale"; "01-01-2023"])
    = [("Deed", "Sale"); ("Date", "01-01-2023")] /\
  section_dict (["Deed"], ["Sale"; "01-01-2023"]) = [("Deed", "Sale")].
Proof. split; reflexivity. Qed.

(** C6: [save_to_db] stores, for each of the five sections, the dictionary
    of [zip(labels, values)]: label [i] goes with value [i] for the
    positions [i] below the shorter of the two lengths only; whatever the
    longer list has beyond that is dropped, and nothing is padded. *)
Theorem save_to_db_pairs_up_to_shorter (s0 s1 s2 s3 s4 : section) (st : state) :
  save_to_db (Got tt) [s0; s1; s2; s3; s4] st =
    (Ok tt,
     set_records
       (records st ++
          [MkRecord (section_dict s0) (section_dict s1) (section_dict s2)
                    (section_dict s3) (section_dict s4)]) st) /\
  Forall (fun sec => paired_up_to_shorter (fst sec) (snd sec) (section_dict sec))
         [s0; s1; s2; s3; s4].
Proof.
  split; [reflexivity |].
  repeat constructor; apply section_dict_paired.
Qed.

End StoreFacts.

(* ===================================================================== *)
(** * The relay: exactly-once consumption, no empty answers *)
(* ===================================================================== *)

Module RelayFacts.
Import Text TextFacts Eff Relay Props.
Local Open Scope eff_scope.

Lemma set_clock_same (s : state) : set_clock (now s) (naps s) s = s.
Proof. destruct s; reflexivity. Qed.

Lemma slept_0 (d : Z) (s : state) : slept 0 d s = s.
Proof.
  unfold slept. rewrite Z.add_0_r, Nat.add_0_r. apply set_clock_same.
Qed.

Lemma slept_S (n : nat) (d : Z) (s : state) :
  slept n d (set_clock (now s + d)%Z (S (naps s)) s) = slept (S n) d s.
Proof.
  unfold slept, set_clock. simpl. f_equal; lia.
Qed.

(** ** The intake side *)

(** [get_status] always answers, and touches nothing but the cache slot
    of the latest run, and only for a request that supplies an answer. *)
Lemma get_status_effect (req : request) (s : state) :
  exists page,
    get_status req s =
      (Ok page,
       if submits req then
         match head (runs s) with
         | Some r =>
             set_cache (<[CAPTCHA_CACHE_KEY r := (submitted_text req, (now s + 300)%Z)]>
                          (cache s)) s
         | None => s
         end
       else s).
Proof.
  unfold get_status, submits, submitted_text, bind, latest_run, get_state, ret,
    cache_set, modify.
  destruct (String.eqb (method req) "POST"); simpl; [| eauto].
  destruct (truthy _); simpl; [| eauto].
  destruct (head (runs s)); simpl; eauto.
Qed.

Lemma serve_quiet (reqs : list request) (s : state) :
  forallb (fun r => negb (submits r)) reqs = true -> serve reqs s = (Ok tt, s).
Proof.
  induction reqs as [|r reqs IH]; simpl; [reflexivity |].
  intros H. apply andb_true_iff in H as [Hr Hq].
  destruct (get_status_effect r s) as [page Hg].
  unfold bind. rewrite Hg. apply negb_true_iff in Hr. rewrite Hr. now apply IH.
Qed.

Lemma sleep_quiet (intake : nat -> list request) (d : Z) (s : state) :
  no_submission intake s ->
  sleep intake d s = (Ok tt, set_clock (now s + d)%Z (S (naps s)) s).
Proof.
  intros Hq. unfold sleep, bind, get_state, modify.
  apply serve_quiet. apply Hq. lia.
Qed.

Lemma no_submission_later (intake : nat -> list request) (t : Z) (s : state) :
  no_submission intake s ->
  no_submission intake (set_clock t (S (naps s)) s).
Proof. intros Hq n Hn. apply Hq. simpl in Hn. lia. Qed.

(** ** The polling loop *)

Lemma idle_get (key : string) (s : state) :
  idle key s ->
  cache_get key s = (Ok None, s) \/ cache_get key s = (Ok (Some ""), s).
Proof.
  unfold idle, cache_get. destruct (cache s !! key) as [[v expires]|]; [| auto].
  intros [-> | H].
  - destruct (now s <? expires)%Z; auto.
  - apply Z.ltb_ge in H. rewrite H. auto.
Qed.

Lemma idle_later (key : string) (d : Z) (n : nat) (s : state) :
  (0 < d)%Z -> idle key s -> idle key (set_clock (now s + d)%Z n s).
Proof.
  unfold idle. simpl. destruct (cache s !! key) as [[v expires]|]; [| auto].
  intros Hd [-> | H]; [auto | right; lia].
Qed.

(** With nothing to read and nothing submitted, the loop sleeps until
    [waited] reaches [timeout] and answers [None]. *)
Lemma poll_idle (intake : nat -> list request) (key : string)
      (timeout poll_interval : Z) (fuel : nat) (waited : Z) (s : state) :
  (0 < poll_interval)%Z ->
  (Z.to_nat (timeout - waited) <= fuel)%nat ->
  idle key s -> no_submission intake s ->
  exists n,
    poll intake fuel key timeout poll_interval waited s
      = (Ok None, slept n poll_interval s) /\
    (timeout <= waited + Z.of_nat n * poll_interval)%Z /\
    (n = 0%nat \/ (waited + (Z.of_nat n - 1) * poll_interval < timeout)%Z).
Proof.
  intros Hp. revert waited s.
  induction fuel as [|fuel IH]; intros waited s Hfuel Hidle Hq.
  - exists 0%nat. rewrite slept_0. simpl.
    assert (Hw : (waited <? timeout)%Z = false) by (apply Z.ltb_ge; lia).
    rewrite Hw. repeat split; [lia | auto].
  - simpl. destruct (waited <? timeout)%Z eqn:Hw.
    + apply Z.ltb_lt in Hw.
      destruct (IH (waited + poll_interval)%Z
                   (set_clock (now s + poll_interval)%Z (S (naps s)) s))
        as (n & Hn & Hge & Hlast).
      * lia.
      * now apply idle_later.
      * now apply no_submission_later.
      * exists (S n). rewrite <- slept_S. split; [| split; [lia | right; lia]].
        unfold bind at 1.
        destruct (idle_get key s Hidle) as [-> | ->]; simpl;
          unfold bind; rewrite (sleep_quiet intake poll_interval s Hq); exact Hn.
    + exists 0%nat. rewrite slept_0. apply Z.ltb_ge in Hw.
      repeat split; [lia | auto].
Qed.

(** A value in the slot is returned by the first poll, which clears it. *)
Lemma poll_present (intake : nat -> list request) (run_id : nat) (v : string)
      (timeout poll_interval : Z) (fuel : nat) (s : state) :
  (0 < timeout)%Z -> slot_holds run_id v s -> v <> "" ->
  poll intake (S fuel) (CAPTCHA_CACHE_KEY run_id) timeout poll_interval 0 s
    = (Ok (Some v), set_cache (delete (CAPTCHA_CACHE_KEY run_id) (cache s)) s).
Proof.
  intros Ht (expires & Hc & Hexp) Hv. simpl.
  assert (Hw : (0 <? timeout)%Z = true) by (apply Z.ltb_lt; lia).
  rewrite Hw. unfold bind at 1, cache_get. rewrite Hc.
  apply Z.ltb_lt in Hexp. rewrite Hexp.
  apply truthy_nonempty in Hv. rewrite Hv. reflexivity.
Qed.

(** The loop never answers with the empty string. *)
Lemma poll_never_empty (intake : nat -> list request) (key : string)
      (timeout poll_interval : Z) (fuel : nat) (waited : Z) (s s' : state) :
  poll intake fuel key timeout poll_interval waited s <> (Ok (Some ""), s').
Proof.
  revert waited s. induction fuel as [|fuel IH]; intros waited s; simpl.
  - destruct (waited <? timeout)%Z; discriminate.
  - destruct (waited <? timeout)%Z; [| discriminate].
    unfold bind at 1, cache_get.
    assert (Hnext : forall s0,
               (sleep intake poll_interval >>>
                poll intake fuel key timeout poll_interval (waited + poll_interval)%Z) s0
               <> (Ok (Some ""), s')).
    { intros s0. unfold bind.
      destruct (sleep intake poll_interval s0) as [[[]|ex|] s1]; try discriminate.
      apply IH. }
    destruct (cache s !! key) as [[v expires]|]; [| apply Hnext].
    destruct (now s <? expires)%Z; [| apply Hnext].
    destruct v as [|c v]; [apply Hnext |].
    simpl. discriminate.
Qed.

Lemma strip_trimmed (x : string) : trimmed (strip x).
Proof. split; intros c; [apply strip_first | apply strip_last]. Qed.

(** C2: when the slot holds a non-empty answer as [_wait_for_captcha_value]
    is called (with a positive timeout), the call returns that answer from
    its first poll, before any sleep, and leaves the slot empty; a second
    call with no submission in between then polls until the timeout and
    returns [None].  Each submitted value is consumed once. *)
Theorem await_consumes_exactly_once
    (intake : nat -> list request) (fuel run_id : nat)
    (timeout poll_interval : Z) (v : string) (s : state) :
  (0 < timeout)%Z -> (0 < poll_interval)%Z -> (Z.to_nat timeout <= fuel)%nat ->
  slot_holds run_id v s -> v <> "" ->
  exists s1,
    _wait_for_captcha_value intake fuel run_id timeout poll_interval s
      = (Ok (Some v), s1) /\
    now s1 = now s /\ naps s1 = naps s /\
    slot_empty run_id s1 /\
    (no_submission intake s1 ->
     exists n,
       _wait_for_captcha_value intake fuel run_id timeout poll_interval s1
         = (Ok None, slept n poll_interval s1) /\
       (timeout <= Z.of_nat n * poll_interval)%Z /\
       slot_empty run_id (slept n poll_interval s1)).
Proof.
  intros Ht Hp Hfuel Hslot Hv. unfold _wait_for_captcha_value.
  destruct fuel as [|fuel]; [lia |].
  rewrite (poll_present intake run_id v timeout poll_interval fuel s Ht Hslot Hv).
  eexists. split; [reflexivity |].
  assert (Hempty : slot_empty run_id
                     (set_cache (delete (CAPTCHA_CACHE_KEY run_id) (cache s)) s))
    by (unfold slot_empty; simpl; apply lookup_delete_eq).
  repeat split; [exact Hempty |].
  intros Hq.
  set (s1 := set_cache (delete (CAPTCHA_CACHE_KEY run_id) (cache s)) s) in *.
  assert (Hidle : idle (CAPTCHA_CACHE_KEY run_id) s1)
    by (unfold idle; now rewrite Hempty).
  assert (Hf : (Z.to_nat (timeout - 0) <= S fuel)%nat)
    by (now rewrite Z.sub_0_r).
  destruct (poll_idle intake (CAPTCHA_CACHE_KEY run_id) timeout poll_interval
                      (S fuel) 0 s1 Hp Hf Hidle Hq) as (n & Hn & Hge & _).
  exists n. repeat split; [exact Hn | lia | exact Hempty].
Qed.

(** Exercising C2: the answer ["X7K2"] is waiting, the timeout is 180 s. *)
Lemma await_consumes_exactly_once_witness :
  exists s1,
    _wait_for_captcha_value silent 180 1 180 1 answered_state = (Ok (Some "X7K2"), s1) /\
    now s1 = now answered_state /\ naps s1 = naps answered_state /\
    slot_empty 1 s1 /\
    (no_submission silent s1 ->
     exists n,
       _wait_for_captcha_value silent 180 1 180 1 s1 = (Ok None, slept n 1 s1) /\
       (180 <= Z.of_nat n * 1)%Z /\
       slot_empty 1 (slept n 1 s1)).
Proof.
  apply (await_consumes_exactly_once silent 180 1 180 1 "X7K2" answered_state).
  - lia.
  - lia.
  - vm_compute. lia.
  - exists 300%Z. split; [reflexivity | reflexivity].
  - discriminate.
Defined.

(** C10: [_wait_for_captcha_value] never returns the empty string; a slot
    that holds an empty value is passed over like an absent one, the loop
    polling on until the timeout; and [get_status] stores a value in the
    slot only when the submitted text, stripped of surrounding white
    space, is non-empty, and then stores exactly that stripped text. *)
Theorem await_never_returns_empty :
  (forall intake fuel run_id timeout poll_interval s s',
      _wait_for_captcha_value intake fuel run_id timeout poll_interval s
        <> (Ok (Some ""), s')) /\
  (forall intake fuel run_id timeout poll_interval s expires,
      (0 < poll_interval)%Z -> (Z.to_nat timeout <= fuel)%nat ->
      cache s !! CAPTCHA_CACHE_KEY run_id = Some ("", expires) ->
      no_submission intake s ->
      exists n,
        _wait_for_captcha_value intake fuel run_id timeout poll_interval s
          = (Ok None, slept n poll_interval s) /\
        (timeout <= Z.of_nat n * poll_interval)%Z /\
        (n = 0%nat \/ ((Z.of_nat n - 1) * poll_interval < timeout)%Z)) /\
  (forall req s,
      exists page s',
        get_status req s = (Ok page, s') /\
        (s' = s \/
         exists r,
           s' = set_cache (<[CAPTCHA_CACHE_KEY r := (submitted_text req, (now s + 300)%Z)]>
                             (cache s)) s /\
           submitted_text req <> "" /\ trimmed (submitted_text req))).
Proof.
  split; [| split].
  - intros. apply poll_never_empty.
  - intros intake fuel run_id timeout poll_interval s expires Hp Hfuel Hc Hq.
    unfold _wait_for_captcha_value.
    assert (Hidle : idle (CAPTCHA_CACHE_KEY run_id) s)
      by (unfold idle; rewrite Hc; auto).
    assert (Hf : (Z.to_nat (timeout - 0) <= fuel)%nat)
      by (now rewrite Z.sub_0_r).
    destruct (poll_idle intake (CAPTCHA_CACHE_KEY run_id) timeout poll_interval
                        fuel 0 s Hp Hf Hidle Hq) as (n & Hn & Hge & Hlast).
    exists n. repeat split; [exact Hn | lia | destruct Hlast; [auto | right; lia]].
  - intros req s. destruct (get_status_effect req s) as [page Hg].
    eexists; eexists; split; [exact Hg |].
    destruct (submits req) eqn:Hs; [| auto].
    destruct (head (runs s)) as [r|]; [| auto].
    right. exists r. split; [reflexivity |].
    unfold submits in Hs. apply andb_true_iff in Hs as [_ Hs].
    split; [now apply truthy_nonempty | apply strip_trimmed].
Qed.

(** Exercising C10: the slot holds an empty value, nobody answers, the
    timeout is 3 s. *)
Lemma await_never_returns_empty_witness :
  exists n,
    _wait_for_captcha_value silent 3 1 3 1 blank_state = (Ok None, slept n 1 blank_state) /\
    (3 <= Z.of_nat n * 1)%Z /\
    (n = 0%nat \/ ((Z.of_nat n - 1) * 1 < 3)%Z).
Proof.
  apply (proj1 (proj2 await_never_returns_empty) silent 3%nat 1%nat 3%Z 1%Z blank_state 300%Z).
  - lia.
  - vm_compute. lia.
  - reflexivity.
  - intros n _. reflexivity.
Defined.

End RelayFacts.

(* ===================================================================== *)
(** * [_screenshot_element]: when the crop is non-empty *)
(* ===================================================================== *)

Module CaptureFacts.
Import Eff Pynum Capture Props.
Local Open Scope Z_scope.

(** The function in terms of its four scaled edges. *)
Lemma screenshot_of_edges
    (dpr : option number) (img_width img_height : Z) (x y w h : number) (l t r b : Z) :
  pixel_of x (dpr_or_1 dpr) = Ok l -> pixel_of y (dpr_or_1 dpr) = Ok t ->
  far_pixel_of x w (dpr_or_1 dpr) = Ok r -> far_pixel_of y h (dpr_or_1 dpr) = Ok b ->
  _screenshot_element (MkCapture dpr (img_width, img_height) (x, y) (w, h)) =
    crop (Z.max 0 l, Z.max 0 t, Z.min img_width r, Z.min img_height b).
Proof.
  unfold pixel_of, far_pixel_of, _screenshot_element, crop_box. simpl.
  intros -> -> -> ->. reflexivity.
Qed.

(** What a returned image says about the edges. *)
Lemma screenshot_edges (o : capture_obs) (img : image) :
  _screenshot_element o = Ok img ->
  exists l t r b,
    pixel_of (fst (co_location o)) (dpr_or_1 (co_dpr o)) = Ok l /\
    pixel_of (snd (co_location o)) (dpr_or_1 (co_dpr o)) = Ok t /\
    far_pixel_of (fst (co_location o)) (fst (co_size o)) (dpr_or_1 (co_dpr o)) = Ok r /\
    far_pixel_of (snd (co_location o)) (snd (co_size o)) (dpr_or_1 (co_dpr o)) = Ok b /\
    Z.max 0 l <= Z.min (fst (co_png o)) r /\
    Z.max 0 t <= Z.min (snd (co_png o)) b /\
    img = MkImage (Z.min (fst (co_png o)) r - Z.max 0 l)
                  (Z.min (snd (co_png o)) b - Z.max 0 t).
Proof.
  destruct o as [dpr [W H] [x y] [w h]].
  unfold _screenshot_element, crop_box, pixel_of, far_pixel_of. simpl.
  destruct (and_then (mul x (dpr_or_1 dpr)) int_of) as [l| |]; simpl; try discriminate.
  destruct (and_then (mul y (dpr_or_1 dpr)) int_of) as [t| |]; simpl; try discriminate.
  destruct (and_then (and_then (add x w) _) int_of) as [r| |]; simpl; try discriminate.
  destruct (and_then (and_then (add y h) _) int_of) as [b| |]; simpl; try discriminate.
  destruct (Z.min W r <? Z.max 0 l) eqn:Hx; [discriminate |].
  destruct (Z.min H b <? Z.max 0 t) eqn:Hy; [discriminate |].
  apply Z.ltb_ge in Hx, Hy. intros [= <-]. exists l, t, r, b. auto 10.
Qed.

Lemma float_of_int_error (z : Z) (e : exn) :
  float_of_int z = Raise e -> arithmetic_error e.
Proof.
  unfold float_of_int.
  destruct (binary_normalize prec emax z 0 false); intros [= <-]. left. eauto.
Qed.

Lemma float_of_int_runs (z : Z) : float_of_int z <> OutOfFuel.
Proof. unfold float_of_int. destruct (binary_normalize prec emax z 0 false); discriminate. Qed.

Lemma arith_error (fi : Z -> Z -> Z) (ff : spec_float -> spec_float -> spec_float)
      (a b : number) :
  (forall e, arith fi ff a b = Raise e -> arithmetic_error e) /\
  arith fi ff a b <> OutOfFuel.
Proof.
  unfold arith, as_float.
  destruct a as [x | x], b as [y | y]; simpl; try (split; [intros e |]; discriminate).
  - pose proof (float_of_int_error x) as He. pose proof (float_of_int_runs x) as Hf.
    destruct (float_of_int x) as [f | e0 |]; simpl; split;
      first [ discriminate | contradiction | intros e [= <-]; now apply He ].
  - pose proof (float_of_int_error y) as He. pose proof (float_of_int_runs y) as Hf.
    destruct (float_of_int y) as [f | e0 |]; simpl; split;
      first [ discriminate | contradiction | intros e [= <-]; now apply He ].
Qed.

Lemma int_of_error (n : number) :
  (forall e, int_of n = Raise e -> arithmetic_error e) /\ int_of n <> OutOfFuel.
Proof.
  destruct n as [z | [s | s | | s m e']]; simpl; split; try discriminate;
    intros e [= <-]; [left | right]; eauto.
Qed.

Lemma pixel_of_error (p ratio : number) :
  (forall e, pixel_of p ratio = Raise e -> arithmetic_error e) /\
  pixel_of p ratio <> OutOfFuel.
Proof.
  unfold pixel_of, mul. destruct (arith_error Z.mul (SFmul prec emax) p ratio) as [He Hf].
  destruct (arith Z.mul (SFmul prec emax) p ratio) as [n | e' |]; simpl.
  - apply int_of_error.
  - split; [intros e [= <-]; now apply He | discriminate].
  - contradiction.
Qed.

Lemma far_pixel_of_error (p size ratio : number) :
  (forall e, far_pixel_of p size ratio = Raise e -> arithmetic_error e) /\
  far_pixel_of p size ratio <> OutOfFuel.
Proof.
  unfold far_pixel_of, add. destruct (arith_error Z.add (SFadd prec emax) p size) as [He Hf].
  destruct (arith Z.add (SFadd prec emax) p size) as [n | e' |]; simpl.
  - apply (pixel_of_error n ratio).
  - split; [intros e [= <-]; now apply He | discriminate].
  - contradiction.
Qed.

(** C9, as the code has it: the function returns [image.crop] of the
    element's box, scaled edge by edge in Python arithmetic and clamped to
    the screenshot, and nothing else.  When the four edges can be computed
    and the clamped box is not inverted, the result is the image of
    exactly its size: non-empty precisely when the box has a positive
    width and height, and empty, yet returned as an image, when one of
    them is zero; an inverted box gives Pillow's [ValueError].  Every
    image the function returns arises in this way, and the only
    exceptions are that [ValueError] and those of the arithmetic: there
    is no failure of its own for a degenerate crop. *)
Theorem screenshot_element_crops_clamped_box
    (dpr : option number) (img_width img_height : Z) (x y w h : number) :
  let ratio := dpr_or_1 dpr in
  let result := _screenshot_element (MkCapture dpr (img_width, img_height) (x, y) (w, h)) in
  (forall l t r b,
      pixel_of x ratio = Ok l -> pixel_of y ratio = Ok t ->
      far_pixel_of x w ratio = Ok r -> far_pixel_of y h ratio = Ok b ->
      let left_ := Z.max 0 l in
      let top_ := Z.max 0 t in
      let right_ := Z.min img_width r in
      let bottom_ := Z.min img_height b in
      (left_ <= right_ -> top_ <= bottom_ ->
       result = Ok (MkImage (right_ - left_) (bottom_ - top_))) /\
      (left_ < right_ -> top_ < bottom_ ->
       exists img, result = Ok img /\
                   0 < width img <= img_width /\ 0 < height img <= img_height) /\
      (left_ <= right_ -> top_ <= bottom_ -> left_ = right_ \/ top_ = bottom_ ->
       exists img, result = Ok img /\ (width img = 0 \/ height img = 0)) /\
      (right_ < left_ \/ bottom_ < top_ -> exists msg, result = Raise (ValueError msg))) /\
  (forall img,
      result = Ok img ->
      exists l t r b,
        pixel_of x ratio = Ok l /\ pixel_of y ratio = Ok t /\
        far_pixel_of x w ratio = Ok r /\ far_pixel_of y h ratio = Ok b /\
        img = MkImage (Z.min img_width r - Z.max 0 l) (Z.min img_height b - Z.max 0 t)) /\
  (forall e, result = Raise e -> arithmetic_error e) /\
  result <> OutOfFuel.
Proof.
  intros ratio result. split; [| split; [| split]].
  - intros l t r b Hl Ht Hr Hb left_ top_ right_ bottom_.
    assert (Hres : result = crop (left_, top_, right_, bottom_))
      by (apply screenshot_of_edges; assumption).
    assert (Hok : left_ <= right_ -> top_ <= bottom_ ->
                  result = Ok (MkImage (right_ - left_) (bottom_ - top_))).
    { intros Hx Hy. rewrite Hres. unfold crop.
      apply Z.ltb_ge in Hx, Hy. now rewrite Hx, Hy. }
    split; [exact Hok |]. split; [| split].
    + intros Hx Hy. eexists. split; [apply Hok; lia |]. simpl.
      subst left_ top_ right_ bottom_. lia.
    + intros Hx Hy Hdeg. eexists. split; [apply Hok; assumption |]. simpl. lia.
    + intros Hinv. rewrite Hres. unfold crop.
      destruct (right_ <? left_) eqn:Hx; [eauto |].
      destruct (bottom_ <? top_) eqn:Hy; [eauto |].
      apply Z.ltb_ge in Hx, Hy. lia.
  - intros img H. apply screenshot_edges in H as (l & t & r & b & H1 & H2 & H3 & H4 & _ & _ & ->).
    exists l, t, r, b. auto 10.
  - subst result. unfold _screenshot_element, crop_box. cbn [co_dpr co_png co_location co_size].
    fold ratio. fold (pixel_of x ratio) (pixel_of y ratio).
    fold (far_pixel_of x w ratio) (far_pixel_of y h ratio).
    destruct (pixel_of_error x ratio) as [E1 _].
    destruct (pixel_of_error y ratio) as [E2 _].
    destruct (far_pixel_of_error x w ratio) as [E3 _].
    destruct (far_pixel_of_error y h ratio) as [E4 _].
    destruct (pixel_of x ratio) as [l | e1 |]; simpl; [| intros e [= <-]; auto | discriminate].
    destruct (pixel_of y ratio) as [t | e2 |]; simpl; [| intros e [= <-]; auto | discriminate].
    destruct (far_pixel_of x w ratio) as [r | e3 |]; simpl;
      [| intros e [= <-]; auto | discriminate].
    destruct (far_pixel_of y h ratio) as [b | e4 |]; simpl;
      [| intros e [= <-]; auto | discriminate].
    destruct (Z.min img_width r <? Z.max 0 l); [intros e [= <-]; right; eauto |].
    destruct (Z.min img_height b <? Z.max 0 t); [intros e [= <-]; right; eauto |].
    discriminate.
  - subst result. unfold _screenshot_element, crop_box. cbn [co_dpr co_png co_location co_size].
    fold ratio. fold (pixel_of x ratio) (pixel_of y ratio).
    fold (far_pixel_of x w ratio) (far_pixel_of y h ratio).
    destruct (pixel_of_error x ratio) as [_ F1].
    destruct (pixel_of_error y ratio) as [_ F2].
    destruct (far_pixel_of_error x w ratio) as [_ F3].
    destruct (far_pixel_of_error y h ratio) as [_ F4].
    destruct (pixel_of x ratio) as [l | e1 |]; simpl; [| discriminate | contradiction].
    destruct (pixel_of y ratio) as [t | e2 |]; simpl; [| discriminate | contradiction].
    destruct (far_pixel_of x w ratio) as [r | e3 |]; simpl; [| discriminate | contradiction].
    destruct (far_pixel_of y h ratio) as [b | e4 |]; simpl; [| discriminate | contradiction].
    destruct (Z.min img_width r <? Z.max 0 l); [discriminate |].
    destruct (Z.min img_height b <? Z.max 0 t); discriminate.
Qed.

(** Exercising C9: a 120x40 element at (100, 200) at ratio 0.5 on a
    1600x1200 screenshot comes out as 60x20. *)
Lemma screenshot_element_crops_clamped_box_witness :
  _screenshot_element
    (MkCapture (Some (PyFloat half)) (1600, 1200)
               (PyInt 100, PyInt 200) (PyInt 120, PyInt 40))
  = Ok (MkImage (Z.min 1600 110 - Z.max 0 50) (Z.min 1200 120 - Z.max 0 100)).
Proof.
  apply (proj1 (screenshot_element_crops_clamped_box
                  (Some (PyFloat half)) 1600 1200
                  (PyInt 100) (PyInt 200) (PyInt 120) (PyInt 40))
               50 100 110 120);
    first [reflexivity | lia].
Defined.

(** C9 as stated fails on both counts: an element of size zero gives an
    empty image, not an error; and so does an element of size 1x1 inside
    the viewport at ratio 0.5, whose two horizontal edges land on the same
    pixel. *)
Lemma screenshot_empty_crop_is_returned :
  _screenshot_element
    (MkCapture (Some (PyInt 1)) (800, 600) (PyInt 10, PyInt 10) (PyInt 0, PyInt 0))
    = Ok (MkImage 0 0) /\
  _screenshot_element
    (MkCapture (Some (PyFloat half)) (800, 600) (PyInt 10, PyInt 10) (PyInt 1, PyInt 1))
    = Ok (MkImage 0 0).
Proof. split; reflexivity. Qed.

(** Samples of the arithmetic: 100 * 1.15 is the double just below 115,
    0.1 + 0.2 the one just above 0.3; [int] truncates towards zero; two
    [int]s multiply exactly however large; an [int] beyond the doubles, an
    infinite product and a NaN raise. *)
Lemma arithmetic_samples :
  mul (PyInt 100) (PyFloat ratio_1_15)
    = Ok (PyFloat (S754_finite false 8092405580431359 (-46))) /\
  add (PyFloat (S754_finite false 7205759403792794 (-56)))
      (PyFloat (S754_finite false 7205759403792794 (-55)))
    = Ok (PyFloat (S754_finite false 5404319552844596 (-54))) /\
  int_of (PyFloat (S754_finite false 8092405580431359 (-46))) = Ok 114 /\
  int_of (PyFloat (S754_finite true 7881299347898368 (-51))) = Ok (-3) /\
  int_of (PyFloat (S754_finite false 4503599627370496 18)) = Ok (2 ^ 70) /\
  mul (PyInt (2 ^ 600)) (PyInt (2 ^ 600)) = Ok (PyInt (2 ^ 1200)) /\
  mul (PyInt (2 ^ 1024)) (PyFloat half)
    = Raise (OverflowError "int too large to convert to float") /\
  and_then (mul (PyFloat (S754_finite false 4503599627370496 971)) (PyInt 4)) int_of
    = Raise (OverflowError "cannot convert float infinity to integer") /\
  int_of (PyFloat S754_nan) = Raise (ValueError "cannot convert float NaN to integer").
Proof. vm_compute. repeat split. Qed.

(** The products are doubles, rounded before [int] truncates them: at
    ratio 1.15 the edges of an 80x80 element at (20, 20) land on 23 and on
    114, as 100 * 1.15 is the double just below 115. *)
Lemma screenshot_rounds_as_doubles :
  _screenshot_element
    (MkCapture (Some (PyFloat ratio_1_15)) (1600, 1200)
               (PyInt 20, PyInt 20) (PyInt 80, PyInt 80))
    = Ok (MkImage 91 91).
Proof. reflexivity. Qed.

End CaptureFacts.

(* ===================================================================== *)
(** * The results phase: row isolation and pagination *)
(* ===================================================================== *)

Module ResultsFacts.
Import Text Eff Relay Store Capture Scrape Props.
Local Open Scope eff_scope.

Lemma visited_pages_app (j1 j2 : list event) :
  visited_pages (j1 ++ j2) = (visited_pages j1 ++ visited_pages j2)%list.
Proof. unfold visited_pages. apply flat_map_app. Qed.

Section Rows.
Variable e : env.
Variable new_run : nat.
Variable page : nat.

(** A row that succeeds adds one record and the loop goes on. *)
Lemma process_row_succeeds (i : nat) (s : state) :
  row_succeeds i (po_row (pages e page) i) ->
  exists s',
    process_row e new_run page i tt s = (Ok (tt, Next), s') /\
    journal s' = (journal s ++ [RowAttempted page i])%list /\
    length (records s') = S (length (records s)).
Proof.
  intros ((n & Hr & Hn) & Ho & (raw & Hs) & Hsv).
  apply Nat.leb_gt in Hn.
  unfold process_row, save_to_db, section_at, all_sections_of,
    try_except, bind, note, modify, ask, ret, raise, _create_status.
  simpl. rewrite Hr. simpl. rewrite Hn, Ho. simpl. rewrite Hs. simpl. rewrite Hsv. simpl.
  destruct (ro_close (po_row (pages e page) i)) as [[]|ex]; simpl;
    (eexists; split; [reflexivity |]; simpl; split; [reflexivity |];
     rewrite length_app; simpl; lia).
Qed.

(** A row that raises adds nothing and the loop goes on all the same. *)
Lemma process_row_throws (i : nat) (s : state) :
  row_throws i (po_row (pages e page) i) ->
  exists s',
    process_row e new_run page i tt s = (Ok (tt, Next), s') /\
    journal s' = (journal s ++ [RowAttempted page i])%list /\
    records s' = records s.
Proof.
  unfold process_row, save_to_db, section_at, all_sections_of,
    try_except, bind, note, modify, ask, ret, raise, _create_status.
  intros [(ex & Hr) | (n & Hr & Hn & H)]; simpl; rewrite Hr; simpl.
  - destruct (ro_recover _) as [[]|]; simpl; eauto.
  - apply Nat.leb_gt in Hn. rewrite Hn.
    destruct H as [(ex & Ho) | (Ho & [(ex & Hs) | (raw & ex & Hs & Hsv)])];
      rewrite Ho; simpl; try (rewrite Hs; simpl); try (rewrite Hsv; simpl);
      destruct (ro_recover _) as [[]|]; simpl; eauto.
Qed.

(** Whatever the browser and the database answer, the row body ends
    normally, without leaving the function, visiting a page or closing the
    driver. *)
Lemma process_row_total (i : nat) (s : state) :
  exists f s',
    process_row e new_run page i tt s = (Ok (tt, f), s') /\
    (f = Next \/ f = Break) /\
    visited_pages (journal s') = visited_pages (journal s) /\
    quits s' = quits s.
Proof.
  unfold process_row, save_to_db, section_at, all_sections_of,
    try_except, bind, note, modify, ask, ret, raise, _create_status.
  simpl.
  repeat match goal with
         | |- context [match ?r with Got _ => _ | Throws _ => _ end] =>
             destruct r as [?|?]; simpl
         | |- context [if Nat.leb ?a ?b then _ else _] => destruct (Nat.leb a b); simpl
         end;
    (eexists _, _; split; [reflexivity |];
     split; [auto |]; simpl; rewrite visited_pages_app; simpl;
     rewrite app_nil_r; auto).
Qed.

(** The row loop over [seq a n] when row [k] raises and the others succeed. *)
Lemma rows_loop_one_failure (k n a : nat) (s : state) :
  (forall i, (a <= i < a + n)%nat -> i <> k -> row_succeeds i (po_row (pages e page) i)) ->
  ((a <= k < a + n)%nat -> row_throws k (po_row (pages e page) k)) ->
  exists s',
    for_each (process_row e new_run page) (seq a n) tt s = (Ok (tt, None), s') /\
    journal s' = (journal s ++ map (RowAttempted page) (seq a n))%list /\
    (length (records s') + (if Nat.leb a k && Nat.ltb k (a + n) then 1 else 0)
     = length (records s) + n)%nat.
Proof.
  revert a s. induction n as [|n IH]; intros a s Hgood Hbad.
  - exists s. simpl. rewrite app_nil_r.
    split; [reflexivity | split; [reflexivity |]].
    destruct (Nat.leb_spec a k), (Nat.ltb_spec k (a + 0)); simpl; lia.
  - simpl. unfold bind at 1.
    destruct (Nat.eq_dec a k) as [-> | Hne].
    + destruct (process_row_throws k s) as (s1 & H1 & Hj1 & Hr1); [apply Hbad; lia |].
      rewrite H1. simpl.
      destruct (IH (S k) s1) as (s' & H' & Hj' & Hr').
      * intros i Hi Hik. apply Hgood; [lia | exact Hik].
      * intros Hk. lia.
      * exists s'. split; [exact H' |]. split.
        -- rewrite Hj', Hj1, <- app_assoc. reflexivity.
        -- rewrite Hr1 in Hr'.
           destruct (Nat.leb_spec (S k) k), (Nat.ltb_spec k (S k + n)),
             (Nat.leb_spec k k), (Nat.ltb_spec k (k + S n)); simpl in *; lia.
    + destruct (process_row_succeeds a s) as (s1 & H1 & Hj1 & Hr1);
        [apply Hgood; [lia | exact Hne] |].
      rewrite H1. simpl.
      destruct (IH (S a) s1) as (s' & H' & Hj' & Hr').
      * intros i Hi Hik. apply Hgood; [lia | exact Hik].
      * intros Hk. apply Hbad. lia.
      * exists s'. split; [exact H' |]. split.
        -- rewrite Hj', Hj1, <- app_assoc. reflexivity.
        -- rewrite Hr1 in Hr'.
           destruct (Nat.leb_spec (S a) k), (Nat.ltb_spec k (S a + n)),
             (Nat.leb_spec a k), (Nat.ltb_spec k (a + S n)); simpl in *; lia.
Qed.

(** The row loop always runs to its end. *)
Lemma rows_loop_total (k a : nat) (s : state) :
  exists s',
    for_each (process_row e new_run page) (seq a k) tt s = (Ok (tt, None), s') /\
    visited_pages (journal s') = visited_pages (journal s) /\
    quits s' = quits s.
Proof.
  revert a s. induction k as [|k IH]; intros a s; simpl.
  - exists s. auto.
  - unfold bind.
    destruct (process_row_total a s) as (f & s1 & H1 & Hf & Hv1 & Hq1).
    rewrite H1. simpl. destruct Hf as [-> | ->].
    + destruct (IH (S a) s1) as (s' & H' & Hv' & Hq').
      exists s'. repeat split; congruence.
    + exists s1. auto.
Qed.

Lemma process_rows_total (k : nat) (s : state) :
  exists s',
    process_rows e new_run page k s = (Ok tt, s') /\
    visited_pages (journal s') = visited_pages (journal s) /\
    quits s' = quits s.
Proof.
  destruct (rows_loop_total k 0 s) as (s' & H & Hv & Hq).
  exists s'. unfold process_rows, range, bind. rewrite H. auto.
Qed.

End Rows.

Section Pages.
Variable e : env.
Variable new_run : nat.

Lemma paginate_goes_on (page : nat) (s : state) :
  next_enabled (po_next (pages e page)) ->
  paginate e page s = (Ok true, s).
Proof.
  intros (Hf & (c & Hc & Hd) & Hk & Hw).
  unfold paginate, try_except, bind, ask, ret.
  rewrite Hf, Hc. simpl. rewrite Hd, Hk, Hw. reflexivity.
Qed.

Lemma paginate_stops (page : nat) (s : state) :
  next_disabled (po_next (pages e page)) \/ next_fails (po_next (pages e page)) ->
  paginate e page s = (Ok false, s).
Proof.
  unfold paginate, try_except, bind, ask, ret, raise.
  intros [(Hf & c & Hc & Hd) | [(ex & Hf) | (Hf & H)]]; rewrite Hf; simpl.
  - rewrite Hc. simpl. now rewrite Hd.
  - reflexivity.
  - destruct H as [(ex & Hc) | (c & Hc & Hd & [(ex & Hk) | (Hk & ex & Hw)])];
      rewrite Hc; simpl; try reflexivity; rewrite Hd, Hk; simpl; try reflexivity.
    now rewrite Hw.
Qed.

(** [n] pages from page [p] on, the last of which ends the loop. *)
Lemma results_loop_pages (n p fuel : nat) (s : state) :
  (0 < n <= fuel)%nat ->
  (forall q, (p <= q < p + n)%nat -> page_loads (pages e q)) ->
  (forall q, (p <= q)%nat -> (S q < p + n)%nat -> next_enabled (po_next (pages e q))) ->
  next_disabled (po_next (pages e (p + n - 1))) \/
  next_fails (po_next (pages e (p + n - 1))) ->
  exists s',
    results_loop e new_run fuel p s = (Ok tt, s') /\
    visited_pages (journal s') = (visited_pages (journal s) ++ seq p n)%list /\
    quits s' = quits s.
Proof.
  revert p fuel s. induction n as [|n IH]; intros p fuel s Hn Hload Hnext Hlast; [lia |].
  destruct fuel as [|fuel]; [lia |]. simpl.
  destruct (Hload p) as [k Hk]; [lia |].
  unfold bind at 1. rewrite Hk. simpl.
  unfold bind at 1. unfold note at 1, modify. 
  set (s0 := set_journal (journal s ++ [PageVisited p]) s).
  destruct (process_rows_total e new_run p k s0) as (s1 & H1 & Hv1 & Hq1).
  unfold bind at 1. rewrite H1.
  assert (Hv0 : visited_pages (journal s1) = (visited_pages (journal s) ++ [p])%list).
  { rewrite Hv1. unfold s0. simpl. now rewrite visited_pages_app. }
  destruct n as [|n].
  - replace (p + 1 - 1)%nat with p in Hlast by lia.
    unfold bind. rewrite (paginate_stops p s1 Hlast).
    exists s1. repeat split; [exact Hv0 | exact Hq1].
  - unfold bind. rewrite (paginate_goes_on p s1) by (apply Hnext; lia).
    destruct (IH (S p) fuel s1) as (s' & H' & Hv' & Hq').
    + lia.
    + intros q Hq. apply Hload. lia.
    + intros q Hq1' Hq2. apply Hnext; lia.
    + replace (S p + S n - 1)%nat with (p + S (S n) - 1)%nat by lia. exact Hlast.
    + exists s'. split; [exact H' |]. split.
      * rewrite Hv', Hv0, <- app_assoc. reflexivity.
      * rewrite Hq', Hq1. reflexivity.
Qed.

End Pages.

(** C7: on a results page with [K] rows of which row [k] raises (stale
    page, detail view, extraction or persistence) while every other row
    succeeds, the row loop enters the body of every index [0..K-1], in
    order, stores exactly [K-1] records and ends normally. *)
Theorem failing_row_does_not_abort
    (e : env) (new_run page K k : nat) (s : state) :
  (k < K)%nat ->
  row_throws k (po_row (pages e page) k) ->
  (forall i, (i < K)%nat -> i <> k -> row_succeeds i (po_row (pages e page) i)) ->
  exists s',
    process_rows e new_run page K s = (Ok tt, s') /\
    journal s' = (journal s ++ map (RowAttempted page) (seq 0 K))%list /\
    length (records s') = (length (records s) + (K - 1))%nat.
Proof.
  intros Hk Hbad Hgood.
  destruct (rows_loop_one_failure e new_run page k K 0 s) as (s' & H & Hj & Hr).
  - intros i Hi Hik. apply Hgood; [lia | exact Hik].
  - intros _. exact Hbad.
  - exists s'. unfold process_rows, range, bind. rewrite H.
    repeat split; [exact Hj |].
    destruct (Nat.leb_spec 0 k), (Nat.ltb_spec k (0 + K)); simpl in *; lia.
Qed.

(** Exercising C7 on the first page of the sample site: three rows, the
    middle one stale. *)
Lemma failing_row_does_not_abort_witness :
  exists s',
    process_rows sample_site 1 0 3 fresh = (Ok tt, s') /\
    journal s' = (journal fresh ++ map (RowAttempted 0) (seq 0 3))%list /\
    length (records s') = (length (records fresh) + (3 - 1))%nat.
Proof.
  apply (failing_row_does_not_abort sample_site 1 0 3 1 fresh).
  - lia.
  - right. exists 3%nat. repeat split; [lia |]. right. split; [reflexivity |].
    left. eexists. reflexivity.
  - intros [|[|[|i]]] Hi Hne; try lia;
      (split; [exists 3%nat; split; [reflexivity | lia] |
               split; [reflexivity | split; [eexists; reflexivity | reflexivity]]]).
Defined.

(** C8: when the site shows [N] result pages, each loading its rows, every
    page but the last with a working "next" control, and the last page's
    control carries the disabled indicator, or is absent, or any pagination
    step raises there, the loop visits pages [0..N-1] once each, in order,
    and ends normally, and the run goes on to report completion and return
    its success response; [N] rounds of the loop suffice. *)
Theorem pagination_terminates
    (e : env) (new_run N fuel : nat) (s : state) :
  (0 < N <= fuel)%nat ->
  (forall p, (p < N)%nat -> page_loads (pages e p)) ->
  (forall p, (S p < N)%nat -> next_enabled (po_next (pages e p))) ->
  next_disabled (po_next (pages e (N - 1))) \/ next_fails (po_next (pages e (N - 1))) ->
  exists s1 s',
    results_loop e new_run fuel 0 s = (Ok tt, s1) /\
    report_results e new_run fuel s = (Ok (finished e), s') /\
    visited_pages (journal s') = (visited_pages (journal s) ++ seq 0 N)%list /\
    quits s' = quits s.
Proof.
  intros HN Hload Hnext Hlast.
  destruct (results_loop_pages e new_run N 0 fuel s) as (s1 & H1 & Hv & Hq).
  - exact HN.
  - intros q Hq. apply Hload. lia.
  - intros q _ Hq. apply Hnext. lia.
  - exact Hlast.
  - exists s1. eexists. split; [exact H1 |].
    unfold report_results, bind. rewrite H1. simpl.
    split; [reflexivity |]. simpl. auto.
Qed.

(** Exercising C8 on the two pages of the sample site. *)
Lemma pagination_terminates_witness :
  exists s1 s',
    results_loop sample_site 1 2 0 fresh = (Ok tt, s1) /\
    report_results sample_site 1 2 fresh = (Ok (finished sample_site), s') /\
    visited_pages (journal s') = (visited_pages (journal fresh) ++ seq 0 2)%list /\
    quits s' = quits fresh.
Proof.
  apply (pagination_terminates sample_site 1 2 2 fresh).
  - lia.
  - intros p _. exists 3%nat. reflexivity.
  - intros [|p] Hp; [| lia].
    split; [reflexivity | split; [| split; reflexivity]].
    eexists. split; reflexivity.
  - left. split; [reflexivity |]. eexists. split; reflexivity.
Defined.

End ResultsFacts.

(* ===================================================================== *)
(** * The run as a whole: closing the driver *)
(* ===================================================================== *)

Module SessionFacts.
Import Text Eff Relay Store Capture Scrape Props RelayFacts ResultsFacts.
Local Open Scope eff_scope.

#[local] Arguments await_captcha : simpl never.
#[local] Arguments for_each : simpl never.
#[local] Arguments results_loop : simpl never.

(** ** Nothing but [driver_quit] closes the driver *)

Lemma serve_keeps (reqs : list request) (s : state) :
  quits (snd (serve reqs s)) = quits s.
Proof.
  revert s. induction reqs as [|r reqs IH]; intros s; simpl; [reflexivity |].
  destruct (get_status_effect r s) as [page Hg].
  unfold bind. rewrite Hg. rewrite IH.
  destruct (submits r); [destruct (head (runs s)) |]; reflexivity.
Qed.

Lemma sleep_keeps (intake : nat -> list request) (d : Z) (s : state) :
  quits (snd (sleep intake d s)) = quits s.
Proof.
  unfold sleep, bind, get_state, modify. rewrite serve_keeps. reflexivity.
Qed.

Lemma poll_keeps (intake : nat -> list request) (key : string)
      (timeout poll_interval : Z) (fuel : nat) (waited : Z) (s : state) :
  quits (snd (poll intake fuel key timeout poll_interval waited s)) = quits s.
Proof.
  revert waited s. induction fuel as [|fuel IH]; intros waited s; simpl.
  - destruct (waited <? timeout)%Z; reflexivity.
  - destruct (waited <? timeout)%Z; [| reflexivity].
    assert (Hnext :
              quits (snd ((sleep intake poll_interval >>>
                           poll intake fuel key timeout poll_interval
                                (waited + poll_interval)%Z) s)) = quits s).
    { unfold bind. pose proof (sleep_keeps intake poll_interval s) as Hs.
      destruct (sleep intake poll_interval s) as [[[]|ex|] s1]; simpl in *;
        [rewrite IH |..]; exact Hs. }
    unfold bind at 1, cache_get.
    destruct (cache s !! key) as [[v expires]|]; [| exact Hnext].
    destruct (now s <? expires)%Z; [| exact Hnext].
    destruct (truthy v); [reflexivity | exact Hnext].
Qed.

Section Run.
Variable e : env.
Variable new_run : nat.

Lemma await_keeps (s : state) :
  quits (snd (await_captcha e new_run s)) = quits s.
Proof. apply poll_keeps. Qed.

(** The login body never leaves the function. *)
Lemma login_attempt_post (attempt : nat) (flag : bool) (s : state) :
  body_post [] (quits s) (login_attempt e new_run attempt flag s).
Proof.
  unfold login_attempt, try_except, bind, ask, ret, raise, lift, _create_status, modify.
  simpl. repeat (exec_step await_keeps); simpl; congruence.
Qed.

(** The filter body leaves it only through the "other details" return. *)
Lemma filter_attempt_post (retry : nat) (flag : bool) (s : state) :
  body_post [other_details_missing] (quits s) (filter_attempt e new_run retry flag s).
Proof.
  unfold filter_attempt, try_except, bind, ask, ret, raise, lift, _create_status,
    driver_quit, modify.
  simpl. repeat (exec_step await_keeps); simpl; try congruence.
  all: split; [left; reflexivity | congruence].
Qed.

(** A loop whose body closes the driver only when it leaves the function
    does so itself. *)
Lemma for_each_post (allowed : list http_response)
      (body : nat -> bool -> M (bool * flow http_response)) :
  (forall x l s, body_post allowed (quits s) (body x l s)) ->
  forall xs l s, loop_post allowed (quits s) (for_each body xs l s).
Proof.
  intros Hbody xs. induction xs as [|x xs IH]; intros l s.
  - reflexivity.
  - unfold for_each; fold (@for_each nat bool http_response). unfold bind.
    pose proof (Hbody x l s) as Hb.
    destruct (body x l s) as [[[l' f]|ex|] s1]; simpl in *; try exact Hb.
    destruct f as [| |resp]; simpl.
    + rewrite <- Hb. apply IH.
    + exact Hb.
    + exact Hb.
Qed.

Lemma paginate_pure (page : nat) (s : state) :
  exists b, paginate e page s = (Ok b, s).
Proof.
  unfold paginate, try_except, bind, ask, ret.
  repeat (exec_step await_keeps); eauto.
Qed.

Lemma results_loop_keeps (fuel page : nat) (s : state) :
  quits (snd (results_loop e new_run fuel page s)) = quits s.
Proof.
  revert page s. induction fuel as [|fuel IH]; intros page s.
  - reflexivity.
  - unfold results_loop; fold results_loop. unfold bind at 1, ask.
    destruct (po_rows (pages e page)) as [k|ex]; [| reflexivity].
    unfold ret at 1. unfold bind at 1, note, modify.
    destruct (process_rows_total e new_run page k
                (set_journal (journal s ++ [PageVisited page]) s))
      as (s1 & H1 & _ & Hq1).
    unfold bind at 1. rewrite H1.
    destruct (paginate_pure page s1) as [b Hb].
    unfold bind. rewrite Hb.
    destruct b; [rewrite IH |]; exact Hq1.
Qed.

Lemma in_early (resp : http_response) :
  In resp [other_details_missing] -> In resp early_returns.
Proof. intros [<- | []]. unfold early_returns. simpl. auto. Qed.

Lemma bind_eq {A B} (m : M A) (f : A -> M B) (s : state) :
  bind m f s =
    match m s with
    | (Ok a, s') => f a s'
    | (Raise ex, s') => (Raise ex, s')
    | (OutOfFuel, s') => (OutOfFuel, s')
    end.
Proof. reflexivity. Qed.

Lemma ask_keeps {T} (r : reply T) (s : state) : quits (snd (ask r s)) = quits s.
Proof. destruct r; reflexivity. Qed.

(** A step that leaves the driver alone, followed by a continuation that
    meets the postcondition. *)
Lemma post_bind {A} (m : M A) (f : A -> M http_response) (s : state) :
  quits (snd (m s)) = quits s ->
  (forall a s', session_post e (quits s') (f a s')) ->
  session_post e (quits s) (bind m f s).
Proof.
  intros Hq Hf. rewrite bind_eq.
  destruct (m s) as [[a|ex|] s']; simpl in Hq |- *;
    [rewrite <- Hq; apply Hf | exact Hq | exact Hq].
Qed.

Lemma post_quit_ret (r : http_response) (s : state) :
  In r early_returns ->
  session_post e (quits s) ((driver_quit >>> ret r) s).
Proof. intros Hin. right. split; [exact Hin | reflexivity]. Qed.

Lemma post_finish (s : state) : session_post e (quits s) (ret (finished e) s).
Proof. left. split; reflexivity. Qed.

(** After the login: the driver is closed exactly on an early return. *)
Lemma after_login_post (fuel : nat) (s : state) :
  session_post e (quits s) (after_login e new_run fuel s).
Proof.
  unfold after_login.
  apply post_bind; [apply ask_keeps | clear s; intros _ s].
  apply post_bind; [apply ask_keeps | clear s; intros n s].
  destruct (Nat.ltb 2 n).
  - apply post_bind; [apply ask_keeps | clear s; intros _ s].
    apply post_bind; [apply ask_keeps | clear s; intros _ s].
    rewrite bind_eq.
    pose proof (for_each_post _ (filter_attempt e new_run) filter_attempt_post
                              (range 10) false s) as Hloop.
    destruct (for_each (filter_attempt e new_run) (range 10) false s)
      as [[[flag [resp|]]|ex|] s1]; simpl in Hloop |- *; try exact Hloop.
    + right. destruct Hloop as [Hin Hq]. split; [now apply in_early | exact Hq].
    + rewrite <- Hloop. destruct flag; simpl negb; cbv iota.
      * apply post_bind; [apply ask_keeps | intros _ s2].
        unfold report_results.
        apply post_bind; [apply results_loop_keeps | intros _ s3].
        apply post_bind; [reflexivity | intros _ s4].
        apply post_finish.
      * apply post_bind; [reflexivity | intros _ s2].
        apply post_quit_ret. unfold early_returns. simpl. auto.
  - apply post_quit_ret. unfold early_returns. simpl. auto.
Qed.

Lemma language_switch_keeps (s : state) :
  quits (snd (try_except
                (let! links := ask (english_links e) in
                 if Nat.leb 3 links then ask (english_click e) else ret tt)
                (fun _ => ret tt) s)) = quits s.
Proof. unfold try_except, bind, ask, ret. repeat (exec_step await_keeps); reflexivity. Qed.

(** The [try] body closes the driver exactly when it returns early. *)
Lemma session_post_holds (fuel : nat) (s : state) :
  session_post e (quits s) (session e new_run fuel s).
Proof.
  unfold session.
  apply post_bind; [apply ask_keeps | clear s; intros _ s].
  apply post_bind; [apply language_switch_keeps | clear s; intros _ s].
  apply post_bind; [reflexivity | clear s; intros _ s].
  rewrite bind_eq.
  pose proof (for_each_post _ (login_attempt e new_run) login_attempt_post
                            (range 10) false s) as Hloop.
  destruct (for_each (login_attempt e new_run) (range 10) false s)
    as [[[flag [resp|]]|ex|] s1]; simpl in Hloop |- *; try exact Hloop.
  - destruct Hloop as [[] _].
  - rewrite <- Hloop. destruct flag; simpl negb; cbv iota.
    + apply after_login_post.
    + apply post_bind; [reflexivity | intros _ s2].
      apply post_quit_ret. unfold early_returns. simpl. auto.
Qed.

End Run.

(** With a POST request and well-formed dates the run is the guarded
    session of the freshly created run. *)
Lemma trigger_scrape_runs_session (e : env) (fuel : nat) (req : request) (s : state) :
  method req = "POST" -> dates_parse e req ->
  trigger_scrape e fuel req s =
    guarded_session e (S (length (runs s))) fuel (started s).
Proof.
  intros Hm (f & t & Hf & Ht).
  unfold trigger_scrape, bind, create_run, try_except.
  rewrite Hm, Hf, Ht. reflexivity.
Qed.

(** C1, as the code has it: whenever a browser session was opened and the
    run returns, the driver has been closed at least once and at most
    twice: exactly once when the run completes or an exception escapes the
    [try] body, and twice (the explicit [quit] before the early return,
    then the one of the [finally] block) on login exhaustion, filter
    exhaustion and the two missing-element returns. *)
Theorem driver_closed_on_every_exit
    (e : env) (fuel : nat) (req : request) (s : state) :
  method req = "POST" -> dates_parse e req -> driver_start e = Got tt ->
  (forall r s1,
      session e (S (length (runs s))) fuel (started s) = (Ok r, s1) ->
      exists s',
        trigger_scrape e fuel req s = (Ok r, s') /\
        ((r = finished e /\ quits s' = quits s + 1)%nat \/
         (In r early_returns /\ quits s' = quits s + 2)%nat)) /\
  (forall ex s1,
      session e (S (length (runs s))) fuel (started s) = (Raise ex, s1) ->
      exists s',
        trigger_scrape e fuel req s = (Ok (failed_with ex), s') /\
        quits s' = (quits s + 1)%nat) /\
  (forall o s',
      trigger_scrape e fuel req s = (o, s') -> o <> OutOfFuel ->
      (exists r, o = Ok r) /\ (quits s + 1 <= quits s' <= quits s + 2)%nat).
Proof.
  intros Hm Hd Hstart.
  rewrite (trigger_scrape_runs_session e fuel req s Hm Hd).
  unfold guarded_session. rewrite Hstart. unfold try_finally, try_except.
  pose proof (session_post_holds e (S (length (runs s))) fuel (started s)) as Hpost.
  change (quits (started s)) with (quits s) in Hpost.
  destruct (session e (S (length (runs s))) fuel (started s)) as [[r|ex|] s1];
    simpl in Hpost.
  - split; [| split].
    + intros r' s1' [= <- <-]. eexists. split; [reflexivity |]. simpl.
      destruct Hpost as [[-> Hq] | [Hin Hq]]; [left | right];
        (split; [auto | lia]).
    + intros ex s1' [=].
    + intros o s' [= <- <-] _. split; [eauto |]. simpl.
      destruct Hpost as [[_ Hq] | [_ Hq]]; lia.
  - split; [| split].
    + intros r s1' [=].
    + intros ex' s1' [= <- <-]. eexists. split; [reflexivity |]. simpl. lia.
    + intros o s' [= <- <-] _. split; [eauto |]. simpl. lia.
  - split; [| split].
    + intros r s1' [=].
    + intros ex s1' [=].
    + intros o s' [= <- <-] H. now destruct H.
Qed.

(** Exercising C1 on the sample site: the run completes and the driver is
    closed once. *)
Lemma driver_closed_on_every_exit_witness :
  exists s',
    trigger_scrape sample_site 5 scrape_request fresh = (Ok (finished sample_site), s') /\
    ((finished sample_site = finished sample_site /\ quits s' = quits fresh + 1)%nat \/
     (In (finished sample_site) early_returns /\ quits s' = quits fresh + 2)%nat).
Proof.
  apply (proj1 (driver_closed_on_every_exit sample_site 5 scrape_request fresh
                  eq_refl
                  (ex_intro _ "2023-01-01" (ex_intro _ "2023-01-31" (conj eq_refl eq_refl)))
                  eq_refl)
               (finished sample_site)
               (snd (session sample_site 1 5 (started fresh)))).
  vm_compute. reflexivity.
Defined.

(** C1 as stated fails: when the login checkpoint is exhausted the driver
    is closed twice before the run returns. *)
Lemma login_exhaustion_closes_twice :
  driver_start locked_site = Got tt /\
  fst (trigger_scrape locked_site 5 scrape_request fresh) = Ok login_exhausted /\
  quits (snd (trigger_scrape locked_site 5 scrape_request fresh)) = 2%nat.
Proof. repeat split; vm_compute; reflexivity. Qed.

(** When [_driver_from_config()] itself raises no session exists, nothing
    is closed, and the [finally] block's [if driver] raises. *)
Lemma driver_never_started (e : env) (fuel : nat) (req : request) (s : state) (ex : exn) :
  method req = "POST" -> dates_parse e req -> driver_start e = Throws ex ->
  exists msg s',
    trigger_scrape e fuel req s = (Raise (UnboundLocalError msg), s') /\
    quits s' = quits s.
Proof.
  intros Hm Hd Hstart.
  rewrite (trigger_scrape_runs_session e fuel req s Hm Hd).
  unfold guarded_session. rewrite Hstart.
  eexists _, _. split; reflexivity.
Qed.

End SessionFacts.

(* ===================================================================== *)
(** * More on the matcher: what a pattern consumes and captures *)
(* ===================================================================== *)

Module MatchFacts.
Import Text Re Address TextFacts ReFacts AddressFacts Props Shapes.

Lemma prefix_iff (a b : string) :
  String.prefix a b = true <-> exists post, b = a ++ post.
Proof.
  revert b. induction a as [|x a IH]; intros b; simpl.
  - destruct b; split; eauto.
  - destruct b as [|y b]; simpl.
    + split; [discriminate | intros [post H]; discriminate].
    + destruct (ascii_dec x y) as [-> | Hne].
      * rewrite IH. split; intros [post H]; exists post; congruence.
      * split; [discriminate | intros [post H]]. congruence.
Qed.

(** The [in] operator is the substring test. *)
Lemma contains_iff (needle hay : string) :
  contains needle hay = true <-> occurs_in needle hay.
Proof.
  unfold occurs_in. induction hay as [|c hay IH].
  - cbn [contains]. rewrite orb_false_r, prefix_iff. split.
    + intros [post H]. exists "", post. exact H.
    + intros (before & after & H). destruct before; [eauto | discriminate].
  - cbn [contains]. rewrite orb_true_iff, prefix_iff, IH. split.
    + intros [[post H] | (before & after & H)].
      * exists "", post. exact H.
      * exists (String c before), after. simpl. now rewrite H.
    + intros (before & after & H). destruct before as [|x before]; simpl in H.
      * left. eauto.
      * right. injection H as _ H. eauto.
Qed.

Lemma occurs_in_refl (s : string) : occurs_in s s.
Proof. exists "", "". simpl. now rewrite append_nil_r. Qed.

Lemma occurs_in_empty (s : string) : occurs_in "" s.
Proof. exists "", s. reflexivity. Qed.

Lemma occurs_in_inner (t before s after : string) :
  occurs_in t s -> occurs_in t (before ++ s ++ after).
Proof.
  intros (b & a & ->). exists (before ++ b), (a ++ after).
  now rewrite !append_assoc.
Qed.

(** Whatever a greedy repetition answers, it has consumed characters of
    its class, at least [lo] of them, and the rest of the pattern has
    matched what remains. *)
Lemma rep_sound {R} (cls : ascii -> bool) (k : string -> option R)
      (s : string) (lo : nat) (hi : option nat) (r : R) :
  rep_greedy cls k lo hi s = Some r ->
  exists w rest, s = w ++ rest /\ all_chars cls w = true /\
                 (lo <= String.length w)%nat /\ k rest = Some r.
Proof.
  revert lo hi. induction s as [|c s IH]; intros lo hi; simpl.
  - destruct lo; [| discriminate]. intros H. exists "", "". auto.
  - assert (Hstop : match lo with O => k (String c s) | S _ => None end = Some r ->
                    exists w rest, String c s = w ++ rest /\ all_chars cls w = true /\
                                   (lo <= String.length w)%nat /\ k rest = Some r).
    { destruct lo; [| discriminate]. intros H. exists "", (String c s). auto. }
    destruct (cls c && hi_allows hi) eqn:Hc; [| exact Hstop].
    destruct (rep_greedy cls k (Nat.pred lo) (hi_pred hi) s) eqn:Hr; [| exact Hstop].
    intros [= ->]. apply IH in Hr as (w & rest & -> & Hw & Hl & Hk).
    apply andb_true_iff in Hc as [Hc _].
    exists (String c w), rest. simpl. rewrite Hc, Hw.
    repeat split; [lia | exact Hk].
Qed.

(** A group-free stretch of a pattern consumes characters of its class. *)
Lemma match_body (P : ascii -> bool) (body rest : pattern)
      (s opened : string) (g : option string) (m : re_match) :
  Forall (item_in P) body ->
  match_here (body ++ rest)%list s opened g = Some m ->
  exists w s', s = w ++ s' /\ all_chars P w = true /\
               (items_min body <= String.length w)%nat /\
               match_here rest s' opened g = Some m.
Proof.
  intros Hbody. revert s. induction Hbody as [|it body Hit Hbody IH]; intros s.
  - simpl. intros H. exists "", s. repeat split; [unfold items_min; simpl; lia | exact H].
  - destruct it as [c | cls lo hi | |]; simpl in Hit; try contradiction.
    + simpl. destruct s as [|d s]; [discriminate |].
      destruct (ci_eqb c d) eqn:Hcd; [| discriminate].
      intros H. apply IH in H as (w & s' & -> & Hw & Hl & Hm).
      exists (String d w), s'. simpl. rewrite (Hit d Hcd), Hw.
      unfold items_min in *. simpl. repeat split; [lia | exact Hm].
    + simpl. intros H. apply rep_sound in H as (w1 & rest1 & -> & Hw1 & Hl1 & Hk).
      apply IH in Hk as (w & s' & -> & Hw & Hl & Hm).
      exists (w1 ++ w), s'. rewrite append_assoc, all_chars_append, length_append, Hw.
      assert (Hw1' : all_chars P w1 = true).
      { clear - Hit Hw1. induction w1 as [|x w1 IHw]; simpl in *; [reflexivity |].
        apply andb_true_iff in Hw1 as [Hx Hw1]. now rewrite (Hit x Hx), IHw. }
      rewrite Hw1'. unfold items_min in *. simpl. repeat split; [lia | exact Hm].
Qed.

(** A shaped pattern that matches at the start of [s] has captured a
    stretch of [s] made of the characters of its group's class. *)
Lemma shaped_match_at (P : ascii -> bool) (prefix body pat : pattern)
      (s : string) (m : re_match) :
  shaped P prefix body pat ->
  match_at pat s = Some m ->
  exists w v rest, s = w ++ v ++ rest /\ all_chars P v = true /\
                   (items_min body <= String.length v)%nat /\
                   m = MkMatch (Some v).
Proof.
  intros (-> & Hpre & Hbody). unfold match_at. intros H.
  apply (match_body any_char) in H as (w & s1 & -> & _ & _ & H); [| exact Hpre].
  simpl in H.
  apply (match_body P) in H as (v & rest & -> & Hv & Hl & H); [| exact Hbody].
  simpl in H. rewrite consumed_prefix in H. injection H as <-.
  exists w, v, rest. auto.
Qed.

Lemma shaped_search (P : ascii -> bool) (prefix body pat : pattern)
      (addr : string) (m : re_match) :
  shaped P prefix body pat ->
  search pat addr = Some m ->
  exists v, m = MkMatch (Some v) /\ occurs_in v addr /\ all_chars P v = true /\
            (items_min body <= String.length v)%nat.
Proof.
  intros Hshape Hs.
  apply search_some in Hs as (pre & suf & -> & Hm & _).
  destruct (shaped_match_at P prefix body pat suf m Hshape Hm)
    as (w & v & rest & -> & Hv & Hl & ->).
  exists v. repeat split; [| exact Hv | exact Hl].
  exists (pre ++ w), rest. now rewrite !append_assoc.
Qed.

(** The value of a field with a shaped pattern: empty exactly when the
    pattern does not match, and otherwise a stretch of the address made of
    the characters of the group's class. *)
Lemma shaped_field_value (P : ascii -> bool) (prefix body pat : pattern) (addr : string) :
  shaped P prefix body pat -> (0 < items_min body)%nat ->
  (field_value pat addr = "" <-> search pat addr = None) /\
  occurs_in (field_value pat addr) addr /\
  all_chars P (field_value pat addr) = true.
Proof.
  intros Hshape Hmin. destruct (search pat addr) as [m|] eqn:Hs.
  - destruct (shaped_search P prefix body pat addr m Hshape Hs) as (v & -> & Hocc & Hv & Hl).
    rewrite (field_value_group pat addr v Hs).
    split; [| auto]. split; [| discriminate].
    intros ->. simpl in Hl. lia.
  - rewrite (field_value_none pat addr Hs).
    split; [tauto |]. split; [apply occurs_in_empty | reflexivity].
Qed.

(** ** The last repetition of a pattern takes all it can *)

Lemma rep_zero_total {R} (cls : ascii -> bool) (k : string -> option R) (s : string) :
  (forall t, k t <> None) -> rep_greedy cls k 0 None s <> None.
Proof.
  intros Hk. induction s as [|c s IH]; simpl; [apply Hk |].
  destruct (cls c); simpl; [| apply Hk].
  destruct (rep_greedy cls k 0 None s); [discriminate | contradiction].
Qed.

Lemma rep_last {R} (cls : ascii -> bool) (k : string -> option R)
      (s : string) (lo : nat) (r : R) :
  (forall t, k t <> None) -> (lo <= 1)%nat ->
  rep_greedy cls k lo None s = Some r ->
  exists w rest, s = w ++ rest /\ all_chars cls w = true /\
                 (lo <= String.length w)%nat /\ stops_at cls rest /\ k rest = Some r.
Proof.
  intros Hk. revert lo. induction s as [|c s IH]; intros lo Hlo; simpl.
  - destruct lo; [| discriminate]. intros H. exists "", "". simpl. auto.
  - destruct (cls c) eqn:Hc; simpl.
    + pose proof (rep_zero_total cls k s Hk) as Hz.
      replace (Nat.pred lo) with 0%nat by lia.
      destruct (rep_greedy cls k 0 None s) eqn:Hr; [| contradiction].
      intros [= ->]. apply IH in Hr as (w & rest & -> & Hw & _ & Hstop & Hkr); [| lia].
      exists (String c w), rest. simpl. rewrite Hc, Hw.
      repeat split; [lia | exact Hstop | exact Hkr].
    + destruct lo; [| discriminate]. intros H.
      exists "", (String c s). simpl. auto.
Qed.

(** A labelled pattern that matches at the start of [s] captures a
    non-empty stretch free of commas and periods that runs up to the next
    comma or period, or to the end. *)
Lemma labelled_match_at (prefix : pattern) (s : string) (m : re_match) :
  Forall (item_in any_char) prefix ->
  match_at (prefix ++ value_group)%list s = Some m ->
  exists w v rest, s = w ++ v ++ rest /\ all_chars not_comma_dot v = true /\
                   v <> "" /\ stops_at not_comma_dot rest /\ m = MkMatch (Some v).
Proof.
  intros Hpre. unfold match_at. intros H.
  apply (match_body any_char) in H as (w & s1 & -> & _ & _ & H); [| exact Hpre].
  unfold value_group, plus in H. simpl in H.
  apply rep_last in H as (v & rest & -> & Hv & Hl & Hstop & H);
    [| intros t; discriminate | lia].
  rewrite consumed_prefix in H. injection H as <-.
  exists w, v, rest. repeat split; auto.
  intros ->. simpl in Hl. lia.
Qed.

(** The shape of the five labelled patterns. *)
Lemma labelled_shape (key : string) (pat : pattern) (addr : string) :
  In (key, pat) labelled_patterns ->
  field key addr = Some (field_value pat addr) /\
  exists prefix, pat = (prefix ++ value_group)%list /\ Forall (item_in any_char) prefix.
Proof.
  unfold labelled_patterns, field. rewrite parse_address_items.
  intros [H | [H | [H | [H | [H | []]]]]]; injection H as <- <-;
    (split; [reflexivity |]).
  - exists (lits "Ward Colony" ++ [star is_space; Lit "-"; star is_space])%list.
    split; [reflexivity |]. repeat constructor; simpl; auto.
  - exists (lits "Distirct" ++ [opt ":"; star is_space])%list.
    split; [reflexivity |]. repeat constructor; simpl; auto.
  - exists (lits "Village" ++ [opt ":"; star is_space])%list.
    split; [reflexivity |]. repeat constructor; simpl; auto.
  - exists (lits "Sub-Area" ++ [star is_space; opt ":"; star is_space])%list.
    split; [reflexivity |]. repeat constructor; simpl; auto.
  - exists (lits "Tehsil" ++ [opt ":"; star is_space])%list.
    split; [reflexivity |]. repeat constructor; simpl; auto.
Qed.

(** X1: "State" is "Madhya Pradesh" exactly when that literal occurs in
    the address, in this very letter case, and is empty otherwise; likewise
    "Country" and "India". *)
Theorem state_and_country_follow_the_literal (addr : string) :
  (field "State" addr = Some "Madhya Pradesh" <-> occurs_in "Madhya Pradesh" addr) /\
  (field "State" addr = Some "" <-> ~ occurs_in "Madhya Pradesh" addr) /\
  (field "Country" addr = Some "India" <-> occurs_in "India" addr) /\
  (field "Country" addr = Some "" <-> ~ occurs_in "India" addr).
Proof.
  unfold field. rewrite parse_address_items. cbn [Dict.get String.eqb Ascii.eqb Bool.eqb].
  rewrite <- !contains_iff.
  destruct (contains "Madhya Pradesh" addr), (contains "India" addr);
    repeat split; try discriminate; try congruence; auto.
Qed.

(** X2: a non-empty value of Ward/Colony, District, Village, Sub-Area/Road
    or Tehsil/Locality is a stretch of the address that holds no comma and
    no period and runs up to the next comma or period, or to the end of the
    address. *)
Theorem labelled_field_is_delimited (key : string) (pat : pattern) (addr v : string) :
  In (key, pat) labelled_patterns ->
  field key addr = Some v -> v <> "" ->
  exists before after,
    addr = before ++ v ++ after /\
    all_chars not_comma_dot v = true /\
    stops_at not_comma_dot after.
Proof.
  intros Hin Hf Hv.
  destruct (labelled_shape key pat addr Hin) as (Hfield & prefix & -> & Hpre).
  rewrite Hfield in Hf. injection Hf as <-.
  destruct (search (prefix ++ value_group)%list addr) as [m|] eqn:Hs.
  - destruct (search_some _ _ _ Hs) as (pre & suf & -> & Hm & _).
    destruct (labelled_match_at prefix suf m Hpre Hm)
      as (w & v & rest & -> & Hall & _ & Hstop & ->).
    rewrite (field_value_group _ _ v Hs).
    exists (pre ++ w), rest. rewrite !append_assoc. auto.
  - rewrite (field_value_none _ _ Hs) in Hv. contradiction.
Qed.

(** Exercising X2: the tehsil of ["Tehsil: Huzur. Bhopal"]. *)
Lemma labelled_field_is_delimited_witness :
  exists before after,
    "Tehsil: Huzur. Bhopal" = before ++ "Huzur" ++ after /\
    all_chars not_comma_dot "Huzur" = true /\
    stops_at not_comma_dot after.
Proof.
  apply (labelled_field_is_delimited "Tehsil/Locality" tehsil_re "Tehsil: Huzur. Bhopal" "Huzur").
  - right. right. right. right. left. reflexivity.
  - reflexivity.
  - discriminate.
Defined.

Lemma landmark_shape :
  shaped not_p []
         ([plus is_digit; star is_space; Lit "m"; plus is_space]
            ++ lits "from" ++ [plus is_space; plus not_p])%list
         landmark_re.
Proof.
  split; [reflexivity |]. split; [constructor |].
  repeat constructor; simpl; intros d;
    destruct d as [[] [] [] [] [] [] [] []]; vm_compute; congruence.
Qed.

Lemma pin_shape :
  shaped is_digit (lits "pin" ++ [opt "-"])%list [exactly 6 is_digit] pin_re.
Proof.
  split; [reflexivity |]. split; repeat constructor; simpl; auto.
Qed.

Lemma landmark_occurs (addr : string) :
  exists v, field "Landmark" addr = Some v /\ occurs_in v addr.
Proof.
  exists (field_value landmark_re addr).
  split; [unfold field; rewrite parse_address_items; reflexivity |].
  destruct (shaped_field_value not_p _ _ landmark_re addr landmark_shape) as (_ & Hocc & _);
    [unfold items_min; simpl; lia | exact Hocc].
Qed.

(** X3: the "Landmark" value never holds the letter p, in either case: the
    pattern's last class [[^p]+] stops in front of it. *)
Theorem landmark_stops_before_p (addr : string) :
  exists v,
    field "Landmark" addr = Some v /\
    all_chars not_p v = true /\
    occurs_in v addr.
Proof.
  exists (field_value landmark_re addr).
  split; [unfold field; rewrite parse_address_items; reflexivity |].
  destruct (shaped_field_value not_p _ _ landmark_re addr landmark_shape) as (_ & Hocc & Hall).
  - unfold items_min. simpl. lia.
  - auto.
Qed.

(** X4: every value of a parsed address occurs verbatim in the address
    (the empty value trivially so): parsing never makes up text. *)
Theorem parsed_values_occur_in_address (addr : string) :
  Forall (fun key => exists v, field key addr = Some v /\ occurs_in v addr) address_keys.
Proof.
  assert (Hlab : forall key pat, In (key, pat) labelled_patterns ->
                   exists v, field key addr = Some v /\ occurs_in v addr).
  { intros key pat Hin.
    destruct (labelled_shape key pat addr Hin) as (Hfield & prefix & -> & Hpre).
    eexists. split; [exact Hfield |].
    destruct (shaped_field_value not_comma_dot prefix [plus not_comma_dot]
                (prefix ++ value_group)%list addr) as (_ & Hocc & _).
    - split; [reflexivity |]. split; [exact Hpre |]. repeat constructor. simpl. auto.
    - unfold items_min. simpl. lia.
    - exact Hocc. }
  unfold address_keys, labelled_patterns in *.
  repeat constructor.
  - apply (Hlab _ ward_colony_re). simpl. auto.
  - apply (Hlab _ district_re). simpl. auto.
  - apply (Hlab _ village_re). simpl. auto.
  - apply (Hlab _ sub_area_re). simpl. auto 6.
  - apply (Hlab _ tehsil_re). simpl. auto 6.
  - exists (field_value pin_re addr).
    split; [unfold field; rewrite parse_address_items; reflexivity |].
    destruct (shaped_field_value is_digit _ _ pin_re addr pin_shape) as (_ & Hocc & _);
      [unfold items_min; simpl; lia | exact Hocc].
  - destruct (landmark_occurs addr) as (v & Hf & Hocc). eauto.
  - unfold field. rewrite parse_address_items. cbn [Dict.get String.eqb Ascii.eqb Bool.eqb].
    destruct (contains "Madhya Pradesh" addr) eqn:Hc; eexists; (split; [reflexivity |]).
    + now apply contains_iff.
    + apply occurs_in_empty.
  - unfold field. rewrite parse_address_items. cbn [Dict.get String.eqb Ascii.eqb Bool.eqb].
    destruct (contains "India" addr) eqn:Hc; eexists; (split; [reflexivity |]).
    + now apply contains_iff.
    + apply occurs_in_empty.
Qed.

End MatchFacts.

(* ===================================================================== *)
(** * Sections, records and the exported sheet *)
(* ===================================================================== *)

Module SheetFacts.
Import Text Re Address Eff Store Scrape Props Sheets Shapes TextFacts AddressFacts StoreFacts.
Local Open Scope eff_scope.

(** A new key goes to the end of the dictionary. *)
Lemma set_fresh {V} (k : string) (v : V) (d : Dict.dict V) :
  ~ In k (Dict.keys d) -> Dict.set k v d = (d ++ [(k, v)])%list.
Proof.
  unfold Dict.keys. induction d as [|[k0 v0] d IH]; simpl; [reflexivity |].
  intros Hnot. destruct (String.eqb k0 k) eqn:E.
  - apply String.eqb_eq in E. tauto.
  - rewrite IH by tauto. reflexivity.
Qed.

(** Pairs with distinct keys become a dictionary with these very entries. *)
Lemma of_pairs_distinct {V} (ps : list (string * V)) :
  NoDup (map fst ps) -> Dict.of_pairs ps = ps.
Proof.
  induction ps as [|[k v] ps IH] using rev_ind; [reflexivity |].
  rewrite map_app. simpl. intros Hnd.
  apply NoDup_app in Hnd as (Hps & Hk & _).
  rewrite of_pairs_snoc, IH by exact Hps.
  apply set_fresh. intros Hin.
  apply (Hk k); apply list_elem_of_In; [exact Hin | left; reflexivity].
Qed.

Lemma zip_fst {A B} (xs : list A) (ys : list B) :
  length xs = length ys -> map fst (Dict.zip xs ys) = xs.
Proof.
  unfold Dict.zip. revert ys. induction xs as [|x xs IH]; intros [|y ys]; simpl;
    try discriminate; [reflexivity |].
  intros [= H]. now rewrite IH.
Qed.

Lemma zip_snd {A B} (xs : list A) (ys : list B) :
  length xs = length ys -> map snd (Dict.zip xs ys) = ys.
Proof.
  unfold Dict.zip. revert ys. induction xs as [|x xs IH]; intros [|y ys]; simpl;
    try discriminate; [reflexivity |].
  intros [= H]. now rewrite IH.
Qed.

Lemma section_dict_well_formed (sec : section) :
  well_formed sec -> section_dict sec = Dict.zip (fst sec) (snd sec).
Proof.
  intros [Hnd Hlen]. unfold section_dict. apply of_pairs_distinct.
  now rewrite zip_fst.
Qed.

Lemma keys_values_well_formed (sec : section) :
  well_formed sec ->
  Dict.keys (section_dict sec) = fst sec /\ values (section_dict sec) = snd sec.
Proof.
  intros Hwf. pose proof Hwf as [Hnd Hlen].
  rewrite (section_dict_well_formed sec Hwf).
  unfold Dict.keys, values. now rewrite zip_fst, zip_snd.
Qed.

(** X5: when the labels of a section are distinct and as many as its
    values, the stored dictionary keeps every column, in the order of the
    source: its keys are the labels and its values are the values. *)
Theorem distinct_labels_keep_every_column (sec : section) :
  well_formed sec ->
  Dict.keys (section_dict sec) = fst sec /\
  values (section_dict sec) = snd sec /\
  forall i k v, fst sec !! i = Some k -> snd sec !! i = Some v ->
                Dict.get k (section_dict sec) = Some v.
Proof.
  intros Hwf. pose proof Hwf as [Hnd Hlen].
  rewrite (section_dict_well_formed sec Hwf).
  unfold Dict.keys, values. rewrite zip_fst, zip_snd by exact Hlen.
  repeat split. intros i k v Hk Hv.
  rewrite <- (section_dict_well_formed sec Hwf).
  apply get_of_pairs. exists i. split; [apply zip_lookup; auto |].
  intros j v' Hij Hc. apply zip_lookup in Hc as [Hk' _].
  assert (i = j) by (eapply NoDup_lookup; eauto). lia.
Qed.

(** Exercising X5 on a two-column section. *)
Lemma distinct_labels_keep_every_column_witness :
  Dict.keys (section_dict (["Reg No"; "Date"], ["101"; "01-01-2023"])) = ["Reg No"; "Date"] /\
  values (section_dict (["Reg No"; "Date"], ["101"; "01-01-2023"])) = ["101"; "01-01-2023"] /\
  forall i k v, ["Reg No"; "Date"] !! i = Some k -> ["101"; "01-01-2023"] !! i = Some v ->
                Dict.get k (section_dict (["Reg No"; "Date"], ["101"; "01-01-2023"])) = Some v.
Proof.
  apply (distinct_labels_keep_every_column (["Reg No"; "Date"], ["101"; "01-01-2023"])).
  split; [| reflexivity]. simpl.
  refine (bool_decide_unpack _ _). vm_compute. exact I.
Defined.

(** X6: the address expansion replaces every column whose label contains
    "address" (in any letter case), in place, by the nine address columns
    and keeps the other columns as they are and in order; the expanded
    section has as many labels as values. *)
Theorem expand_address_in_place (headings_4 data_texts_4 : list string) :
  fst (expand_address headings_4 data_texts_4) =
    flat_map (fun hv => if contains "address" (lower (fst hv))
                        then address_keys else [fst hv])
             (Dict.zip headings_4 data_texts_4) /\
  snd (expand_address headings_4 data_texts_4) =
    flat_map (fun hv => if contains "address" (lower (fst hv))
                        then values (parse_address (snd hv)) else [snd hv])
             (Dict.zip headings_4 data_texts_4) /\
  length (fst (expand_address headings_4 data_texts_4)) =
    length (snd (expand_address headings_4 data_texts_4)).
Proof.
  unfold expand_address. simpl.
  split; [| split; [| now rewrite !length_map]].
  - induction (Dict.zip headings_4 data_texts_4) as [|[h v] l IH]; [reflexivity |].
    simpl. rewrite map_app, IH. f_equal.
    destruct (contains "address" (lower h)); [| reflexivity].
    unfold Dict.items. now rewrite parse_address_items.
  - induction (Dict.zip headings_4 data_texts_4) as [|[h v] l IH]; [reflexivity |].
    simpl. rewrite map_app, IH. f_equal.
    destruct (contains "address" (lower h)); reflexivity.
Qed.

(** X7: when the property table has two address columns, the stored
    property details hold the nine address fields once, with the parts of
    the second address: those of the first are overwritten. *)
Theorem second_address_overwrites_first (h1 h2 a1 a2 : string) :
  contains "address" (lower h1) = true ->
  contains "address" (lower h2) = true ->
  section_dict (expand_address [h1; h2] [a1; a2]) = parse_address a2.
Proof.
  intros H1 H2. unfold section_dict, expand_address. simpl.
  rewrite H1, H2. unfold Dict.items. rewrite !parse_address_items. reflexivity.
Qed.

(** Exercising X7 on a seller's and a buyer's address. *)
Lemma second_address_overwrites_first_witness :
  section_dict (expand_address ["Seller Address"; "Buyer ADDRESS"]
                               ["pin-462001, India"; "pin-110001"])
  = parse_address "pin-110001".
Proof.
  apply (second_address_overwrites_first "Seller Address" "Buyer ADDRESS"
           "pin-462001, India" "pin-110001"); reflexivity.
Defined.

(** ** The exported sheet *)

Lemma zip_keys_values {V} (d : Dict.dict V) : combine (Dict.keys d) (values d) = d.
Proof.
  unfold Dict.keys, values. induction d as [|[k v] d IH]; simpl; [reflexivity |].
  now rewrite IH.
Qed.

Lemma combine_app_same {A B} (xs xs' : list A) (ys ys' : list B) :
  length xs = length ys ->
  combine (xs ++ xs') (ys ++ ys') = (combine xs ys ++ combine xs' ys')%list.
Proof.
  revert ys. induction xs as [|x xs IH]; intros [|y ys]; simpl; try discriminate;
    [reflexivity |].
  intros [= H]. now rewrite IH.
Qed.

Lemma length_keys_values {V} (d : Dict.dict V) : length (Dict.keys d) = length (values d).
Proof. unfold Dict.keys, values. now rewrite !length_map. Qed.

(** A record whose sections carry the header's labels lines up with it. *)
Lemma row_under_header (first r : scraped_record) :
  same_keys first r ->
  combine (record_keys first) (record_values r) =
    (registration_details r ++ seller_details r ++ buyer_details r ++
     property_details r ++ khasra_details r)%list.
Proof.
  intros (H0 & H1 & H2 & H3 & H4). unfold record_keys, record_values.
  rewrite H0, H1, H2, H3, H4.
  rewrite !combine_app_same by apply length_keys_values.
  now rewrite !zip_keys_values.
Qed.

(** X8: with at least one stored record the sheet is a header row taken
    from the first record's labels followed by one row per record, in
    order, and the store is left as it was; every record that has the first
    record's labels has its values under their own labels. *)
Theorem export_has_one_row_per_record (s : state) (first : scraped_record)
        (others : list scraped_record) :
  records s = first :: others ->
  exists rows,
    download_excel s = (Ok (record_keys first :: rows), s) /\
    rows = map record_values (records s) /\
    length rows = length (records s) /\
    forall r, In r (records s) -> same_keys first r ->
      length (record_values r) = length (record_keys first) /\
      combine (record_keys first) (record_values r) =
        (registration_details r ++ seller_details r ++ buyer_details r ++
         property_details r ++ khasra_details r)%list.
Proof.
  intros Hrec. exists (map record_values (records s)).
  unfold download_excel, bind, get_state, ret. rewrite Hrec.
  split; [reflexivity |]. split; [reflexivity |]. split; [now rewrite length_map |].
  intros r _ Hsame. split.
  - destruct Hsame as (H0 & H1 & H2 & H3 & H4).
    unfold record_keys, record_values. rewrite H0, H1, H2, H3, H4.
    rewrite !length_app, !length_keys_values. reflexivity.
  - now apply row_under_header.
Qed.

(** Exercising X8 on a store that holds one deed. *)
Lemma export_has_one_row_per_record_witness :
  exists rows,
    download_excel one_deed_state = (Ok (record_keys deed_record :: rows), one_deed_state) /\
    rows = map record_values (records one_deed_state) /\
    length rows = length (records one_deed_state) /\
    forall r, In r (records one_deed_state) -> same_keys deed_record r ->
      length (record_values r) = length (record_keys deed_record) /\
      combine (record_keys deed_record) (record_values r) =
        (registration_details r ++ seller_details r ++ buyer_details r ++
         property_details r ++ khasra_details r)%list.
Proof.
  apply (export_has_one_row_per_record one_deed_state deed_record []).
  reflexivity.
Defined.

(** X9: storing one record in an empty store and exporting it gives the
    labels of the five sections as the header and their values as the only
    row, when each section has distinct labels, as many as values. *)
Theorem save_then_export (s0 s1 s2 s3 s4 : section) (s : state) :
  records s = [] ->
  Forall well_formed [s0; s1; s2; s3; s4] ->
  exists s',
    (save_to_db (Got tt) [s0; s1; s2; s3; s4] >>> download_excel) s =
      (Ok [ (fst s0 ++ fst s1 ++ fst s2 ++ fst s3 ++ fst s4)%list;
            (snd s0 ++ snd s1 ++ snd s2 ++ snd s3 ++ snd s4)%list ], s').
Proof.
  intros Hrec Hwf.
  apply Forall_cons_iff in Hwf as [W0 Hwf]. apply Forall_cons_iff in Hwf as [W1 Hwf].
  apply Forall_cons_iff in Hwf as [W2 Hwf]. apply Forall_cons_iff in Hwf as [W3 Hwf].
  apply Forall_cons_iff in Hwf as [W4 _].
  eexists. unfold bind. cbn [save_to_db]. unfold save_to_db, try_except, bind, section_at.
  simpl. unfold download_excel, bind, get_state, ret. simpl. rewrite Hrec. simpl.
  unfold record_keys, record_values. simpl.
  destruct (keys_values_well_formed s0 W0) as [-> ->].
  destruct (keys_values_well_formed s1 W1) as [-> ->].
  destruct (keys_values_well_formed s2 W2) as [-> ->].
  destruct (keys_values_well_formed s3 W3) as [-> ->].
  destruct (keys_values_well_formed s4 W4) as [-> ->].
  reflexivity.
Qed.

(** Exercising X9 on a sample deed. *)
Lemma save_then_export_witness :
  exists s',
    (save_to_db (Got tt) deed_sections >>> download_excel) fresh =
      (Ok [ ["Reg No"; "Date"; "Seller"; "Buyer"; "Area"; "Use"; "Khasra"];
            ["101"; "01-01-2023"; "A"; "B"; "100"; "Plot"; "12/3"] ], s').
Proof.
  apply (save_then_export (["Reg No"; "Date"], ["101"; "01-01-2023"])
           (["Seller"], ["A"]) (["Buyer"], ["B"])
           (["Area"; "Use"], ["100"; "Plot"]) (["Khasra"], ["12/3"]) fresh).
  - reflexivity.
  - repeat (apply Forall_cons; [split; [| reflexivity] |]); try apply Forall_nil;
      simpl; refine (bool_decide_unpack _ _); vm_compute; exact I.
Defined.

End SheetFacts.

(* ===================================================================== *)
(** * More on the relay: delivery, late answers, expiry, run isolation *)
(* ===================================================================== *)

Module RelayMore.
Import Text TextFacts Eff Relay Props Shapes RelayFacts.
Local Open Scope eff_scope.

Lemma append_inv_l (a b c : string) : a ++ b = a ++ c -> b = c.
Proof. induction a as [|x a IH]; simpl; [auto | intros [= H]; auto]. Qed.

Lemma to_uint_nonnil (n : nat) : Nat.to_uint n <> Decimal.Nil.
Proof.
  rewrite <- (Unsigned.of_to n) at 1. rewrite Unsigned.to_of. apply unorm_nonnil.
Qed.

Lemma str_of_nat_inj (n m : nat) : str_of_nat n = str_of_nat m -> n = m.
Proof.
  unfold str_of_nat. intros H.
  apply (f_equal NilZero.uint_of_string) in H.
  rewrite !NilZero.usu in H by apply to_uint_nonnil.
  injection H as H. now apply Unsigned.to_uint_inj.
Qed.

(** Different runs have different cache keys. *)
Lemma key_injective (r r' : nat) : CAPTCHA_CACHE_KEY r = CAPTCHA_CACHE_KEY r' -> r = r'.
Proof.
  unfold CAPTCHA_CACHE_KEY. intros H. apply append_inv_l in H. now apply str_of_nat_inj.
Qed.

(** X10: [get_status] leaves everything as it was for a request that is
    not a POST, for a submission that is missing or blank, and when no run
    exists yet; otherwise the stripped text is readable in the latest run's
    slot, with a life of 300 seconds. *)
Theorem get_status_stores_only_answers (req : request) (s : state) :
  (method req <> "POST" -> snd (get_status req s) = s) /\
  (submitted_text req = "" -> snd (get_status req s) = s) /\
  (runs s = [] -> snd (get_status req s) = s) /\
  (forall r, method req = "POST" -> submitted_text req <> "" -> head (runs s) = Some r ->
     cache (snd (get_status req s)) !! CAPTCHA_CACHE_KEY r
       = Some (submitted_text req, (now s + 300)%Z) /\
     fst (cache_get (CAPTCHA_CACHE_KEY r) (snd (get_status req s)))
       = Ok (Some (submitted_text req))).
Proof.
  destruct (get_status_effect req s) as [page Hg]. rewrite Hg. simpl. unfold submits.
  split; [| split; [| split]].
  - intros Hm. apply String.eqb_neq in Hm. now rewrite Hm.
  - intros ->. now rewrite andb_false_r.
  - intros Hr. rewrite Hr. simpl. now destruct (_ && _).
  - intros r Hm Ht Hr. apply String.eqb_eq in Hm. apply truthy_nonempty in Ht.
    rewrite Hm, Ht, Hr. unfold cache_get. simpl. rewrite lookup_insert_eq.
    assert (Hlt : (now s <? now s + 300)%Z = true) by (apply Z.ltb_lt; lia).
    rewrite Hlt. split; reflexivity.
Qed.

(** Exercising X10 on a padded answer. *)
Lemma get_status_stores_only_answers_witness :
  cache (snd (get_status (MkRequest "POST" [("captcha_value", " X7K2 ")]) waiting_state))
    !! CAPTCHA_CACHE_KEY 1 = Some ("X7K2", 300%Z) /\
  fst (cache_get (CAPTCHA_CACHE_KEY 1)
         (snd (get_status (MkRequest "POST" [("captcha_value", " X7K2 ")]) waiting_state)))
    = Ok (Some "X7K2").
Proof.
  apply (proj2 (proj2 (proj2 (get_status_stores_only_answers
           (MkRequest "POST" [("captcha_value", " X7K2 ")]) waiting_state))) 1%nat).
  - reflexivity.
  - discriminate.
  - reflexivity.
Defined.

(** X11: a submission reaches the latest run only: the slot of every other
    run is as it was before. *)
Theorem submission_reaches_latest_run_only (req : request) (s : state) (latest other : nat) :
  head (runs s) = Some latest -> other <> latest ->
  cache (snd (get_status req s)) !! CAPTCHA_CACHE_KEY other
    = cache s !! CAPTCHA_CACHE_KEY other.
Proof.
  intros Hl Hne. destruct (get_status_effect req s) as [page Hg]. rewrite Hg. simpl.
  rewrite Hl. destruct (submits req); [| reflexivity]. simpl.
  apply lookup_insert_ne. intros Hk. apply key_injective in Hk. congruence.
Qed.

(** Exercising X11: run 1 is the latest, run 7 is another one. *)
Lemma submission_reaches_latest_run_only_witness :
  cache (snd (get_status (MkRequest "POST" [("captcha_value", "X7K2")]) waiting_state))
    !! CAPTCHA_CACHE_KEY 7
  = cache waiting_state !! CAPTCHA_CACHE_KEY 7.
Proof.
  apply (submission_reaches_latest_run_only _ waiting_state 1 7).
  - reflexivity.
  - discriminate.
Defined.

(** ** Sleeping through quiet stretches *)

Lemma sleep_quiet_once (intake : nat -> list request) (d : Z) (s : state) :
  quiet (intake (naps s)) ->
  sleep intake d s = (Ok tt, set_clock (now s + d)%Z (S (naps s)) s).
Proof.
  intros Hq. unfold sleep, bind, get_state, modify. now apply serve_quiet.
Qed.

Lemma quiet_for_later (intake : nat -> list request) (t : Z) (k : nat) (s : state) :
  quiet_for intake s (S k) ->
  quiet (intake (naps s)) /\ quiet_for intake (set_clock t (S (naps s)) s) k.
Proof.
  intros Hq. split; [apply Hq; lia |]. intros n Hn. apply Hq. simpl in Hn. lia.
Qed.

(** One round of the loop when the slot reads as empty. *)
Lemma poll_step_idle (intake : nat -> list request) (key : string)
      (timeout poll_interval : Z) (fuel : nat) (waited : Z) (s : state) :
  (waited < timeout)%Z -> idle key s ->
  poll intake (S fuel) key timeout poll_interval waited s =
    (sleep intake poll_interval >>>
     poll intake fuel key timeout poll_interval (waited + poll_interval)%Z) s.
Proof.
  intros Hw Hidle. simpl. apply Z.ltb_lt in Hw. rewrite Hw.
  unfold bind at 1. destruct (idle_get key s Hidle) as [-> | ->]; reflexivity.
Qed.

Lemma idle_slept (key : string) (d : Z) (k : nat) (s : state) :
  (0 < d)%Z -> idle key s -> idle key (slept k d s).
Proof.
  unfold idle, slept. simpl. destruct (cache s !! key) as [[v expires]|]; [| auto].
  intros Hd [-> | H]; [auto | right; nia].
Qed.

(** [k] quiet sleeps in a row. *)
Lemma poll_quiet_steps (intake : nat -> list request) (key : string)
      (timeout poll_interval : Z) (k fuel : nat) (waited : Z) (s : state) :
  (0 < poll_interval)%Z -> idle key s -> quiet_for intake s k ->
  (k = 0%nat \/ (waited + (Z.of_nat k - 1) * poll_interval < timeout)%Z) ->
  poll intake (k + fuel) key timeout poll_interval waited s =
    poll intake fuel key timeout poll_interval
         (waited + Z.of_nat k * poll_interval)%Z (slept k poll_interval s).
Proof.
  intros Hp. revert waited s.
  induction k as [|k IH]; intros waited s Hidle Hq Hk.
  - rewrite slept_0. simpl Z.of_nat. now rewrite Z.mul_0_l, Z.add_0_r.
  - destruct Hk as [Hk | Hk]; [discriminate |].
    change (S k + fuel)%nat with (S (k + fuel)).
    rewrite poll_step_idle; [| nia | exact Hidle].
    destruct (quiet_for_later intake (now s + poll_interval)%Z k s Hq) as [Hq0 Hq'].
    unfold bind. rewrite (sleep_quiet_once intake poll_interval s Hq0).
    rewrite IH; [| now apply idle_later | exact Hq' | right; nia].
    rewrite slept_S. f_equal. nia.
Qed.

(** A sleep during which one answer arrives for the latest run. *)
Lemma sleep_answered (intake : nat -> list request) (d : Z) (s : state)
      (req : request) (run_id : nat) :
  intake (naps s) = [req] -> submits req = true -> head (runs s) = Some run_id ->
  sleep intake d s =
    (Ok tt,
     set_cache (<[CAPTCHA_CACHE_KEY run_id := (submitted_text req, (now s + d + 300)%Z)]>
                  (cache s))
               (set_clock (now s + d)%Z (S (naps s)) s)).
Proof.
  intros Hin Hs Hr. unfold sleep, bind, get_state, modify. rewrite Hin. simpl.
  destruct (get_status_effect req (set_clock (now s + d)%Z (S (naps s)) s)) as [page Hg].
  unfold bind. rewrite Hg, Hs. simpl. rewrite Hr. reflexivity.
Qed.

(** A value in the slot is returned by the next poll, whatever time has
    been waited so far. *)
Lemma poll_present_at (intake : nat -> list request) (key v : string) (expires : Z)
      (timeout poll_interval : Z) (fuel : nat) (waited : Z) (s : state) :
  (waited < timeout)%Z -> cache s !! key = Some (v, expires) -> (now s < expires)%Z ->
  v <> "" ->
  poll intake (S fuel) key timeout poll_interval waited s
    = (Ok (Some v), set_cache (delete key (cache s)) s).
Proof.
  intros Hw Hc Hexp Hv. simpl. apply Z.ltb_lt in Hw. rewrite Hw.
  unfold bind at 1, cache_get. rewrite Hc.
  apply Z.ltb_lt in Hexp. rewrite Hexp.
  apply truthy_nonempty in Hv. now rewrite Hv.
Qed.

Lemma submits_nonempty (req : request) : submits req = true -> submitted_text req <> "".
Proof.
  unfold submits. intros H. apply andb_true_iff in H as [_ H]. now apply truthy_nonempty.
Qed.

(** X12: an answer submitted for the latest run during sleep number [k] of
    a wait, with the timeout not yet reached after that sleep, is returned
    by the wait right after that sleep, stripped of surrounding white
    space, and the slot is empty afterwards. *)
Theorem answer_during_wait_is_delivered
    (intake : nat -> list request) (fuel run_id : nat) (timeout poll_interval : Z)
    (k : nat) (req : request) (s : state) :
  (0 < poll_interval)%Z ->
  head (runs s) = Some run_id ->
  idle (CAPTCHA_CACHE_KEY run_id) s ->
  quiet_for intake s k -> intake (naps s + k)%nat = [req] -> submits req = true ->
  (Z.of_nat (S k) * poll_interval < timeout)%Z ->
  (S (S k) <= fuel)%nat ->
  exists s',
    _wait_for_captcha_value intake fuel run_id timeout poll_interval s
      = (Ok (Some (submitted_text req)), s') /\
    naps s' = (naps s + S k)%nat /\
    now s' = (now s + Z.of_nat (S k) * poll_interval)%Z /\
    slot_empty run_id s'.
Proof.
  intros Hp Hrun Hidle Hq Hin Hsub Ht Hfuel.
  unfold _wait_for_captcha_value. cbv zeta.
  replace fuel with (k + S (S (fuel - S (S k))))%nat by lia.
  eexists.
  rewrite poll_quiet_steps; [| exact Hp | exact Hidle | exact Hq | right; nia].
  rewrite poll_step_idle; [| nia | now apply idle_slept].
  unfold bind.
  rewrite (sleep_answered intake poll_interval (slept k poll_interval s) req run_id);
    [| exact Hin | exact Hsub | exact Hrun].
  erewrite poll_present_at;
    [| nia | simpl; apply lookup_insert_eq | simpl; lia | now apply submits_nonempty].
  split; [reflexivity |]. simpl.
  repeat split; [lia | nia |].
  unfold slot_empty. simpl. apply lookup_delete_eq.
Qed.

(** Exercising X12: the operator answers during the third sleep. *)
Lemma answer_during_wait_is_delivered_witness :
  exists s',
    _wait_for_captcha_value (answers_at 2 " X7K2 ") 180 1 180 1 waiting_state
      = (Ok (Some (submitted_text (MkRequest "POST" [("captcha_value", " X7K2 ")]))), s') /\
    naps s' = (naps waiting_state + 3)%nat /\
    now s' = (now waiting_state + Z.of_nat 3 * 1)%Z /\
    slot_empty 1 s'.
Proof.
  apply (answer_during_wait_is_delivered (answers_at 2 " X7K2 ") 180 1 180 1 2
           (MkRequest "POST" [("captcha_value", " X7K2 ")]) waiting_state).
  - lia.
  - reflexivity.
  - exact I.
  - intros n Hn. simpl in Hn. unfold answers_at.
    destruct n as [|[|n]]; [reflexivity | reflexivity | lia].
  - reflexivity.
  - reflexivity.
  - vm_compute. reflexivity.
  - lia.
Defined.

(** X13: an answer submitted during the last sleep of a wait comes too
    late for it: the wait returns [None] and leaves the answer in the slot,
    and the next wait of the run returns it at once. *)
Theorem late_answer_goes_to_next_wait
    (intake : nat -> list request) (fuel run_id : nat) (timeout poll_interval : Z)
    (k : nat) (req : request) (s : state) :
  (0 < poll_interval)%Z ->
  head (runs s) = Some run_id ->
  idle (CAPTCHA_CACHE_KEY run_id) s ->
  quiet_for intake s k -> intake (naps s + k)%nat = [req] -> submits req = true ->
  (Z.of_nat k * poll_interval < timeout <= Z.of_nat (S k) * poll_interval)%Z ->
  (S (S k) <= fuel)%nat ->
  exists s1 s2,
    _wait_for_captcha_value intake fuel run_id timeout poll_interval s = (Ok None, s1) /\
    slot_holds run_id (submitted_text req) s1 /\
    _wait_for_captcha_value intake fuel run_id timeout poll_interval s1
      = (Ok (Some (submitted_text req)), s2) /\
    naps s2 = naps s1.
Proof.
  intros Hp Hrun Hidle Hq Hin Hsub [Ht1 Ht2] Hfuel.
  unfold _wait_for_captcha_value. cbv zeta.
  assert (Hfirst : forall f,
             poll intake (k + S (S f)) (CAPTCHA_CACHE_KEY run_id) timeout poll_interval 0 s
             = (Ok None,
                set_cache (<[CAPTCHA_CACHE_KEY run_id :=
                               (submitted_text req,
                                (now (slept k poll_interval s) + poll_interval + 300)%Z)]>
                             (cache s))
                          (slept (S k) poll_interval s))).
  { intros f.
    rewrite poll_quiet_steps;
      [| exact Hp | exact Hidle | exact Hq | destruct k; [left; reflexivity | right; nia]].
    rewrite poll_step_idle; [| nia | now apply idle_slept].
    unfold bind.
    rewrite (sleep_answered intake poll_interval (slept k poll_interval s) req run_id);
      [| exact Hin | exact Hsub | exact Hrun].
    simpl poll.
    assert (Hw : (0 + Z.of_nat k * poll_interval + poll_interval <? timeout)%Z = false)
      by (apply Z.ltb_ge; nia).
    rewrite Hw. unfold ret. f_equal. unfold slept, set_cache, set_clock. simpl.
    f_equal; lia. }
  eexists. eexists.
  split; [replace fuel with (k + S (S (fuel - S (S k))))%nat by lia; apply Hfirst |].
  split; [| split].
  - eexists. split; [simpl; apply lookup_insert_eq | simpl; lia].
  - replace fuel with (S (fuel - 1)) by lia.
    eapply poll_present_at; [nia | simpl; apply lookup_insert_eq | simpl; lia |
                             now apply submits_nonempty].
  - reflexivity.
Qed.

(** Exercising X13: a 3 s timeout and an answer during the third sleep. *)
Lemma late_answer_goes_to_next_wait_witness :
  exists s1 s2,
    _wait_for_captcha_value (answers_at 2 "X7K2") 5 1 3 1 waiting_state = (Ok None, s1) /\
    slot_holds 1 (submitted_text (MkRequest "POST" [("captcha_value", "X7K2")])) s1 /\
    _wait_for_captcha_value (answers_at 2 "X7K2") 5 1 3 1 s1
      = (Ok (Some (submitted_text (MkRequest "POST" [("captcha_value", "X7K2")]))), s2) /\
    naps s2 = naps s1.
Proof.
  apply (late_answer_goes_to_next_wait (answers_at 2 "X7K2") 5 1 3 1 2
           (MkRequest "POST" [("captcha_value", "X7K2")]) waiting_state).
  - lia.
  - reflexivity.
  - exact I.
  - intros n Hn. simpl in Hn. unfold answers_at.
    destruct n as [|[|n]]; [reflexivity | reflexivity | lia].
  - reflexivity.
  - reflexivity.
  - lia.
  - lia.
Defined.

(** X14: an answer whose 300 seconds have run out is never returned: with
    no new submission the wait polls until the timeout, returns [None] and
    leaves the cache as it is. *)
Theorem expired_answer_is_not_returned
    (intake : nat -> list request) (fuel run_id : nat) (timeout poll_interval : Z)
    (v : string) (expires : Z) (s : state) :
  (0 < poll_interval)%Z -> (Z.to_nat timeout <= fuel)%nat ->
  cache s !! CAPTCHA_CACHE_KEY run_id = Some (v, expires) -> (expires <= now s)%Z ->
  no_submission intake s ->
  exists n,
    _wait_for_captcha_value intake fuel run_id timeout poll_interval s
      = (Ok None, slept n poll_interval s) /\
    (timeout <= Z.of_nat n * poll_interval)%Z /\
    cache (slept n poll_interval s) = cache s.
Proof.
  intros Hp Hfuel Hc Hexp Hq. unfold _wait_for_captcha_value.
  assert (Hidle : idle (CAPTCHA_CACHE_KEY run_id) s)
    by (unfold idle; rewrite Hc; auto).
  assert (Hf : (Z.to_nat (timeout - 0) <= fuel)%nat) by (now rewrite Z.sub_0_r).
  destruct (poll_idle intake (CAPTCHA_CACHE_KEY run_id) timeout poll_interval
                      fuel 0 s Hp Hf Hidle Hq) as (n & Hn & Hge & _).
  exists n. repeat split; [exact Hn | lia].
Qed.

(** Exercising X14: the answer expired at time 300, it is time 400. *)
Lemma expired_answer_is_not_returned_witness :
  exists n,
    _wait_for_captcha_value silent 3 1 3 1 stale_state = (Ok None, slept n 1 stale_state) /\
    (3 <= Z.of_nat n * 1)%Z /\
    cache (slept n 1 stale_state) = cache stale_state.
Proof.
  apply (expired_answer_is_not_returned silent 3 1 3 1 "X7K2" 300 stale_state).
  - lia.
  - vm_compute. lia.
  - reflexivity.
  - vm_compute. congruence.
  - intros n _. reflexivity.
Defined.

End RelayMore.

(* ===================================================================== *)
(** * More on the results phase *)
(* ===================================================================== *)

Module ResultsMore.
Import Text Eff Relay Store Capture Scrape Props Shapes ResultsFacts.
Local Open Scope eff_scope.

Section Rows.
Variable e : env.
Variable new_run : nat.
Variable page : nat.

(** A row whose place in the refreshed list is gone ends the row loop. *)
Lemma process_row_gone (i : nat) (s : state) :
  row_gone i (po_row (pages e page) i) ->
  process_row e new_run page i tt s =
    (Ok (tt, Break), set_journal (journal s ++ [RowAttempted page i]) s).
Proof.
  intros (n & Hr & Hn). apply Nat.leb_le in Hn.
  unfold process_row, try_except, bind, note, modify, ask, ret.
  simpl. rewrite Hr. simpl. now rewrite Hn.
Qed.

Lemma rows_until_gone (j n a : nat) (s : state) :
  (a <= j < a + n)%nat ->
  (forall i, (a <= i < j)%nat -> row_succeeds i (po_row (pages e page) i)) ->
  row_gone j (po_row (pages e page) j) ->
  exists s',
    for_each (process_row e new_run page) (seq a n) tt s = (Ok (tt, None), s') /\
    journal s' = (journal s ++ map (RowAttempted page) (seq a (S j - a)))%list /\
    length (records s') = (length (records s) + (j - a))%nat.
Proof.
  revert a s. induction n as [|n IH]; intros a s Hj Hgood Hgone; [lia |].
  simpl. unfold bind.
  destruct (Nat.eq_dec a j) as [-> | Hne].
  - rewrite (process_row_gone j s Hgone). simpl.
    eexists. split; [reflexivity |]. simpl.
    replace (S j - j)%nat with 1%nat by lia. replace (j - j)%nat with 0%nat by lia.
    split; [reflexivity | lia].
  - destruct (process_row_succeeds e new_run page a s) as (s1 & H1 & Hj1 & Hr1);
      [apply Hgood; lia |].
    rewrite H1. simpl.
    destruct (IH (S a) s1) as (s' & H' & Hj' & Hr'); [lia | | exact Hgone |].
    + intros i Hi. apply Hgood. lia.
    + exists s'. split; [exact H' |]. split.
      * rewrite Hj', Hj1, <- app_assoc.
        replace (S j - a)%nat with (S (S j - S a)) by lia. reflexivity.
      * lia.
Qed.

(** Whatever happens in a row, no stored record is lost. *)
Lemma process_row_grows (i : nat) (s : state) :
  exists f s' extra,
    process_row e new_run page i tt s = (Ok (tt, f), s') /\
    records s' = (records s ++ extra)%list.
Proof.
  unfold process_row, save_to_db, section_at, all_sections_of,
    try_except, bind, note, modify, ask, ret, raise, _create_status.
  simpl.
  repeat match goal with
         | |- context [match ?r with Got _ => _ | Throws _ => _ end] =>
             destruct r as [?|?]; simpl
         | |- context [if Nat.leb ?a ?b then _ else _] => destruct (Nat.leb a b); simpl
         end;
    first [ eexists _, _, []; split; [reflexivity |]; simpl; now rewrite app_nil_r
          | eexists _, _, [_]; split; [reflexivity |]; reflexivity ].
Qed.

Lemma rows_loop_grows (k a : nat) (s : state) :
  exists s' extra,
    for_each (process_row e new_run page) (seq a k) tt s = (Ok (tt, None), s') /\
    records s' = (records s ++ extra)%list.
Proof.
  revert a s. induction k as [|k IH]; intros a s; simpl.
  - exists s, []. now rewrite app_nil_r.
  - unfold bind.
    destruct (process_row_grows a s) as (f & s1 & x1 & H1 & Hr1).
    destruct (process_row_total e new_run page a s) as (f' & s1' & H1' & Hf & _).
    rewrite H1 in H1'. injection H1' as <- <-.
    rewrite H1. simpl. destruct Hf as [-> | ->].
    + destruct (IH (S a) s1) as (s' & x & H' & Hr').
      exists s', (x1 ++ x)%list. split; [exact H' |].
      rewrite Hr', Hr1, <- app_assoc. reflexivity.
    + exists s1, x1. auto.
Qed.

End Rows.

Section Pages.
Variable e : env.
Variable new_run : nat.

(** [n] pages in a row that load and lead on to the next one. *)
Lemma results_loop_advance (n p fuel : nat) (s : state) :
  (forall q, (p <= q < p + n)%nat ->
             page_loads (pages e q) /\ next_enabled (po_next (pages e q))) ->
  exists s' extra,
    results_loop e new_run (n + fuel) p s = results_loop e new_run fuel (p + n) s' /\
    visited_pages (journal s') = (visited_pages (journal s) ++ seq p n)%list /\
    records s' = (records s ++ extra)%list /\
    quits s' = quits s.
Proof.
  revert p s. induction n as [|n IH]; intros p s Hgood.
  - exists s, []. rewrite Nat.add_0_r, !app_nil_r. auto.
  - destruct (Hgood p) as [[k Hk] Hnext]; [lia |].
    change (S n + fuel)%nat with (S (n + fuel)). simpl results_loop.
    unfold bind at 1. rewrite Hk. simpl.
    unfold bind at 1. unfold note at 1, modify.
    set (s0 := set_journal (journal s ++ [PageVisited p]) s).
    destruct (process_rows_total e new_run p k s0) as (s1 & H1 & Hv1 & Hq1).
    destruct (rows_loop_grows e new_run p k 0 s0) as (s1' & x1 & H1' & Hr1).
    assert (s1' = s1).
    { unfold process_rows, range, bind in H1. rewrite H1' in H1. now injection H1. }
    subst s1'.
    unfold bind at 1. rewrite H1.
    unfold bind. rewrite (paginate_goes_on e p s1 Hnext).
    destruct (IH (S p) s1) as (s' & x & H' & Hv' & Hr' & Hq').
    { intros q Hq. apply Hgood. lia. }
    exists s', (x1 ++ x)%list. replace (p + S n)%nat with (S p + n)%nat by lia.
    split; [exact H' |]. split; [| split].
    + rewrite Hv', Hv1. unfold s0. simpl. rewrite visited_pages_app, <- app_assoc.
      reflexivity.
    + rewrite Hr', Hr1, <- app_assoc. reflexivity.
    + rewrite Hq', Hq1. reflexivity.
Qed.

End Pages.

(** X15: the page loop has no bound of its own: on a site where every page
    loads and its "next" control is never disabled, no number of rounds
    brings the loop to an end. *)
Theorem pagination_has_no_bound (e : env) (new_run : nat) :
  (forall p, page_loads (pages e p) /\ next_enabled (po_next (pages e p))) ->
  forall fuel s, fst (results_loop e new_run fuel 0 s) = OutOfFuel.
Proof.
  intros Hgood fuel s.
  destruct (results_loop_advance e new_run fuel 0 0 s) as (s' & x & H & _).
  - intros q _. apply Hgood.
  - rewrite Nat.add_0_r in H. rewrite H. reflexivity.
Qed.

(** Exercising X15 on a site whose "next" control always works. *)
Lemma pagination_has_no_bound_witness :
  forall fuel s, fst (results_loop endless_site 1 fuel 0 s) = OutOfFuel.
Proof.
  apply (pagination_has_no_bound endless_site 1).
  intros p. split.
  - exists 3%nat. reflexivity.
  - split; [reflexivity | split; [| split; reflexivity]].
    eexists. split; reflexivity.
Defined.

(** X16: when the row list of page [N] fails to load, after [N] pages that
    loaded and led on, the exception leaves the page loop: the run does not
    end normally, while the records stored from the earlier pages stay. *)
Theorem page_load_failure_leaves_loop
    (e : env) (new_run N fuel : nat) (ex : exn) (s : state) :
  (N < fuel)%nat ->
  (forall p, (p < N)%nat -> page_loads (pages e p) /\ next_enabled (po_next (pages e p))) ->
  po_rows (pages e N) = Throws ex ->
  exists s' extra,
    results_loop e new_run fuel 0 s = (Raise ex, s') /\
    report_results e new_run fuel s = (Raise ex, s') /\
    visited_pages (journal s') = (visited_pages (journal s) ++ seq 0 N)%list /\
    records s' = (records s ++ extra)%list /\
    quits s' = quits s.
Proof.
  intros Hfuel Hgood Hfail.
  destruct (results_loop_advance e new_run N 0 (fuel - N) s) as (s' & x & H & Hv & Hr & Hq).
  - intros q Hq. apply Hgood. lia.
  - replace (N + (fuel - N))%nat with fuel in H by lia.
    assert (Hloop : results_loop e new_run fuel 0 s = (Raise ex, s')).
    { rewrite H. destruct (fuel - N)%nat as [|f] eqn:Hf; [lia |].
      simpl. unfold bind. rewrite Hfail. reflexivity. }
    exists s', x. unfold report_results, bind. rewrite Hloop. auto.
Qed.

(** Exercising X16: the second page of the site does not load. *)
Lemma page_load_failure_leaves_loop_witness :
  exists s' extra,
    results_loop torn_site 1 5 0 fresh = (Raise (WebDriverException "timeout"), s') /\
    report_results torn_site 1 5 fresh = (Raise (WebDriverException "timeout"), s') /\
    visited_pages (journal s') = (visited_pages (journal fresh) ++ seq 0 1)%list /\
    records s' = (records fresh ++ extra)%list /\
    quits s' = quits fresh.
Proof.
  apply (page_load_failure_leaves_loop torn_site 1 1 5 _ fresh).
  - lia.
  - intros [|p] Hp; [| lia]. split.
    + exists 3%nat. reflexivity.
    + split; [reflexivity | split; [| split; reflexivity]].
      eexists. split; reflexivity.
  - reflexivity.
Defined.

(** X17: when the refreshed row list no longer reaches row [j], the row
    loop stops there: the rows before it have been processed, row [j] and
    the rows after it are not, and the loop ends normally. *)
Theorem shrunken_row_list_stops_row_loop
    (e : env) (new_run page K j : nat) (s : state) :
  (j < K)%nat ->
  (forall i, (i < j)%nat -> row_succeeds i (po_row (pages e page) i)) ->
  row_gone j (po_row (pages e page) j) ->
  exists s',
    process_rows e new_run page K s = (Ok tt, s') /\
    journal s' = (journal s ++ map (RowAttempted page) (seq 0 (S j)))%list /\
    length (records s') = (length (records s) + j)%nat.
Proof.
  intros Hj Hgood Hgone.
  destruct (rows_until_gone e new_run page j K 0 s) as (s' & H & Hjn & Hr).
  - lia.
  - intros i Hi. apply Hgood. lia.
  - exact Hgone.
  - exists s'. unfold process_rows, range, bind. rewrite H.
    rewrite Nat.sub_0_r in Hjn, Hr. auto.
Qed.

(** Exercising X17: three rows, two left when the third is reached. *)
Lemma shrunken_row_list_stops_row_loop_witness :
  exists s',
    process_rows shrinking_site 1 0 3 fresh = (Ok tt, s') /\
    journal s' = (journal fresh ++ map (RowAttempted 0) (seq 0 3))%list /\
    length (records s') = (length (records fresh) + 2)%nat.
Proof.
  apply (shrunken_row_list_stops_row_loop shrinking_site 1 0 3 2 fresh).
  - lia.
  - intros [|[|i]] Hi; try lia;
      (split; [exists 3%nat; split; [reflexivity | lia] |
               split; [reflexivity | split; [eexists; reflexivity | reflexivity]]]).
  - exists 2%nat. split; [reflexivity | lia].
Defined.

End ResultsMore.

(* ===================================================================== *)
(** * More on the capture *)
(* ===================================================================== *)

Module CaptureMore.
Import Eff Pynum Capture Props CaptureFacts.
Local Open Scope Z_scope.

(** X18: whatever image a capture returns lies within the screenshot:
    neither side is negative or longer than the screenshot's. *)
Theorem capture_fits_in_screenshot (o : capture_obs) (img : image) :
  _screenshot_element o = Ok img ->
  0 <= width img <= fst (co_png o) /\ 0 <= height img <= snd (co_png o).
Proof.
  intros H. apply screenshot_edges in H as (l & t & r & b & _ & _ & _ & _ & Hx & Hy & ->).
  simpl. lia.
Qed.

(** Exercising X18 on the sample capture. *)
Lemma capture_fits_in_screenshot_witness :
  0 <= width (MkImage 240 80) <= fst (co_png sample_capture) /\
  0 <= height (MkImage 240 80) <= snd (co_png sample_capture).
Proof.
  apply (capture_fits_in_screenshot sample_capture (MkImage 240 80)).
  reflexivity.
Defined.

(** X19: when position and size are whole numbers and the pixel ratio is
    a whole number [k] (a null or zero ratio counts as 1), the arithmetic
    is exact, and an element that lies inside the screenshot is returned at
    exactly [k] times its size. *)
Theorem whole_ratio_scales_element (dpr : option number) (k W H x y w h : Z) :
  dpr_or_1 dpr = PyInt k -> 1 <= k ->
  0 <= x -> 0 <= y -> 0 <= w -> 0 <= h ->
  k * (x + w) <= W -> k * (y + h) <= H ->
  _screenshot_element (MkCapture dpr (W, H) (PyInt x, PyInt y) (PyInt w, PyInt h))
    = Ok (MkImage (k * w) (k * h)).
Proof.
  intros Hq Hk Hx Hy Hw Hh HW HH.
  rewrite (screenshot_of_edges dpr W H (PyInt x) (PyInt y) (PyInt w) (PyInt h)
             (x * k) (y * k) ((x + w) * k) ((y + h) * k));
    try (unfold pixel_of, far_pixel_of; rewrite Hq; reflexivity).
  unfold crop.
  assert (Hx1 : (Z.min W ((x + w) * k) <? Z.max 0 (x * k)) = false)
    by (apply Z.ltb_ge; nia).
  assert (Hy1 : (Z.min H ((y + h) * k) <? Z.max 0 (y * k)) = false)
    by (apply Z.ltb_ge; nia).
  rewrite Hx1, Hy1. f_equal. f_equal; nia.
Qed.

(** Exercising X19: the browser reports no pixel ratio. *)
Lemma whole_ratio_scales_element_witness :
  _screenshot_element
    (MkCapture None (1600, 1200) (PyInt 100, PyInt 200) (PyInt 120, PyInt 40))
    = Ok (MkImage (1 * 120) (1 * 40)).
Proof.
  apply (whole_ratio_scales_element None 1 1600 1200 100 200 120 40);
    try lia; reflexivity.
Defined.

End CaptureMore.

(* ===================================================================== *)
(** * More on the store and the log *)
(* ===================================================================== *)

Module StoreMore.
Import Text Eff Relay Store Scrape Sheets Props Shapes.
Local Open Scope eff_scope.

(** X20: [save_to_db] stores all or nothing: either five sections are
    there and the database accepts the insert, and exactly one record is
    appended, or the exception is raised again and the state is as it
    was. *)
Theorem save_to_db_all_or_nothing (db : reply unit) (all_sections : list section)
    (s : state) :
  ((5 <= length all_sections)%nat /\ db = Got tt /\
   exists r, save_to_db db all_sections s = (Ok tt, set_records (records s ++ [r]) s)) \/
  (exists ex, save_to_db db all_sections s = (Raise ex, s) /\
              ((length all_sections < 5)%nat \/ db = Throws ex)).
Proof.
  unfold save_to_db, section_at, try_except, bind, ask, ret, raise, modify.
  destruct all_sections as [|s0 [|s1 [|s2 [|s3 [|s4 rest]]]]]; simpl;
    try (right; eexists; split; [reflexivity | left; lia]).
  destruct db as [[]|ex]; simpl.
  - left. split; [lia |]. split; [reflexivity |]. eexists. reflexivity.
  - right. exists ex. split; [reflexivity | right; reflexivity].
Qed.

(** X21: after [clear_logs] the status page shows no status row and no
    latest status, while the export is what it was before. *)
Theorem clear_logs_empties_page_only (req : request) (s : state) :
  (exists page s',
     (clear_logs >>> get_status req) s = (Ok page, s') /\
     pg_statuses page = [] /\ pg_status page = None /\ statuses s' = []) /\
  fst ((clear_logs >>> download_excel) s) = fst (download_excel s).
Proof.
  split.
  - unfold clear_logs, bind, modify, ret. simpl.
    unfold get_status, bind, latest_run, get_state, ret, cache_set, modify. simpl.
    destruct (head (runs s)) as [r|];
      destruct (String.eqb (method req) "POST");
      try destruct (truthy (strip (or_empty (Dict.get "captcha_value" (POST req)))));
      simpl; eexists _, _; (split; [reflexivity |]); auto.
  - unfold clear_logs, download_excel, bind, modify, ret, get_state. simpl.
    destruct (records s); reflexivity.
Qed.

End StoreMore.

(* ===================================================================== *)
(** * More on the run as a whole *)
(* ===================================================================== *)

Module RunMore.
Import Text Eff Relay Store Capture Scrape Props Shapes RelayFacts SessionFacts RelayMore.
Local Open Scope eff_scope.

(** X22: a request that is not a POST gets the form page, yet a run has
    been created for it: an answer submitted afterwards lands in the slot
    of that new run, and the slot of every run that existed before stays
    as it was. *)
Theorem form_request_diverts_answers
    (e : env) (fuel : nat) (req0 req : request) (s : state) :
  method req0 <> "POST" -> submits req = true ->
  exists page s',
    (trigger_scrape e fuel req0 >>> get_status req) s = (Ok page, s') /\
    fst (trigger_scrape e fuel req0 s) = Ok (Render "scraper_app/scrape_form.html") /\
    runs s' = S (length (runs s)) :: runs s /\
    slot_holds (S (length (runs s))) (submitted_text req) s' /\
    (forall old, old <> S (length (runs s)) ->
                 cache s' !! CAPTCHA_CACHE_KEY old = cache s !! CAPTCHA_CACHE_KEY old) /\
    statuses s' = statuses s /\ quits s' = quits s.
Proof.
  intros Hm Hsub.
  assert (Hform : trigger_scrape e fuel req0 s =
                  (Ok (Render "scraper_app/scrape_form.html"), started s)).
  { unfold trigger_scrape, bind, create_run.
    destruct (String.eqb_spec (method req0) "POST") as [Heq | _]; [contradiction |].
    reflexivity. }
  destruct (get_status_effect req (started s)) as [page Hg].
  rewrite Hsub in Hg. simpl in Hg.
  exists page. eexists. rewrite bind_eq, Hform. split; [exact Hg |].
  split; [reflexivity |]. split; [reflexivity |]. split; [| split].
  - eexists. simpl. split; [apply lookup_insert_eq | lia].
  - intros old Hold. simpl. apply lookup_insert_ne.
    intros Hk. apply key_injective in Hk. congruence.
  - split; reflexivity.
Qed.

(** Exercising X22: the form page is opened while run 1 waits. *)
Lemma form_request_diverts_answers_witness :
  exists page s',
    (trigger_scrape sample_site 5 form_request >>>
     get_status (MkRequest "POST" [("captcha_value", " X7K2 ")])) waiting_state
      = (Ok page, s') /\
    fst (trigger_scrape sample_site 5 form_request waiting_state)
      = Ok (Render "scraper_app/scrape_form.html") /\
    runs s' = S (length (runs waiting_state)) :: runs waiting_state /\
    slot_holds (S (length (runs waiting_state)))
               (submitted_text (MkRequest "POST" [("captcha_value", " X7K2 ")])) s' /\
    (forall old, old <> S (length (runs waiting_state)) ->
                 cache s' !! CAPTCHA_CACHE_KEY old
                 = cache waiting_state !! CAPTCHA_CACHE_KEY old) /\
    statuses s' = statuses waiting_state /\ quits s' = quits waiting_state.
Proof.
  apply (form_request_diverts_answers sample_site 5 form_request
           (MkRequest "POST" [("captcha_value", " X7K2 ")]) waiting_state).
  - discriminate.
  - reflexivity.
Defined.

(** X23: a POST whose dates do not convert is answered with status 400:
    one status row is written for the new run, and neither the browser,
    the clock nor the records are touched. *)
Theorem rejected_dates_start_nothing
    (e : env) (fuel : nat) (req : request) (s : state) :
  method req = "POST" -> dates_rejected e req ->
  trigger_scrape e fuel req s =
    (Ok (JsonResponse "Invalid date format. Expected YYYY-MM-DD." 400),
     set_statuses
       (statuses s ++ [MkStatus (S (length (runs s)))
                                "Invalid date format. Expected YYYY-MM-DD." None])
       (started s)).
Proof.
  intros Hm Hd.
  unfold trigger_scrape, bind, create_run, try_except, _create_status, modify, ret.
  rewrite Hm. simpl.
  destruct Hd as [[ex Hf] | (f & ex & Hf & Ht)].
  - rewrite Hf. reflexivity.
  - rewrite Hf. simpl. rewrite Ht. reflexivity.
Qed.

(** Exercising X23: a POST that carries no dates. *)
Lemma rejected_dates_start_nothing_witness :
  trigger_scrape sample_site 5 undated_request fresh =
    (Ok (JsonResponse "Invalid date format. Expected YYYY-MM-DD." 400),
     set_statuses
       (statuses fresh ++ [MkStatus (S (length (runs fresh)))
                                    "Invalid date format. Expected YYYY-MM-DD." None])
       (started fresh)).
Proof.
  apply (rejected_dates_start_nothing sample_site 5 undated_request fresh).
  - reflexivity.
  - left. eexists. reflexivity.
Defined.

(** X24: when the browser cannot be started, the error status is
    written, but the response of the handler is lost: the [finally] block
    reads the unassigned [driver] and its [UnboundLocalError] leaves the
    view; nothing is closed. *)
Theorem unstarted_driver_masks_response
    (e : env) (fuel : nat) (req : request) (s : state) (ex : exn) :
  method req = "POST" -> dates_parse e req -> driver_start e = Throws ex ->
  trigger_scrape e fuel req s =
    (Raise (UnboundLocalError "local variable 'driver' referenced before assignment"),
     set_statuses
       (statuses s ++ [MkStatus (S (length (runs s)))
                         "Scraping failed due to an error. Please check logs and try again."
                         None])
       (started s)).
Proof.
  intros Hm Hd Hstart.
  rewrite (trigger_scrape_runs_session e fuel req s Hm Hd).
  unfold guarded_session. rewrite Hstart. reflexivity.
Qed.

(** Exercising X24 on a site whose driver is missing. *)
Lemma unstarted_driver_masks_response_witness :
  trigger_scrape no_driver_site 5 scrape_request fresh =
    (Raise (UnboundLocalError "local variable 'driver' referenced before assignment"),
     set_statuses
       (statuses fresh ++ [MkStatus (S (length (runs fresh)))
                         "Scraping failed due to an error. Please check logs and try again."
                         None])
       (started fresh)).
Proof.
  apply (unstarted_driver_masks_response no_driver_site 5 scrape_request fresh
           (WebDriverException "chromedriver not found")).
  - reflexivity.
  - eexists _, _. split; reflexivity.
  - reflexivity.
Defined.

(** ** An operator who never answers *)

Lemma await_silent (e : env) (new_run : nat) (s : state) :
  idle (CAPTCHA_CACHE_KEY new_run) s -> no_submission (intake e) s ->
  await_captcha e new_run s = (Ok None, slept 180 1 s).
Proof.
  intros Hidle Hq. unfold await_captcha, _wait_for_captcha_value, CAPTCHA_WAIT_SECONDS.
  cbv zeta.
  destruct (poll_idle (intake e) (CAPTCHA_CACHE_KEY new_run) 180 1 (Z.to_nat 180) 0 s)
    as (n & Hn & Hlo & Hhi); [lia | lia | exact Hidle | exact Hq |].
  rewrite Hn. assert (n = 180%nat) as -> by lia. reflexivity.
Qed.

Lemma idle_after (key : string) (s s' : state) :
  cache s' = cache s -> (now s <= now s')%Z -> idle key s -> idle key s'.
Proof.
  unfold idle. intros -> Hn. destruct (cache s !! key) as [[v expires]|]; [| auto].
  intros [-> | H]; [auto | right; lia].
Qed.

Lemma no_submission_after (intake : nat -> list request) (s s' : state) :
  (naps s <= naps s')%nat -> no_submission intake s -> no_submission intake s'.
Proof. intros Hn Hq n Hle. apply Hq. lia. Qed.

Section Silent.
Variable e : env.
Variable new_run : nat.
Variable img : nat -> image.

(** One login attempt that prompts and is not answered. *)
Lemma login_attempt_times_out (attempt : nat) (flag : bool) (s : state) :
  prompt_shown (login e attempt) (img attempt) ->
  idle (CAPTCHA_CACHE_KEY new_run) s -> no_submission (intake e) s ->
  login_attempt e new_run attempt flag s =
    (Ok (flag, Next),
     set_statuses (statuses s ++ timed_out_rows new_run img attempt) (slept 180 1 s)).
Proof.
  intros (Hform & cap & Hcap & Hshot) Hidle Hq.
  unfold login_attempt, try_except. cbv zeta.
  rewrite bind_eq, Hform. unfold ask at 1, ret at 1. cbv beta iota.
  rewrite bind_eq, Hcap. unfold ask at 1, ret at 1. cbv beta iota.
  rewrite bind_eq. unfold lift at 1. rewrite Hshot.
  rewrite bind_eq. unfold _create_status at 1, modify at 1.
  rewrite bind_eq, await_silent; [| exact Hidle | exact Hq].
  simpl falsy. cbv iota. unfold bind, _create_status, modify, ret.
  unfold timed_out_rows, prompt_1, timed_out_1, slept, set_statuses, set_clock.
  simpl. rewrite <- app_assoc. reflexivity.
Qed.

Lemma login_loop_times_out (k a : nat) (flag : bool) (s : state) :
  (forall i, (a <= i < a + k)%nat -> prompt_shown (login e i) (img i)) ->
  idle (CAPTCHA_CACHE_KEY new_run) s -> no_submission (intake e) s ->
  for_each (login_attempt e new_run) (seq a k) flag s =
    (Ok (flag, None),
     set_statuses (statuses s ++ flat_map (timed_out_rows new_run img) (seq a k))
                  (slept (180 * k) 1 s)).
Proof.
  revert a s. induction k as [|k IH]; intros a s Hshow Hidle Hq.
  - simpl seq. simpl flat_map. rewrite Nat.mul_0_r, slept_0, app_nil_r.
    destruct s; reflexivity.
  - simpl seq. simpl for_each. rewrite bind_eq.
    rewrite login_attempt_times_out; [| apply Hshow; lia | exact Hidle | exact Hq].
    cbv beta iota. unfold snd, fst.
    rewrite IH.
    + f_equal. simpl flat_map. unfold slept, set_statuses, set_clock. simpl.
      rewrite <- app_assoc. f_equal; lia.
    + intros i Hi. apply Hshow. lia.
    + apply (idle_after _ s); [reflexivity | simpl; lia | exact Hidle].
    + apply (no_submission_after _ s); [simpl; lia | exact Hq].
Qed.

(** The language switch is best effort and leaves no trace. *)
Lemma english_switch_leaves_no_trace (s : state) :
  try_except
    (let! links := ask (english_links e) in
     if Nat.leb 3 links then ask (english_click e) else ret tt)
    (fun _ => ret tt) s = (Ok tt, s).
Proof.
  unfold try_except, bind, ask, ret.
  destruct (english_links e) as [n|ex]; [| reflexivity].
  cbv beta iota. destruct (Nat.leb 3 n); [| reflexivity].
  destruct (english_click e) as [[]|ex]; reflexivity.
Qed.

End Silent.

(** X25: when the login form keeps loading but nobody answers, the run
    prompts ten times, waits 180 seconds each time, and gives up with the
    login-exhausted response: it has slept 1800 times, written the opening
    row, a prompt and a timeout row per attempt and the closing row, stored
    no record, and closed the driver twice. *)
Theorem unanswered_login_gives_up
    (e : env) (fuel : nat) (req : request) (img : nat -> image) (s : state) :
  method req = "POST" -> dates_parse e req ->
  driver_start e = Got tt -> open_site e = Got tt ->
  (forall a, (a < 10)%nat -> prompt_shown (login e a) (img a)) ->
  idle (CAPTCHA_CACHE_KEY (S (length (runs s)))) s ->
  no_submission (intake e) s ->
  exists s',
    trigger_scrape e fuel req s = (Ok login_exhausted, s') /\
    statuses s' =
      (statuses s
       ++ [MkStatus (S (length (runs s))) "Filling Username And Password To login" None]
       ++ flat_map (timed_out_rows (S (length (runs s))) img) (seq 0 10)
       ++ [MkStatus (S (length (runs s)))
             "Login CAPTCHA solving failed after multiple attempts. Try again." None])%list /\
    naps s' = (naps s + 1800)%nat /\
    now s' = (now s + 1800)%Z /\
    records s' = records s /\
    quits s' = (quits s + 2)%nat.
Proof.
  intros Hm Hd Hstart Hopen Hshow Hidle Hq.
  rewrite (trigger_scrape_runs_session e fuel req s Hm Hd).
  unfold guarded_session. rewrite Hstart.
  set (run := S (length (runs s))) in *.
  assert (Hsession : exists s1,
    session e run fuel (started s) = (Ok login_exhausted, s1) /\
    statuses s1 =
      (statuses s
       ++ [MkStatus run "Filling Username And Password To login" None]
       ++ flat_map (timed_out_rows run img) (seq 0 10)
       ++ [MkStatus run
             "Login CAPTCHA solving failed after multiple attempts. Try again." None])%list /\
    naps s1 = (naps s + 1800)%nat /\
    now s1 = (now s + 1800)%Z /\
    records s1 = records s /\
    quits s1 = (quits s + 1)%nat).
  { unfold session. cbv zeta.
    rewrite bind_eq, Hopen. unfold ask at 1, ret at 1. cbv beta iota.
    rewrite bind_eq, english_switch_leaves_no_trace.
    rewrite bind_eq. unfold _create_status at 1, modify at 1.
    rewrite bind_eq. unfold range.
    rewrite (login_loop_times_out e run img 10 0 false).
    - cbv beta iota. unfold fst. simpl negb. cbv iota.
      eexists. split; [reflexivity |]. simpl.
      split; [now rewrite <- !app_assoc |].
      split; [lia |]. split; [lia |]. split; [reflexivity | lia].
    - intros i Hi. apply Hshow. lia.
    - exact Hidle.
    - exact Hq. }
  destruct Hsession as (s1 & Hs & Hst & Hn & Ht & Hr & Hqs).
  unfold try_finally, try_except. rewrite Hs. simpl.
  eexists. split; [reflexivity |]. simpl. repeat split; try assumption. lia.
Qed.

(** Exercising X25 on the sample site with a silent operator. *)
Lemma unanswered_login_gives_up_witness :
  exists s',
    trigger_scrape silent_site 5 scrape_request fresh = (Ok login_exhausted, s') /\
    statuses s' =
      (statuses fresh
       ++ [MkStatus (S (length (runs fresh))) "Filling Username And Password To login" None]
       ++ flat_map (timed_out_rows (S (length (runs fresh))) (fun _ => MkImage 240 80))
                   (seq 0 10)
       ++ [MkStatus (S (length (runs fresh)))
             "Login CAPTCHA solving failed after multiple attempts. Try again." None])%list /\
    naps s' = (naps fresh + 1800)%nat /\
    now s' = (now fresh + 1800)%Z /\
    records s' = records fresh /\
    quits s' = (quits fresh + 2)%nat.
Proof.
  apply (unanswered_login_gives_up silent_site 5 scrape_request
           (fun _ => MkImage 240 80) fresh).
  - reflexivity.
  - eexists _, _. split; reflexivity.
  - reflexivity.
  - reflexivity.
  - intros a _. split; [reflexivity |]. eexists. split; reflexivity.
  - exact I.
  - intros n _. reflexivity.
Defined.

(** ** The status page after the form page *)

Lemma filter_other_run (r : nat) (rows : list status_row) :
  (forall st, In st rows -> st_run st <> r) ->
  filter (fun st => Nat.eqb (st_run st) r) rows = [].
Proof.
  induction rows as [|st rows IH]; intros H; [reflexivity |].
  rewrite filter_cons. destruct (decide _) as [Ht | _].
  - exfalso. apply Is_true_true, Nat.eqb_eq in Ht.
    apply (H st); [now left | exact Ht].
  - apply IH. intros st' Hin. apply H. now right.
Qed.

(** What the status page shows. *)
Lemma get_status_page (req : request) (s : state) :
  exists page s',
    get_status req s = (Ok page, s') /\
    pg_statuses page =
      match head (runs s) with
      | Some r => filter (fun st => Nat.eqb (st_run st) r) (statuses s)
      | None => []
      end /\
    pg_status page = last (statuses s) /\
    statuses s' = statuses s.
Proof.
  unfold get_status, bind, latest_run, get_state, ret, cache_set, modify.
  destruct (String.eqb (method req) "POST");
    [destruct (truthy (strip (or_empty (Dict.get "captcha_value" (POST req))))) |];
    destruct (head (runs s)); eexists _, _; (split; [reflexivity |]);
    repeat split; reflexivity.
Qed.

(** X28: once the form page has been requested, the status page lists no
    row at all, although the rows of the earlier runs are still stored and
    the newest of them is still shown as the latest status: the page
    follows the run created for the form request. *)
Theorem form_request_blanks_status_page
    (e : env) (fuel : nat) (req0 req : request) (s : state) :
  method req0 <> "POST" -> rows_of_known_runs s ->
  exists page s',
    (trigger_scrape e fuel req0 >>> get_status req) s = (Ok page, s') /\
    pg_statuses page = [] /\
    pg_status page = last (statuses s) /\
    statuses s' = statuses s.
Proof.
  intros Hm Hknown.
  assert (Hform : trigger_scrape e fuel req0 s =
                  (Ok (Render "scraper_app/scrape_form.html"), started s)).
  { unfold trigger_scrape, bind, create_run.
    destruct (String.eqb_spec (method req0) "POST") as [Heq | _]; [contradiction |].
    reflexivity. }
  assert (Hnone : filter (fun st => Nat.eqb (st_run st) (S (length (runs s))))
                              (statuses s) = []).
  { apply filter_other_run. intros st Hin Heq. apply Hknown in Hin. lia. }
  rewrite bind_eq, Hform.
  destruct (get_status_page req (started s)) as (page & s' & Hg & Hrows & Hlast & Hst).
  exists page, s'. split; [exact Hg |].
  split; [rewrite Hrows; exact Hnone |]. split; [exact Hlast | exact Hst].
Qed.

(** Exercising X28: run 1 has prompted when the form page is opened. *)
Lemma form_request_blanks_status_page_witness :
  exists page s',
    (trigger_scrape sample_site 5 form_request >>> get_status form_request) prompting_state
      = (Ok page, s') /\
    pg_statuses page = [] /\
    pg_status page = last (statuses prompting_state) /\
    statuses s' = statuses prompting_state.
Proof.
  apply (form_request_blanks_status_page sample_site 5 form_request form_request
           prompting_state).
  - discriminate.
  - intros st [<- | []]. simpl. lia.
Defined.

End RunMore.


(* ===================================================================== *)
(** * A crawl in which every row can be read *)
(* ===================================================================== *)

Module CrawlFacts.
Import Text Eff Relay Store Capture Scrape Props Shapes ResultsFacts SessionFacts.
Local Open Scope eff_scope.

Section Crawl.
Variable e : env.
Variable new_run : nat.

Lemma rows_all_succeed (page k a : nat) (s : state) :
  (forall i, (a <= i < a + k)%nat -> row_succeeds i (po_row (pages e page) i)) ->
  exists s',
    for_each (process_row e new_run page) (seq a k) tt s = (Ok (tt, None), s') /\
    length (records s') = (length (records s) + k)%nat.
Proof.
  revert a s. induction k as [|k IH]; intros a s Hgood.
  - exists s. split; [reflexivity | lia].
  - simpl. rewrite bind_eq.
    destruct (process_row_succeeds e new_run page a s) as (s1 & H1 & _ & Hr1);
      [apply Hgood; lia |].
    rewrite H1. cbv beta iota. unfold snd, fst.
    destruct (IH (S a) s1) as (s' & H' & Hr'); [intros i Hi; apply Hgood; lia |].
    exists s'. split; [exact H' | lia].
Qed.

(** One round of the page loop on a page whose rows can all be read. *)
Lemma clean_page_round (p k fuel : nat) (s : state) :
  clean_page k (pages e p) ->
  exists s1,
    length (records s1) = (length (records s) + k)%nat /\
    results_loop e new_run (S fuel) p s =
      (let! more := paginate e p in
       if more then results_loop e new_run fuel (S p) else ret tt) s1.
Proof.
  intros [Hk Hrows].
  destruct (rows_all_succeed p k 0 (set_journal (journal s ++ [PageVisited p]) s))
    as (s1 & H1 & Hr1); [intros i Hi; apply Hrows; lia |].
  exists s1. split; [exact Hr1 |].
  simpl results_loop. rewrite bind_eq, Hk. unfold ask at 1, ret at 1. cbv beta iota.
  rewrite bind_eq. unfold note at 1, modify at 1. cbv beta iota.
  rewrite bind_eq. unfold process_rows at 1, range. rewrite bind_eq, H1.
  reflexivity.
Qed.

Lemma clean_pages (k : nat -> nat) (n p fuel : nat) (s : state) :
  (0 < n <= fuel)%nat ->
  (forall q, (p <= q < p + n)%nat -> clean_page (k q) (pages e q)) ->
  (forall q, (p <= q)%nat -> (S q < p + n)%nat -> next_enabled (po_next (pages e q))) ->
  next_disabled (po_next (pages e (p + n - 1))) \/
  next_fails (po_next (pages e (p + n - 1))) ->
  exists s',
    results_loop e new_run fuel p s = (Ok tt, s') /\
    length (records s') = (length (records s) + list_sum (map k (seq p n)))%nat.
Proof.
  revert p fuel s. induction n as [|n IH]; intros p fuel s Hn Hclean Hnext Hlast; [lia |].
  destruct fuel as [|fuel]; [lia |].
  destruct (clean_page_round p (k p) fuel s) as (s1 & Hr1 & H1); [apply Hclean; lia |].
  rewrite H1, bind_eq.
  destruct n as [|n].
  - replace (p + 1 - 1)%nat with p in Hlast by lia.
    rewrite (paginate_stops e p s1 Hlast). exists s1. split; [reflexivity |].
    simpl. lia.
  - rewrite (paginate_goes_on e p s1) by (apply Hnext; lia).
    destruct (IH (S p) fuel s1) as (s' & H' & Hr').
    + lia.
    + intros q Hq. apply Hclean. lia.
    + intros q Hq1 Hq2. apply Hnext; lia.
    + replace (S p + S n - 1)%nat with (p + S (S n) - 1)%nat by lia. exact Hlast.
    + exists s'. split; [exact H' |].
      rewrite Hr', Hr1. change (seq p (S (S n))) with (p :: seq (S p) (S n)).
      simpl map. simpl list_sum. lia.
Qed.

End Crawl.

(** X26: when the site shows [N] result pages, page [p] listing [k p] rows
    that can all be read and stored, every page but the last leading on and
    the last one ending the loop, the run reports completion and has stored
    exactly one record per row: the sum of the [k p]. *)
Theorem clean_crawl_stores_every_row
    (e : env) (new_run N fuel : nat) (k : nat -> nat) (s : state) :
  (0 < N <= fuel)%nat ->
  (forall p, (p < N)%nat -> clean_page (k p) (pages e p)) ->
  (forall p, (S p < N)%nat -> next_enabled (po_next (pages e p))) ->
  next_disabled (po_next (pages e (N - 1))) \/ next_fails (po_next (pages e (N - 1))) ->
  exists s',
    report_results e new_run fuel s = (Ok (finished e), s') /\
    length (records s') = (length (records s) + list_sum (map k (seq 0 N)))%nat.
Proof.
  intros HN Hclean Hnext Hlast.
  destruct (clean_pages e new_run k N 0 fuel s) as (s1 & H1 & Hr1).
  - exact HN.
  - intros q Hq. apply Hclean. lia.
  - intros q _ Hq. apply Hnext. lia.
  - exact Hlast.
  - unfold report_results. rewrite bind_eq, H1.
    eexists. split; [reflexivity |]. exact Hr1.
Qed.

(** Exercising X26: two pages of three rows. *)
Lemma clean_crawl_stores_every_row_witness :
  exists s',
    report_results tidy_site 1 5 fresh = (Ok (finished tidy_site), s') /\
    length (records s') = (length (records fresh) + list_sum (map (fun _ => 3) (seq 0 2)))%nat.
Proof.
  apply (clean_crawl_stores_every_row tidy_site 1 2 5 (fun _ => 3%nat) fresh).
  - lia.
  - intros p Hp. assert (p = 0 \/ p = 1)%nat as [-> | ->] by lia;
      (split; [reflexivity |]; intros i Hi;
       split; [exists 3%nat; split; [reflexivity | lia] |
               split; [reflexivity | split; [eexists; reflexivity | reflexivity]]]).
  - intros p Hp. assert (p = 0)%nat as -> by lia.
    split; [reflexivity | split; [| split; reflexivity]].
    eexists. split; reflexivity.
  - left. split; [reflexivity |]. eexists. split; reflexivity.
Defined.

End CrawlFacts.

(* ===================================================================== *)
(** * What a run never takes away *)
(* ===================================================================== *)

Module Invariants.
Import Text Eff Relay Store Capture Scrape Props Shapes RelayFacts.
Local Open Scope eff_scope.

Lemma extends_refl (run : nat) (s : state) : extends run s s.
Proof.
  split; [reflexivity |]. split; [exists []; now rewrite app_nil_r |].
  split; [exists []; now rewrite app_nil_r | lia].
Qed.

Lemma extends_trans (run : nat) (s1 s2 s3 : state) :
  extends run s1 s2 -> extends run s2 s3 -> extends run s1 s3.
Proof.
  intros (Hr1 & (x1 & Hx1 & Hf1) & (y1 & Hy1) & Hn1 & Hq1)
         (Hr2 & (x2 & Hx2 & Hf2) & (y2 & Hy2) & Hn2 & Hq2).
  split; [congruence |]. split; [| split; [| lia]].
  - exists (x1 ++ x2)%list. split; [now rewrite Hx2, Hx1, app_assoc |].
    apply Forall_app. auto.
  - exists (y1 ++ y2)%list. now rewrite Hy2, Hy1, app_assoc.
Qed.

(** States that differ in the cache, the clock or the journal only. *)
Lemma extends_same (run : nat) (s s' : state) :
  runs s' = runs s -> statuses s' = statuses s -> records s' = records s ->
  (naps s <= naps s')%nat -> (quits s <= quits s')%nat -> extends run s s'.
Proof.
  intros Hr Hs Hc Hn Hq. split; [exact Hr |].
  split; [exists []; now rewrite app_nil_r |].
  split; [exists []; now rewrite app_nil_r | lia].
Qed.

Section Steps.
Variable run : nat.

Lemma adds_ret {A} (a : A) : only_adds run (ret a).
Proof. intros s. apply extends_refl. Qed.

Lemma adds_raise {A} (ex : exn) : only_adds run (@raise A ex).
Proof. intros s. apply extends_refl. Qed.

Lemma adds_out_of_fuel {A} : only_adds run (@out_of_fuel A).
Proof. intros s. apply extends_refl. Qed.

Lemma adds_ask {T} (r : reply T) : only_adds run (ask r).
Proof. intros s. destruct r; apply extends_refl. Qed.

Lemma adds_lift {A} (o : outcome A) : only_adds run (lift o).
Proof. intros s. apply extends_refl. Qed.

Lemma adds_get_state : only_adds run get_state.
Proof. intros s. apply extends_refl. Qed.

Lemma adds_status (message : string) (pil_image : option image) :
  only_adds run (_create_status run message pil_image).
Proof.
  intros s. split; [reflexivity |]. split; [| split; [| simpl; lia]].
  - eexists. split; [reflexivity |]. repeat constructor.
  - exists []. simpl. now rewrite app_nil_r.
Qed.

Lemma adds_quit : only_adds run driver_quit.
Proof. intros s. apply extends_same; simpl; auto. Qed.

Lemma adds_note (ev : event) : only_adds run (note ev).
Proof. intros s. apply extends_same; simpl; auto. Qed.

Lemma adds_cache_get (key : string) : only_adds run (cache_get key).
Proof.
  intros s. unfold cache_get. destruct (cache s !! key) as [[v expires]|];
    [destruct (now s <? expires)%Z |]; apply extends_refl.
Qed.

Lemma adds_cache_delete (key : string) : only_adds run (cache_delete key).
Proof. intros s. apply extends_same; simpl; auto. Qed.

Lemma adds_bind {A B} (m : M A) (f : A -> M B) :
  only_adds run m -> (forall a, only_adds run (f a)) -> only_adds run (bind m f).
Proof.
  intros Hm Hf s. rewrite SessionFacts.bind_eq. specialize (Hm s).
  destruct (m s) as [[a|ex|] s1]; simpl in Hm |- *; [| exact Hm | exact Hm].
  apply (extends_trans run s s1); [exact Hm | apply Hf].
Qed.

Lemma adds_try_except {A} (m : M A) (h : exn -> M A) :
  only_adds run m -> (forall ex, only_adds run (h ex)) -> only_adds run (try_except m h).
Proof.
  intros Hm Hh s. unfold try_except. specialize (Hm s).
  destruct (m s) as [[a|ex|] s1]; simpl in Hm |- *; [exact Hm | | exact Hm].
  apply (extends_trans run s s1); [exact Hm | apply Hh].
Qed.

Lemma adds_try_finally {A} (m : M A) (f : M unit) :
  only_adds run m -> only_adds run f -> only_adds run (try_finally m f).
Proof.
  intros Hm Hf s. unfold try_finally. specialize (Hm s).
  destruct (m s) as [[a|ex|] s1]; simpl in Hm |- *; [| | exact Hm];
    specialize (Hf s1); destruct (f s1) as [[[]|ex'|] s2]; simpl in Hf |- *;
    apply (extends_trans run s s1); assumption.
Qed.

Lemma adds_for_each {X L R} (body : X -> L -> M (L * flow R)) (xs : list X) (l : L) :
  (forall x l, only_adds run (body x l)) -> only_adds run (for_each body xs l).
Proof.
  intros Hbody. revert l. induction xs as [|x xs IH]; intros l; simpl.
  - apply adds_ret.
  - apply adds_bind; [apply Hbody |]. intros [l' [| |r]]; simpl;
      [apply IH | apply adds_ret | apply adds_ret].
Qed.

(** The intake side writes into the cache and nowhere else. *)
Lemma adds_get_status (req : request) : only_adds run (get_status req).
Proof.
  intros s. destruct (get_status_effect req s) as [page Hg]. rewrite Hg. simpl.
  destruct (submits req); [| apply extends_refl].
  destruct (head (runs s)); [| apply extends_refl].
  apply extends_same; simpl; auto.
Qed.

Lemma adds_serve (reqs : list request) : only_adds run (serve reqs).
Proof.
  induction reqs as [|r reqs IH]; simpl; [apply adds_ret |].
  apply adds_bind; [apply adds_get_status | intros _; exact IH].
Qed.

Lemma adds_sleep (intake : nat -> list request) (d : Z) : only_adds run (sleep intake d).
Proof.
  intros s. unfold sleep. rewrite SessionFacts.bind_eq. unfold get_state at 1.
  cbv beta iota. rewrite SessionFacts.bind_eq. unfold modify at 1. cbv beta iota.
  eapply extends_trans; [| apply adds_serve].
  apply extends_same; simpl; auto.
Qed.

Lemma adds_poll (intake : nat -> list request) (fuel : nat) (key : string)
      (timeout poll_interval waited : Z) :
  only_adds run (poll intake fuel key timeout poll_interval waited).
Proof.
  revert waited. induction fuel as [|fuel IH]; intros waited; simpl;
    destruct (waited <? timeout)%Z; try apply adds_ret; try apply adds_out_of_fuel.
  apply adds_bind; [apply adds_cache_get |]. intros [v|].
  - destruct (truthy v).
    + apply adds_bind; [apply adds_cache_delete | intros _; apply adds_ret].
    + apply adds_bind; [apply adds_sleep | intros _; apply IH].
  - apply adds_bind; [apply adds_sleep | intros _; apply IH].
Qed.

Lemma adds_await (e : env) : only_adds run (await_captcha e run).
Proof. apply adds_poll. Qed.

Lemma adds_section_at (all_sections : list section) (i : nat) :
  only_adds run (section_at all_sections i).
Proof.
  unfold section_at. destruct (nth_error all_sections i);
    [apply adds_ret | apply adds_raise].
Qed.

Lemma adds_record (f : state -> scraped_record) :
  only_adds run (modify (fun s => set_records (records s ++ [f s]) s)).
Proof.
  intros s. split; [reflexivity |]. split; [exists []; simpl; now rewrite app_nil_r |].
  split; [eexists; reflexivity | simpl; lia].
Qed.

#[local] Hint Resolve adds_ret adds_raise adds_out_of_fuel adds_ask adds_lift
  adds_get_state adds_status adds_quit adds_note adds_cache_get adds_cache_delete
  adds_bind adds_try_except adds_try_finally adds_for_each adds_await
  adds_section_at : adds.
#[local] Hint Extern 1 (only_adds _ (if ?b then _ else _)) => destruct b : adds.
#[local] Hint Extern 1 (only_adds _ (match ?o with Some _ => _ | None => _ end)) =>
  destruct o : adds.

Lemma adds_save_to_db (db : reply unit) (all_sections : list section) :
  only_adds run (save_to_db db all_sections).
Proof.
  unfold save_to_db.
  apply adds_try_except; [| auto with adds].
  do 5 (apply adds_bind; [apply adds_section_at | intros ?]).
  apply adds_bind; [apply adds_ask | intros _].
  apply (adds_record (fun _ => _)).
Qed.

#[local] Hint Resolve adds_save_to_db : adds.

Variable e : env.

Lemma adds_login_attempt (attempt : nat) (flag : bool) :
  only_adds run (login_attempt e run attempt flag).
Proof. unfold login_attempt. cbv zeta. eauto 40 with adds. Qed.

Lemma adds_filter_attempt (retry : nat) (flag : bool) :
  only_adds run (filter_attempt e run retry flag).
Proof. unfold filter_attempt. cbv zeta. eauto 60 with adds. Qed.

Lemma adds_process_row (page i : nat) (u : unit) :
  only_adds run (process_row e run page i u).
Proof. unfold process_row. cbv zeta. eauto 40 with adds. Qed.

#[local] Hint Resolve adds_login_attempt adds_filter_attempt adds_process_row : adds.

Lemma adds_process_rows (page k : nat) : only_adds run (process_rows e run page k).
Proof. unfold process_rows. eauto with adds. Qed.

Lemma adds_paginate (page : nat) : only_adds run (paginate e page).
Proof. unfold paginate. cbv zeta. eauto 20 with adds. Qed.

#[local] Hint Resolve adds_process_rows adds_paginate : adds.

Lemma adds_results_loop (fuel page : nat) : only_adds run (results_loop e run fuel page).
Proof.
  revert page. induction fuel as [|fuel IH]; intros page; simpl; eauto 20 with adds.
Qed.

#[local] Hint Resolve adds_results_loop : adds.

Lemma adds_report_results (fuel : nat) : only_adds run (report_results e run fuel).
Proof. unfold report_results. eauto 20 with adds. Qed.

#[local] Hint Resolve adds_report_results : adds.

Lemma adds_after_login (fuel : nat) : only_adds run (after_login e run fuel).
Proof. unfold after_login. cbv zeta. eauto 40 with adds. Qed.

#[local] Hint Resolve adds_after_login : adds.

Lemma adds_session (fuel : nat) : only_adds run (session e run fuel).
Proof. unfold session. cbv zeta. eauto 40 with adds. Qed.

Lemma adds_on_error (ex : exn) : only_adds run (on_error run ex).
Proof. unfold on_error. eauto with adds. Qed.

#[local] Hint Resolve adds_session adds_on_error : adds.

Lemma adds_guarded_session (fuel : nat) : only_adds run (guarded_session e run fuel).
Proof. unfold guarded_session. destruct (driver_start e); eauto 10 with adds. Qed.

End Steps.

(** X27: whatever the site, the operator and the request do, and however
    the run ends, [trigger_scrape] takes nothing away: it creates exactly
    one run, leaves the status rows and records that were there in place
    and in order, appends status rows for its own run only, and never
    undoes a sleep or a closed driver. *)
Theorem run_takes_nothing_away (e : env) (fuel : nat) (req : request) (s : state) :
  extends (S (length (runs s))) (started s) (snd (trigger_scrape e fuel req s)) /\
  runs (snd (trigger_scrape e fuel req s)) = S (length (runs s)) :: runs s.
Proof.
  assert (H : extends (S (length (runs s))) (started s)
                      (snd (trigger_scrape e fuel req s))).
  { unfold trigger_scrape. rewrite SessionFacts.bind_eq. unfold create_run at 1.
    cbv beta iota zeta. fold (started s).
    destruct (negb (String.eqb (method req) "POST")); [apply extends_refl |].
    apply adds_bind.
    - apply adds_try_except; [| intros; apply adds_ret].
      apply adds_bind; [apply adds_ask | intros f].
      apply adds_bind; [apply adds_ask | intros t]. apply adds_ret.
    - intros [dates|].
      + apply adds_guarded_session.
      + apply adds_bind; [apply adds_status | intros _; apply adds_ret]. }
  split; [exact H |]. destruct H as [Hr _]. rewrite Hr. reflexivity.
Qed.

End Invariants.
